(** * A shallow embedding of the session / room / points server

    The development follows the persisted server (the socket handlers that
    read and write the [users] table through [db.ts]).  Every handler is a
    pure function from the server state and the event payload to the new
    state and the list of effects (emits and channel joins) it performs,
    in the order the handler performs them.

    Conventions.
    - Socket ids, room ids, e-mails and user names are [string]s; user ids,
      points and amounts are JavaScript numbers holding integers, modelled
      as [Z] (the [points] column is an SQL INTEGER).
    - A JavaScript [Map] (and an object enumerated with [Object.entries])
      remembers insertion order, so it is an association list with the
      operations of [JsMap].  Objects and maps that are only read and written
      by key ([emailToSocketId], [gameData], the [users] table) are [gmap]s.
    - Objects stored in a [Map] are mutated in place by the handlers; here
      the mutation is a [JsMap.set] at the key the object was fetched from,
      which keeps its position.
    - [console.log] calls are not modelled. *)

From stdpp Require Import base strings list gmap.
From Stdlib Require Import ZArith Lia.

Local Open Scope Z_scope.

(** ** JavaScript [Map]s, in insertion order *)

Abbreviation jsmap V := (list (string * V)).

Module JsMap.
Section ops.
Context {V : Type}.

Fixpoint get (m : jsmap V) (k : string) : option V :=
  match m with
  | [] => None
  | (k', v) :: m' => if decide (k' = k) then Some v else get m' k
  end.


(* [set] on a present key replaces the value where it stands; a new key goes
   to the end. *)
Fixpoint set (m : jsmap V) (k : string) (v : V) : jsmap V :=
  match m with
  | [] => [(k, v)]
  | (k', v') :: m' =>
      if decide (k' = k) then (k, v) :: m' else (k', v') :: set m' k v
  end.

Fixpoint delete (m : jsmap V) (k : string) : jsmap V :=
  match m with
  | [] => []
  | (k', v') :: m' =>
      if decide (k' = k) then delete m' k else (k', v') :: delete m' k
  end.

Definition size (m : jsmap V) : Z := Z.of_nat (length m).

Definition keys (m : jsmap V) : list string := m.*1.

Definition values (m : jsmap V) : list V := m.*2.

End ops.
End JsMap.

(** ** Data model

    The type declarations of [./types] ([OnlineUser], [Room], [GameType],
    [RPSChoice]) are not among the sources.  The records below have the
    fields of the object literals the handlers build; a [GameType] is the
    string the handlers compare with ["rps"]. *)

(** Modelled from the spec: [RPSChoice] of [./types] is missing; the game is
    the three-move game of the Game Resolver (rock, paper, scissors), the
    three values the client sends. *)
Inductive RPSChoice := rock | paper | scissors.

(* The three values the handlers assign to [room.status]. *)
Inductive RoomStatus := waiting | playing | finished.

#[global] Instance RPSChoice_eq_dec : EqDecision RPSChoice.
Proof. solve_decision. Defined.

#[global] Instance RoomStatus_eq_dec : EqDecision RoomStatus.
Proof. solve_decision. Defined.

(* A row of the [users] table, keyed by its [id] column in [State.db];
   the password hash and the timestamps play no part in the socket
   handlers and are left out. *)
Record DbUser := mkDbUser {
  d_email : string;
  d_username : string;
  d_points : Z
}.

(* [OnlineUser]: the session of a connection; [u_id] is the socket id and
   [u_points] the cached balance. *)
Record OnlineUser := mkOnlineUser {
  u_id : string;
  u_userId : Z;
  u_email : string;
  u_username : string;
  u_points : Z
}.

(* [Room]; [r_gameData] is [None] until the first move is recorded. *)
Record Room := mkRoom {
  r_id : string;
  r_gameType : string;
  r_hostId : string;
  r_players : list string;
  r_status : RoomStatus;
  r_betAmount : Z;
  r_gameData : option (gmap string RPSChoice)
}.

(** Modelled from the spec: the type of the value [calculateRPSResult]
    returns is declared in the missing [./game/rps]; it is the Settlement
    Outcome of the data model, with the field names the server and the
    client read ([isDraw], [winnerId], [pointsChange]).  [pointsChange] is
    keyed by socket id. *)
Record GameResult := mkGameResult {
  winnerId : option string;
  loserId : option string;
  isDraw : bool;
  pointsChange : jsmap Z
}.

(* The [{ id, email, username, points }] object sent to clients. *)
Record UserInfo := mkUserInfo {
  i_id : Z;
  i_email : string;
  i_username : string;
  i_points : Z
}.

(* [{ ...gameResult, pointsChange: pointsChangeByUserId }] *)
Record ResultPayload := mkResultPayload {
  p_winnerId : option string;
  p_loserId : option string;
  p_isDraw : bool;
  p_pointsChange : gmap Z Z
}.

Record State := mkState {
  onlineUsers : jsmap OnlineUser;        (* socket.id -> OnlineUser *)
  rooms : jsmap Room;                    (* room.id -> Room *)
  emailToSocketId : gmap string string;  (* email -> socket.id *)
  db : gmap Z DbUser                     (* the users table *)
}.

(** ** Effects of a handler *)

Inductive Target :=
  | ToSocket (sock : string)              (* socket.emit *)
  | Broadcast (sock : string)             (* socket.broadcast.emit *)
  | IoTo (channel : string)               (* io.to(channel).emit *)
  | BroadcastTo (sock channel : string)   (* socket.broadcast.to(channel).emit *)
  | IoAll.                                (* io.emit *)

Inductive LoginError :=
  | UserNotFound      (* the userId has no row *)
  | AlreadyOnline     (* the account is already logged in *)
  | ServerFull.       (* MAX_ONLINE_USERS reached *)

Inductive ErrorReason :=
  | LoginRequired
  | InsufficientFunds (required : option Z)
  | RoomNotFound
  | RoomFull
  | NotJoinable
  | InvalidRoom
  | NotAMember
  | PlayerInfoMissing
  | InvalidAmount
  | TargetNotFound
  | TargetOffline.

Inductive Message :=
  | login_error (reason : LoginError)
  | login_success (user : UserInfo) (online : list OnlineUser)
      (availableRooms : list Room)
  | user_joined (user : UserInfo)
  | online_users_updated (online : list OnlineUser)
  | error (reason : ErrorReason)
  | room_created (room : Room)
  | room_list_updated (availableRooms : list Room)
  | game_started (room : Room)
  | room_joined (room : Room)
  | player_joined_room (room : Room) (newPlayer : UserInfo)
  | game_result (roomId : string) (result : ResultPayload)
      (choices : gmap string RPSChoice) (updatedUsers : list UserInfo)
  | game_continue (room : Room)
  | choice_received
  | transfer_success (targetName : string) (amount : Z) (updatedUser : UserInfo)
  | points_received (senderName : string) (amount : Z) (updatedUser : UserInfo)
  | player_left_room (room : Room) (leaver : string)
  | user_left (name : string).

Inductive Effect :=
  | Emit (to : Target) (m : Message)
  | SocketJoin (sock channel : string).   (* socket.join(channel) *)

(** ** Field updates (assignments to one property of an object) *)

Definition set_points (u : OnlineUser) (p : Z) : OnlineUser :=
  mkOnlineUser (u_id u) (u_userId u) (u_email u) (u_username u) p.

Definition set_players (r : Room) (ps : list string) : Room :=
  mkRoom (r_id r) (r_gameType r) (r_hostId r) ps (r_status r) (r_betAmount r)
    (r_gameData r).

Definition set_status (r : Room) (st : RoomStatus) : Room :=
  mkRoom (r_id r) (r_gameType r) (r_hostId r) (r_players r) st (r_betAmount r)
    (r_gameData r).

Definition set_gameData (r : Room) (gd : option (gmap string RPSChoice)) : Room :=
  mkRoom (r_id r) (r_gameType r) (r_hostId r) (r_players r) (r_status r)
    (r_betAmount r) gd.

Definition set_onlineUsers (s : State) (ou : jsmap OnlineUser) : State :=
  mkState ou (rooms s) (emailToSocketId s) (db s).

Definition set_rooms (s : State) (rs : jsmap Room) : State :=
  mkState (onlineUsers s) rs (emailToSocketId s) (db s).

(* [onlineUsers.get(key).points = p], on the shared object *)
Definition assign_points (ou : jsmap OnlineUser) (key : string) (p : Z)
    : jsmap OnlineUser :=
  match JsMap.get ou key with
  | Some u => JsMap.set ou key (set_points u p)
  | None => ou
  end.

Definition user_info (u : OnlineUser) : UserInfo :=
  mkUserInfo (u_userId u) (u_email u) (u_username u) (u_points u).

(** ** db.ts *)

Definition getUserById (d : gmap Z DbUser) (userId : Z) : option DbUser :=
  d !! userId.

(* UPDATE users SET points = ? WHERE id = ? *)
Definition updateUserPoints (d : gmap Z DbUser) (userId newPoints : Z)
    : gmap Z DbUser :=
  alter (λ u, mkDbUser (d_email u) (d_username u) newPoints) userId d.

(* [user?.points || 0] *)
Definition getUserPoints (d : gmap Z DbUser) (userId : Z) : Z :=
  match d !! userId with
  | Some u => d_points u
  | None => 0
  end.

(* The id AUTOINCREMENT gives the next row: no row is ever deleted, so it is
   one more than the largest id in the table. *)
Definition next_rowid (d : gmap Z DbUser) : Z :=
  1 + map_fold (λ k _ acc, Z.max k acc) 0 d.

(* [registerUser]; the result is the new table and [userId] on success. *)
Definition registerUser (d : gmap Z DbUser) (email username : string)
    : gmap Z DbUser * option Z :=
  if bool_decide (map_Exists (λ _ u, d_email u = email) d) then (d, None)
  else if bool_decide (map_Exists (λ _ u, d_username u = username) d)
  then (d, None)
  else (<[next_rowid d := mkDbUser email username 1000]> d, Some (next_rowid d)).

(** ** The game resolver *)

(* rock beats scissors, scissors beats paper, paper beats rock *)
Definition beats (a b : RPSChoice) : bool :=
  match a, b with
  | rock, scissors | scissors, paper | paper, rock => true
  | _, _ => false
  end.

(** Modelled from the spec: [calculateRPSResult] of [./game/rps] is imported
    by the server but its file is not among the sources.  The signature is
    the one of the call in the [rps_choice] handler; the outcome follows the
    description of the Game Resolver: equal moves are a draw with zero
    deltas, otherwise the winner's delta is [+stake] and the loser's is
    [-stake].  [pointsChange] is the object
    [{ [player1Id]: d1, [player2Id]: d2 }]. *)
Definition calculateRPSResult (player1Id : string) (player1Choice : RPSChoice)
    (player2Id : string) (player2Choice : RPSChoice) (betAmount : Z)
    : GameResult :=
  if decide (player1Choice = player2Choice) then
    mkGameResult None None true
      (JsMap.set (JsMap.set [] player1Id 0) player2Id 0)
  else if beats player1Choice player2Choice then
    mkGameResult (Some player1Id) (Some player2Id) false
      (JsMap.set (JsMap.set [] player1Id betAmount) player2Id (- betAmount))
  else
    mkGameResult (Some player2Id) (Some player1Id) false
      (JsMap.set (JsMap.set [] player1Id (- betAmount)) player2Id betAmount).

(** ** The server *)

Definition MAX_ONLINE_USERS : Z := 8.

Definition getOnlineUsersList (s : State) : list OnlineUser :=
  JsMap.values (onlineUsers s).

Definition is_available (room : Room) : bool :=
  bool_decide (r_status room = waiting) && (length (r_players room) <? 2)%nat.

Definition getAvailableRooms (s : State) : list Room :=
  filter (λ room, is_available room = true) (JsMap.values (rooms s)).

(* The refresh that opens the balance-consuming handlers:
   [const currentPoints = getUserPoints(user.userId);
    if (currentPoints !== user.points) user.points = currentPoints;] *)
Definition refresh_points (s : State) (key : string) (user : OnlineUser) : State :=
  let currentPoints := getUserPoints (db s) (u_userId user) in
  if bool_decide (currentPoints ≠ u_points user)
  then set_onlineUsers s (assign_points (onlineUsers s) key currentPoints)
  else s.

(** *** login *)

Definition login (s : State) (sock : string) (data_userId : Z)
    (data_email : string) : State * list Effect :=
  match getUserById (db s) data_userId with
  | None => (s, [Emit (ToSocket sock) (login_error UserNotFound)])
  | Some dbUser =>
    if bool_decide (is_Some (emailToSocketId s !! data_email)) then
      (s, [Emit (ToSocket sock) (login_error AlreadyOnline)])
    else if bool_decide (MAX_ONLINE_USERS ≤ JsMap.size (onlineUsers s)) then
      (s, [Emit (ToSocket sock) (login_error ServerFull)])
    else
      let onlineUser :=
        mkOnlineUser sock data_userId (d_email dbUser) (d_username dbUser)
          (d_points dbUser) in
      let s' :=
        mkState (JsMap.set (onlineUsers s) sock onlineUser) (rooms s)
          (<[data_email := sock]> (emailToSocketId s)) (db s) in
      (s',
       [Emit (ToSocket sock)
          (login_success (user_info onlineUser) (getOnlineUsersList s')
             (getAvailableRooms s'));
        Emit (Broadcast sock) (user_joined (user_info onlineUser));
        Emit (Broadcast sock) (online_users_updated (getOnlineUsersList s'))])
  end.

(** *** create_room

    [newId] is the value [generateRoomId()] returns for this call (it is
    made of the clock and a random number). *)

Definition bet_of (gameType : string) : Z :=
  if bool_decide (gameType = "rps"%string) then 100 else 100.

Definition create_room (s : State) (sock : string) (gameType : string)
    (newId : string) : State * list Effect :=
  match JsMap.get (onlineUsers s) sock with
  | None => (s, [Emit (ToSocket sock) (error LoginRequired)])
  | Some user0 =>
    let s1 := refresh_points s sock user0 in
    let user := default user0 (JsMap.get (onlineUsers s1) sock) in
    let betAmount := bet_of gameType in
    if bool_decide (u_points user < betAmount) then
      (s1, [Emit (ToSocket sock) (error (InsufficientFunds (Some betAmount)))])
    else
      let room := mkRoom newId gameType sock [sock] waiting betAmount None in
      let s2 := set_rooms s1 (JsMap.set (rooms s1) (r_id room) room) in
      (s2,
       [SocketJoin sock (r_id room);
        Emit (ToSocket sock) (room_created room);
        Emit (Broadcast sock) (room_list_updated (getAvailableRooms s2))])
  end.

(** *** join_room *)

Definition join_room (s : State) (sock : string) (roomId : string)
    : State * list Effect :=
  match JsMap.get (onlineUsers s) sock with
  | None => (s, [Emit (ToSocket sock) (error LoginRequired)])
  | Some user0 =>
    let s1 := refresh_points s sock user0 in
    let user := default user0 (JsMap.get (onlineUsers s1) sock) in
    match JsMap.get (rooms s1) roomId with
    | None => (s1, [Emit (ToSocket sock) (error RoomNotFound)])
    | Some room =>
      if bool_decide (2 ≤ length (r_players room))%nat then
        (s1, [Emit (ToSocket sock) (error RoomFull)])
      else if bool_decide (r_status room ≠ waiting) then
        (s1, [Emit (ToSocket sock) (error NotJoinable)])
      else if bool_decide (u_points user < r_betAmount room) then
        (s1, [Emit (ToSocket sock)
                (error (InsufficientFunds (Some (r_betAmount room))))])
      else
        let room1 := set_players room (r_players room ++ [sock]) in
        if bool_decide (length (r_players room1) = 2%nat) then
          let room2 := set_status room1 playing in
          let s2 := set_rooms s1 (JsMap.set (rooms s1) roomId room2) in
          (s2,
           [SocketJoin sock (r_id room2);
            Emit (IoTo (r_id room2)) (game_started room2);
            Emit (Broadcast sock) (room_list_updated (getAvailableRooms s2))])
        else
          let s2 := set_rooms s1 (JsMap.set (rooms s1) roomId room1) in
          (s2,
           [SocketJoin sock (r_id room1);
            Emit (ToSocket sock) (room_joined room1);
            Emit (BroadcastTo sock (r_id room1))
              (player_joined_room room1 (user_info user));
            Emit (Broadcast sock) (room_list_updated (getAvailableRooms s2))])
    end
  end.

(** *** rps_choice *)

(* An array read past the end is [undefined]; used as a property name it is
   the key ["undefined"]. *)
Definition property_key (o : option string) : string := default "undefined"%string o.

(* One turn of
   [Object.entries(gameResult.pointsChange).forEach(([playerSocketId, change]) => ...)]:
   the cached balance, the ledger and [pointsChangeByUserId]. *)
Definition settle_entry
    (acc : jsmap OnlineUser * gmap Z DbUser * gmap Z Z) (entry : string * Z)
    : jsmap OnlineUser * gmap Z DbUser * gmap Z Z :=
  let '(ou, d, byUserId) := acc in
  match JsMap.get ou entry.1 with
  | Some player =>
    let newPoints := u_points player + entry.2 in
    (JsMap.set ou entry.1 (set_points player newPoints),
     updateUserPoints d (u_userId player) newPoints,
     <[u_userId player := entry.2]> byUserId)
  | None => acc
  end.

Definition settle (ou : jsmap OnlineUser) (d : gmap Z DbUser)
    (changes : jsmap Z) : jsmap OnlineUser * gmap Z DbUser * gmap Z Z :=
  foldl settle_entry (ou, d, ∅) changes.

(* The branch taken when both moves are recorded: [room1] is the room
   (already holding the new move), stored under [roomId]. *)
Definition resolve_round (s1 : State) (sock roomId : string) (room1 : Room)
    (player1Id player2Id : option string)
    (player1Choice player2Choice : RPSChoice) : State * list Effect :=
  match player1Id, player2Id with
  | Some p1, Some p2 =>
    match JsMap.get (onlineUsers s1) p1, JsMap.get (onlineUsers s1) p2 with
    | Some player1, Some player2 =>
      let gameResult :=
        calculateRPSResult p1 player1Choice p2 player2Choice
          (r_betAmount room1) in
      let '(ou, d, pointsChangeByUserId) :=
        settle (onlineUsers s1) (db s1) (pointsChange gameResult) in
      let s2 := mkState ou (rooms s1) (emailToSocketId s1) d in
      (* [player1] and [player2] are the objects just updated *)
      let player1' := default player1 (JsMap.get ou p1) in
      let player2' := default player2 (JsMap.get ou p2) in
      let result :=
        Emit (IoTo (r_id room1))
          (game_result (r_id room1)
             (mkResultPayload (winnerId gameResult) (loserId gameResult)
                (isDraw gameResult) pointsChangeByUserId)
             (<[p2 := player2Choice]> {[p1 := player1Choice]})
             [user_info player1'; user_info player2']) in
      if isDraw gameResult then
        let room2 := set_status (set_gameData room1 (Some ∅)) playing in
        (set_rooms s2 (JsMap.set (rooms s2) roomId room2),
         [result; Emit (IoTo (r_id room2)) (game_continue room2)])
      else
        let room2 := set_status room1 finished in
        (set_rooms s2 (JsMap.set (rooms s2) roomId room2), [result])
    | _, _ => (s1, [Emit (ToSocket sock) (error PlayerInfoMissing)])
    end
  (* [onlineUsers.get(undefined)] is [undefined] *)
  | _, _ => (s1, [Emit (ToSocket sock) (error PlayerInfoMissing)])
  end.

Definition rps_choice (s : State) (sock : string) (roomId : string)
    (choice : RPSChoice) : State * list Effect :=
  match JsMap.get (rooms s) roomId with
  | None => (s, [Emit (ToSocket sock) (error InvalidRoom)])
  | Some room =>
    if bool_decide (r_gameType room ≠ "rps"%string) then
      (s, [Emit (ToSocket sock) (error InvalidRoom)])
    else if negb (bool_decide (sock ∈ r_players room)) then
      (s, [Emit (ToSocket sock) (error NotAMember)])
    else
      let gameData := <[sock := choice]> (default ∅ (r_gameData room)) in
      let room1 := set_gameData room (Some gameData) in
      let s1 := set_rooms s (JsMap.set (rooms s) roomId room1) in
      let player1Id := r_players room1 !! 0%nat in
      let player2Id := r_players room1 !! 1%nat in
      match gameData !! property_key player1Id,
            gameData !! property_key player2Id with
      | Some player1Choice, Some player2Choice =>
        resolve_round s1 sock roomId room1 player1Id player2Id
          player1Choice player2Choice
      | _, _ => (s1, [Emit (ToSocket sock) choice_received])
      end
  end.

(** *** transfer_points *)

(* The last part of the handler, once the checks have passed: [s1] is the
   state after the sender's refresh, [target0] the object found under
   [targetSocketId]. *)
Definition complete_transfer (s1 : State) (sock targetSocketId : string)
    (sender1 target0 : OnlineUser) (amount : Z) : State * list Effect :=
  let s2 := refresh_points s1 targetSocketId target0 in
  (* [sender] and [target] may be one and the same object *)
  let sender := default sender1 (JsMap.get (onlineUsers s2) sock) in
  let target := default target0 (JsMap.get (onlineUsers s2) targetSocketId) in
  let senderNewPoints := u_points sender - amount in
  let targetNewPoints := u_points target + amount in
  let ou :=
    assign_points (assign_points (onlineUsers s2) sock senderNewPoints)
      targetSocketId targetNewPoints in
  let d :=
    updateUserPoints
      (updateUserPoints (db s2) (u_userId sender) senderNewPoints)
      (u_userId target) targetNewPoints in
  let s3 := mkState ou (rooms s2) (emailToSocketId s2) d in
  let sender' := default sender (JsMap.get ou sock) in
  let target' := default target (JsMap.get ou targetSocketId) in
  (s3,
   [Emit (ToSocket sock)
      (transfer_success (u_username target') amount (user_info sender'));
    Emit (IoTo targetSocketId)
      (points_received (u_username sender') amount (user_info target'));
    Emit IoAll (online_users_updated (getOnlineUsersList s3))]).

Definition transfer_points (s : State) (sock : string) (targetEmail : string)
    (amount : Z) : State * list Effect :=
  match JsMap.get (onlineUsers s) sock with
  | None => (s, [Emit (ToSocket sock) (error LoginRequired)])
  | Some sender0 =>
    if bool_decide (amount ≤ 0) then
      (s, [Emit (ToSocket sock) (error InvalidAmount)])
    else
      let s1 := refresh_points s sock sender0 in
      let sender1 := default sender0 (JsMap.get (onlineUsers s1) sock) in
      if bool_decide (u_points sender1 < amount) then
        (s1, [Emit (ToSocket sock) (error (InsufficientFunds None))])
      else
        match emailToSocketId s1 !! targetEmail with
        | None => (s1, [Emit (ToSocket sock) (error TargetNotFound)])
        | Some targetSocketId =>
          (* [!targetSocketId] also holds of the empty string *)
          if bool_decide (targetSocketId = EmptyString) then
            (s1, [Emit (ToSocket sock) (error TargetNotFound)])
          else
            match JsMap.get (onlineUsers s1) targetSocketId with
            | None => (s1, [Emit (ToSocket sock) (error TargetOffline)])
            | Some target0 =>
              complete_transfer s1 sock targetSocketId sender1 target0 amount
            end
        end
  end.

(** *** disconnect *)

(* One turn of [rooms.forEach((room) => ...)].  The iteration visits the
   entries that are still in the map, in insertion order; [key] runs over
   the keys the map had when the iteration started. *)
Definition leave_room (sock username : string)
    (acc : jsmap Room * list Effect) (key : string)
    : jsmap Room * list Effect :=
  let '(rs, out) := acc in
  match JsMap.get rs key with
  | None => acc
  | Some room =>
    if bool_decide (sock ∈ r_players room) then
      let room1 :=
        set_players room (filter (λ id, id ≠ sock) (r_players room)) in
      if bool_decide (length (r_players room1) = 0%nat) then
        (JsMap.delete (JsMap.set rs key room1) (r_id room1), out)
      else
        (JsMap.set rs key (set_status room1 waiting),
         out ++ [Emit (IoTo (r_id room1)) (player_left_room room1 username)])
    else acc
  end.

Definition leave_rooms (sock username : string) (rs : jsmap Room)
    : jsmap Room * list Effect :=
  foldl (leave_room sock username) (rs, []) (JsMap.keys rs).

Definition disconnect (s : State) (sock : string) : State * list Effect :=
  match JsMap.get (onlineUsers s) sock with
  | None => (s, [])
  | Some user =>
    let ou := JsMap.delete (onlineUsers s) sock in
    let idx := delete (u_email user) (emailToSocketId s) in
    let '(rs, notices) := leave_rooms sock (u_username user) (rooms s) in
    let s' := mkState ou rs idx (db s) in
    (s',
     notices ++
     [Emit (Broadcast sock) (user_left (u_username user));
      Emit (Broadcast sock) (online_users_updated (getOnlineUsersList s'));
      Emit (Broadcast sock) (room_list_updated (getAvailableRooms s'))])
  end.

(** ** Events and runs *)

Inductive Event :=
  | EvLogin (sock : string) (userId : Z) (email : string)
  | EvCreateRoom (sock : string) (gameType : string) (newId : string)
  | EvJoinRoom (sock : string) (roomId : string)
  | EvRpsChoice (sock : string) (roomId : string) (choice : RPSChoice)
  | EvTransferPoints (sock : string) (targetEmail : string) (amount : Z)
  | EvDisconnect (sock : string)
  | EvRegister (email username : string).   (* POST /api/register, accepted *)

Definition handle (s : State) (ev : Event) : State * list Effect :=
  match ev with
  | EvLogin sock userId email => login s sock userId email
  | EvCreateRoom sock gameType newId => create_room s sock gameType newId
  | EvJoinRoom sock roomId => join_room s sock roomId
  | EvRpsChoice sock roomId choice => rps_choice s sock roomId choice
  | EvTransferPoints sock targetEmail amount =>
      transfer_points s sock targetEmail amount
  | EvDisconnect sock => disconnect s sock
  | EvRegister email username =>
      (mkState (onlineUsers s) (rooms s) (emailToSocketId s)
         (registerUser (db s) email username).1, [])
  end.

(* The server handles one event to completion before the next. *)
Definition run (s : State) (evs : list Event) : State :=
  foldl (λ st ev, (handle st ev).1) s evs.

(* At start-up the three maps are empty and the table is what the database
   file holds. *)
Definition initial (d : gmap Z DbUser) : State := mkState [] [] ∅ d.

Inductive reachable : State → Prop :=
  | reachable_initial d : reachable (initial d)
  | reachable_step s ev : reachable s → reachable (handle s ev).1.

(** ** Properties of states *)

(* [P] holds of every value stored in the map. *)
Definition all_values {V : Type} (P : V → Prop) (m : jsmap V) : Prop :=
  Forall (λ kv, P kv.2) m.


(** ** Example tables and runs *)

(* Two registered accounts with the initial 1000 points. *)
Definition two_accounts : gmap Z DbUser :=
  <[2 := mkDbUser "b@x" "bob" 1000]> {[1 := mkDbUser "a@x" "alice" 1000]}.

Definition three_accounts : gmap Z DbUser :=
  <[3 := mkDbUser "c@x" "carol" 1000]> two_accounts.

(* One account holding 50 points, logged in on socket [s1]. *)
Definition poor_account : gmap Z DbUser := {[1 := mkDbUser "a@x" "alice" 50]}.

Definition poor_online : State :=
  run (initial poor_account) [EvLogin "s1" 1 "a@x"].

(* Two accounts logged in, a room created by the first and joined by the
   second: the room is full and the match has started. *)
Definition full_room : State :=
  run (initial two_accounts)
    [EvLogin "s1" 1 "a@x"; EvLogin "s2" 2 "b@x";
     EvCreateRoom "s1" "rps" "r1"; EvJoinRoom "s2" "r1"].

(* A third account logged in next to [full_room]. *)
Definition full_room_and_guest : State :=
  run (initial three_accounts)
    [EvLogin "s1" 1 "a@x"; EvLogin "s2" 2 "b@x"; EvLogin "s3" 3 "c@x";
     EvCreateRoom "s1" "rps" "r1"; EvJoinRoom "s2" "r1"].

(* No room has more than two players. *)
Definition at_most_two (room : Room) : Prop :=
  (length (r_players room) ≤ 2)%nat.

(* The first account logged in on socket [s1]. *)
Definition alice_online : State :=
  run (initial two_accounts) [EvLogin "s1" 1 "a@x"].

(* A second login for user id 1, from another socket and under an e-mail
   that is not the account's. *)
Definition second_login : Event := EvLogin "s2" 1 "a2@x".

(* Account 1 is logged in on [s1] and [s2], account 2 on [s3]; [s1] and
   [s3] play in room [r1]; meanwhile [s2] gives 300 points to account 2;
   then [s1] plays rock. *)
Definition before_stale_settlement : State :=
  run (initial two_accounts)
    [EvLogin "s1" 1 "a@x"; second_login; EvLogin "s3" 2 "b@x";
     EvCreateRoom "s1" "rps" "r1"; EvJoinRoom "s3" "r1";
     EvTransferPoints "s2" "b@x" 300; EvRpsChoice "s1" "r1" rock].

(* The cached balance of the session on [sock] (0 when there is none). *)
Definition cached_points (s : State) (sock : string) : Z :=
  match JsMap.get (onlineUsers s) sock with
  | Some u => u_points u
  | None => 0
  end.

(* The live sessions of an account. *)
Definition sessions_of (s : State) (userId : Z) : list string :=
  (filter (λ kv, u_userId kv.2 = userId) (onlineUsers s)).*1.

(* [sock] is among the players of the room stored under [roomId]. *)
Definition is_member (s : State) (sock roomId : string) : bool :=
  match JsMap.get (rooms s) roomId with
  | Some room => bool_decide (sock ∈ r_players room)
  | None => false
  end.

(* A connection is a player of at most one room, and at most once. *)
Definition one_room_per_connection (s : State) : Prop :=
  (∀ sock k1 k2,
     is_member s sock k1 = true → is_member s sock k2 = true → k1 = k2) ∧
  (∀ k room, JsMap.get (rooms s) k = Some room → NoDup (r_players room)).

(* Both accounts logged in, each the host of a waiting room. *)
Definition two_hosts : State :=
  run (initial two_accounts)
    [EvLogin "s1" 1 "a@x"; EvLogin "s2" 2 "b@x";
     EvCreateRoom "s1" "rps" "r1"; EvCreateRoom "s2" "rps" "r2"].

(* Every recorded move belongs to a player of the room. *)
Definition moves_of_members (room : Room) : Prop :=
  ∀ gd key,
    r_gameData room = Some gd → is_Some (gd !! key) → key ∈ r_players room.

Definition pending_subset (s : State) : Prop :=
  all_values moves_of_members (rooms s).

(* [full_room] after the host has played rock. *)
Definition host_moved : State :=
  run full_room [EvRpsChoice "s1" "r1" rock].

(* What [disconnect] of [sock] may have done to the room now stored as
   [room'], given the room [room] stored under the same key before: the
   recorded moves are the same, [sock] is no longer a player, and no player
   was added. *)
Definition left_behind (sock : string) (room room' : Room) : Prop :=
  r_gameData room' = r_gameData room ∧
  (sock ∉ r_players room') ∧
  (∀ p, p ∈ r_players room' → p ∈ r_players room).

(* What a round changes for the player whose move is [mine], against
   [theirs], at stake [bet]. *)
Definition round_delta (mine theirs : RPSChoice) (bet : Z) : Z :=
  if decide (mine = theirs) then 0
  else if beats mine theirs then bet else - bet.

(* [full_room] after a decisive round: the host played rock, the guest
   scissors. *)
Definition decisive_round : State :=
  run host_moved [EvRpsChoice "s2" "r1" scissors].

(* The state of room [roomId] that a decisive round between [p1] (who played
   [c1]) and [p2] (who played [c2]) leaves behind: finished, both moves
   still recorded, both players online. *)
Definition after_decisive_round (s : State) (roomId : string) (room : Room)
    (p1 p2 : string) (c1 c2 : RPSChoice) (u1 u2 : OnlineUser) : Prop :=
  JsMap.get (rooms s) roomId = Some room ∧
  r_gameType room = "rps"%string ∧
  r_status room = finished ∧
  r_players room = [p1; p2] ∧
  p1 ≠ p2 ∧
  (∃ gd, r_gameData room = Some gd ∧ gd !! p1 = Some c1 ∧ gd !! p2 = Some c2) ∧
  c1 ≠ c2 ∧
  JsMap.get (onlineUsers s) p1 = Some u1 ∧
  JsMap.get (onlineUsers s) p2 = Some u2.

(* The status and the recorded moves of the room stored under [roomId]. *)
Definition room_status (s : State) (roomId : string) : option RoomStatus :=
  r_status <$> JsMap.get (rooms s) roomId.

Definition room_moves (s : State) (roomId : string)
    : option (gmap string RPSChoice) :=
  JsMap.get (rooms s) roomId ≫= r_gameData.

(** * The memory-only server

    The repository holds a second, older variant of the server that keeps
    the points in memory only: sessions are keyed by user name, every login
    starts with [INITIAL_POINTS], and there is no ledger.  The handlers in
    which it differs from the persisted server in a way that matters below
    are embedded here ([login], [create_room], [transfer_points]); its
    [join_room], [rps_choice] and [disconnect] are those of the persisted
    server without the ledger reads and writes. *)

Module MemoryOnly.

Record User := mkUser {
  m_id : string;         (* socket.id *)
  m_username : string;
  m_points : Z
}.

Record MState := mkMState {
  users : jsmap User;                        (* socket.id -> User *)
  m_rooms : jsmap Room;                      (* room.id -> Room *)
  usernameToSocketId : gmap string string    (* username -> socket.id *)
}.

Inductive MLoginError := WrongPassword | UsernameTaken | MServerFull.

Inductive MMessage :=
  | m_login_error (reason : MLoginError)
  | m_login_success (user : User) (online : list User)
      (availableRooms : list Room)
  | m_user_joined (user : User)
  | m_online_users_updated (online : list User)
  | m_error (reason : ErrorReason)
  | m_room_created (room : Room)
  | m_room_list_updated (availableRooms : list Room)
  | m_transfer_success (targetName : string) (amount : Z) (updatedUser : User)
  | m_points_received (senderName : string) (amount : Z) (updatedUser : User).

Inductive MEffect :=
  | MEmit (to : Target) (m : MMessage)
  | MSocketJoin (sock channel : string).

Definition COMMON_PASSWORD : string := "only-friends-2025".
Definition INITIAL_POINTS : Z := 1000.

Definition isUsernameTaken (s : MState) (username : string) : bool :=
  bool_decide (is_Some (usernameToSocketId s !! username)).

Definition getOnlineUsers (s : MState) : list User := JsMap.values (users s).

Definition getAvailableRooms (s : MState) : list Room :=
  filter (λ room, is_available room = true) (JsMap.values (m_rooms s)).

Definition set_m_points (u : User) (p : Z) : User :=
  mkUser (m_id u) (m_username u) p.

(* [users.get(key).points = p], on the shared object *)
Definition assign_m_points (us : jsmap User) (key : string) (p : Z)
    : jsmap User :=
  match JsMap.get us key with
  | Some u => JsMap.set us key (set_m_points u p)
  | None => us
  end.

Definition login (s : MState) (sock : string) (username password : string)
    : MState * list MEffect :=
  if bool_decide (password ≠ COMMON_PASSWORD) then
    (s, [MEmit (ToSocket sock) (m_login_error WrongPassword)])
  else if isUsernameTaken s username then
    (s, [MEmit (ToSocket sock) (m_login_error UsernameTaken)])
  else if bool_decide (MAX_ONLINE_USERS ≤ JsMap.size (users s)) then
    (s, [MEmit (ToSocket sock) (m_login_error MServerFull)])
  else
    let user := mkUser sock username INITIAL_POINTS in
    let s' :=
      mkMState (JsMap.set (users s) sock user) (m_rooms s)
        (<[username := sock]> (usernameToSocketId s)) in
    (s',
     [MEmit (ToSocket sock)
        (m_login_success user (getOnlineUsers s') (getAvailableRooms s'));
      MEmit (Broadcast sock) (m_user_joined user);
      MEmit (Broadcast sock) (m_online_users_updated (getOnlineUsers s'))]).

Definition create_room (s : MState) (sock : string) (gameType : string)
    (newId : string) : MState * list MEffect :=
  match JsMap.get (users s) sock with
  | None => (s, [MEmit (ToSocket sock) (m_error LoginRequired)])
  | Some user =>
    let betAmount := bet_of gameType in
    let room := mkRoom newId gameType sock [sock] waiting betAmount None in
    let s' :=
      mkMState (users s) (JsMap.set (m_rooms s) (r_id room) room)
        (usernameToSocketId s) in
    (s',
     [MSocketJoin sock (r_id room);
      MEmit (ToSocket sock) (m_room_created room);
      MEmit (Broadcast sock) (m_room_list_updated (getAvailableRooms s'))])
  end.

Definition transfer_points (s : MState) (sock : string)
    (targetUsername : string) (amount : Z) : MState * list MEffect :=
  match JsMap.get (users s) sock with
  | None => (s, [MEmit (ToSocket sock) (m_error LoginRequired)])
  | Some sender =>
    if bool_decide (amount ≤ 0) then
      (s, [MEmit (ToSocket sock) (m_error InvalidAmount)])
    else if bool_decide (m_points sender < amount) then
      (s, [MEmit (ToSocket sock) (m_error (InsufficientFunds None))])
    else
      match usernameToSocketId s !! targetUsername with
      | None => (s, [MEmit (ToSocket sock) (m_error TargetNotFound)])
      | Some targetSocketId =>
        if bool_decide (targetSocketId = EmptyString) then
          (s, [MEmit (ToSocket sock) (m_error TargetNotFound)])
        else
          match JsMap.get (users s) targetSocketId with
          | None => (s, [MEmit (ToSocket sock) (m_error TargetOffline)])
          | Some target0 =>
            (* [sender.points -= amount; target.points += amount;] *)
            let us1 :=
              assign_m_points (users s) sock (m_points sender - amount) in
            let target := default target0 (JsMap.get us1 targetSocketId) in
            let us2 :=
              assign_m_points us1 targetSocketId (m_points target + amount) in
            let s' := mkMState us2 (m_rooms s) (usernameToSocketId s) in
            let sender' := default sender (JsMap.get us2 sock) in
            let target' := default target (JsMap.get us2 targetSocketId) in
            (s',
             [MEmit (ToSocket sock)
                (m_transfer_success targetUsername amount sender');
              MEmit (IoTo targetSocketId)
                (m_points_received (m_username sender') amount target');
              MEmit IoAll (m_online_users_updated (getOnlineUsers s'))])
          end
      end
  end.

Definition m_initial : MState := mkMState [] [] ∅.

(* Alice logged in on socket [s1]. *)
Definition m_alice_online : MState :=
  (login m_initial "s1" "alice" COMMON_PASSWORD).1.

End MemoryOnly.

(** * Consistent logins

    The client that ships with the server sends, in its [login] event, the
    id and the e-mail of one and the same account (the pair the HTTP login
    returned).  The server does not check this. *)

(* The e-mail of a [login] event is the one of the row of its user id. *)
Definition consistent_login (s : State) (ev : Event) : Prop :=
  match ev with
  | EvLogin sock userId email =>
      ∀ row, db s !! userId = Some row → d_email row = email
  | _ => True
  end.

Inductive reachable_consistently : State → Prop :=
  | consistently_initial d : reachable_consistently (initial d)
  | consistently_step s ev :
      reachable_consistently s → consistent_login s ev →
      reachable_consistently (handle s ev).1.

(* Every session is indexed under its e-mail. *)
Definition index_covers_sessions (s : State) : Prop :=
  ∀ sock u,
    JsMap.get (onlineUsers s) sock = Some u →
    emailToSocketId s !! u_email u = Some sock.

(* Every session carries the e-mail of the row of its account. *)
Definition sessions_match_rows (s : State) : Prop :=
  ∀ sock u,
    JsMap.get (onlineUsers s) sock = Some u →
    ∃ row, db s !! u_userId u = Some row ∧ d_email row = u_email u.

(* [ou'] has the sessions of [ou], or fewer, with the same identities. *)
Definition points_only (ou ou' : jsmap OnlineUser) : Prop :=
  ∀ sock u',
    JsMap.get ou' sock = Some u' →
    ∃ u,
      JsMap.get ou sock = Some u ∧
      u_email u' = u_email u ∧ u_userId u' = u_userId u.

(* [d'] has the rows of [d], with the same e-mails. *)
Definition rows_kept (d d' : gmap Z DbUser) : Prop :=
  ∀ k row,
    d !! k = Some row → ∃ row', d' !! k = Some row' ∧ d_email row' = d_email row.

(* Every session caches the balance the ledger holds for its account. *)
Definition cache_is_ledger (ou : jsmap OnlineUser) (d : gmap Z DbUser) : Prop :=
  ∀ sock u,
    JsMap.get ou sock = Some u →
    is_Some (d !! u_userId u) ∧ getUserPoints d (u_userId u) = u_points u.

(* No account has two sessions. *)
Definition one_session_per_account (ou : jsmap OnlineUser) : Prop :=
  ∀ sock1 sock2 u1 u2,
    JsMap.get ou sock1 = Some u1 → JsMap.get ou sock2 = Some u2 →
    u_userId u1 = u_userId u2 → sock1 = sock2.

(** * Further properties of states *)

(* A map whose values carry their own key: no key occurs twice and every
   value is stored under the id it holds. *)
Definition keyed_by {V : Type} (id_of : V → string) (m : jsmap V) : Prop :=
  NoDup (JsMap.keys m) ∧ Forall (λ kv, id_of kv.2 = kv.1) m.

(* Sessions are stored under their socket id and rooms under their room id. *)
Definition well_keyed (s : State) : Prop :=
  keyed_by u_id (onlineUsers s) ∧ keyed_by r_id (rooms s).

(* [ou'] has the entries of [ou], in the same order, with possibly other
   cached balances. *)
Definition same_sessions (ou ou' : jsmap OnlineUser) : Prop :=
  Forall2 (λ a b, a.1 = b.1 ∧ set_points a.2 0 = set_points b.2 0) ou ou'.

(* Every player of every room has a session. *)
Definition players_online (s : State) : Prop :=
  ∀ k room p,
    JsMap.get (rooms s) k = Some room → p ∈ r_players room →
    is_Some (JsMap.get (onlineUsers s) p).

(* A waiting room has one player, a room that is playing or finished has
   two; no room is empty. *)
Definition room_shape (room : Room) : Prop :=
  (r_status room = waiting ∧ length (r_players room) = 1%nat) ∨
  (r_status room ≠ waiting ∧ length (r_players room) = 2%nat).

(* [P] holds of every value that [get] can find. *)
Definition all_found {V : Type} (P : V → Prop) (m : jsmap V) : Prop :=
  ∀ k v, JsMap.get m k = Some v → P v.

Definition rooms_shaped (s : State) : Prop := all_found room_shape (rooms s).


(* Nine registered accounts, and a server on which the first eight are
   logged in. *)
Definition nine_accounts : gmap Z DbUser :=
  list_to_map
    [(1, mkDbUser "a@x" "alice" 1000); (2, mkDbUser "b@x" "bob" 1000);
     (3, mkDbUser "c@x" "carol" 1000); (4, mkDbUser "d@x" "dave" 1000);
     (5, mkDbUser "e@x" "erin" 1000); (6, mkDbUser "f@x" "frank" 1000);
     (7, mkDbUser "g@x" "grace" 1000); (8, mkDbUser "h@x" "heidi" 1000);
     (9, mkDbUser "i@x" "ivan" 1000)].

Definition full_server : State :=
  run (initial nine_accounts)
    [EvLogin "s1" 1 "a@x"; EvLogin "s2" 2 "b@x"; EvLogin "s3" 3 "c@x";
     EvLogin "s4" 4 "d@x"; EvLogin "s5" 5 "e@x"; EvLogin "s6" 6 "f@x";
     EvLogin "s7" 7 "g@x"; EvLogin "s8" 8 "h@x"].

(* The room [disconnect] makes of a room that had [sock] among its players
   and keeps: without [sock], and waiting. *)
Definition without_player (sock : string) (room : Room) : Room :=
  set_status (set_players room (filter (λ id, id ≠ sock) (r_players room)))
    waiting.

(* How the room [room'] that [disconnect] of [sock] leaves under a key comes
   from the room [room] that was there: untouched when [sock] was not a
   player, else stripped of [sock], which leaves somebody. *)
Definition after_leave (sock : string) (room room' : Room) : Prop :=
  ((sock ∉ r_players room) ∧ room' = room) ∨
  ((sock ∈ r_players room) ∧ room' = without_player sock room ∧
   r_players room' ≠ []).

(* Where a room found under [k] after a handler other than [disconnect]
   comes from: it was there already, or [create_room] made it, or
   [join_room] added a player to it, or [rps_choice] recorded a move in it
   (and possibly settled the round). *)
Definition room_after (s : State) (ev : Event) (k : string) (room' : Room)
    : Prop :=
  JsMap.get (rooms s) k = Some room' ∨
  (∃ sock gameType,
     ev = EvCreateRoom sock gameType k ∧
     is_Some (JsMap.get (onlineUsers s) sock) ∧
     room' = mkRoom k gameType sock [sock] waiting (bet_of gameType) None) ∨
  (∃ sock room,
     ev = EvJoinRoom sock k ∧
     is_Some (JsMap.get (onlineUsers s) sock) ∧
     JsMap.get (rooms s) k = Some room ∧
     r_status room = waiting ∧ (length (r_players room) < 2)%nat ∧
     r_players room' = r_players room ++ [sock] ∧
     r_id room' = r_id room ∧
     r_status room' =
       if bool_decide (length (r_players room) = 1%nat) then playing
       else waiting) ∨
  (∃ sock choice room,
     ev = EvRpsChoice sock k choice ∧
     JsMap.get (rooms s) k = Some room ∧
     (sock ∈ r_players room) ∧
     r_players room' = r_players room ∧ r_id room' = r_id room ∧
     (r_status room' = r_status room ∨
      (is_Some (r_players room !! 1%nat) ∧ r_status room' ≠ waiting))).

(* Somebody other than [sock] plays in [room]. *)
Definition has_other_player (sock : string) (room : Room) : Prop :=
  ∃ p, p ∈ r_players room ∧ p ≠ sock.

(* The two messages that refuse a request. *)
Definition is_refusal (m : Message) : Prop :=
  match m with
  | error _ | login_error _ => True
  | _ => False
  end.


(* The moves recorded in a room; none before the first one. *)
Definition recorded_moves (room : Room) : gmap string RPSChoice :=
  default ∅ (r_gameData room).

(* [sock] is one of the two players of [room], and the other one has no move
   on record. *)
Definition awaits_opponent (room : Room) (sock : string) : Prop :=
  ∃ p1 p2,
    r_players room = [p1; p2] ∧ p1 ≠ p2 ∧
    ((sock = p1 ∧ recorded_moves room !! p2 = None) ∨
     (sock = p2 ∧ recorded_moves room !! p1 = None)).

(* The state in which [room], stored under [roomId], has [choice] on record
   for [sock]. *)
Definition with_move (s : State) (roomId : string) (room : Room)
    (sock : string) (choice : RPSChoice) : State :=
  set_rooms s
    (JsMap.set (rooms s) roomId
       (set_gameData room (Some (<[sock := choice]> (recorded_moves room))))).

(* Alice's socket logs in a second time, for Bob's account, then
   disconnects. *)
Definition relogin_then_gone : State :=
  run alice_online [EvLogin "s1" 2 "b@x"; EvDisconnect "s1"].

(* Every [login] of the run carries the e-mail of the row of its user id, in
   the state it arrives in. *)
Fixpoint consistent_run (s : State) (evs : list Event) : Prop :=
  match evs with
  | [] => True
  | ev :: evs => consistent_login s ev ∧ consistent_run (handle s ev).1 evs
  end.

(** * The accounts: db.ts with the password column, the HTTP API and the
      login screen

    The socket handlers see the [users] table through [getUserById],
    [getUserPoints] and [updateUserPoints] only, which is what [DbUser]
    holds.  Registration and authentication also use the column
    [password_hash].  [bcrypt] is a parameter: [hashSync salt password] is
    the hash [bcrypt.hashSync(password, 10)] returns when it draws [salt],
    and [compareSync password hash] is [bcrypt.compareSync].  The [catch]
    branches (a failing database or [bcrypt] call) are not modelled. *)

Module Accounts.

Record Account := mkAccount {
  a_email : string;
  a_password_hash : string;
  a_username : string;
  a_points : Z
}.

(* The columns the socket handlers read. *)
Definition row_of (a : Account) : DbUser :=
  mkDbUser (a_email a) (a_username a) (a_points a).

Definition ledger_of (t : gmap Z Account) : gmap Z DbUser := row_of <$> t.

Inductive RegisterFailure :=
  | EmailRegistered      (* このメールアドレスは既に登録されています *)
  | UsernameInUse.       (* このユーザー名は既に使用されています *)

Inductive AuthFailure :=
  | BadCredentials.      (* メールアドレスまたはパスワードが正しくありません *)

(* SELECT ... FROM users WHERE email = ?, [.get(email)]: the first row the
   query yields.  [email] is UNIQUE, so in a table of the database at most
   one row matches. *)
Definition find_by_email (t : gmap Z Account) (email : string)
    : option (Z * Account) :=
  head (filter (λ kv, a_email kv.2 = email) (map_to_list t)).

(* UPDATE users SET points = ? WHERE id = ? *)
Definition updateUserPoints (t : gmap Z Account) (userId newPoints : Z)
    : gmap Z Account :=
  alter (λ a, mkAccount (a_email a) (a_password_hash a) (a_username a) newPoints)
    userId t.

Section bcrypt.

Variable hashSync : string → string → string.
Variable compareSync : string → string → bool.

Definition registerUser (t : gmap Z Account)
    (salt email password username : string)
    : gmap Z Account * (RegisterFailure + Z) :=
  if bool_decide (map_Exists (λ _ a, a_email a = email) t) then
    (t, inl EmailRegistered)
  else if bool_decide (map_Exists (λ _ a, a_username a = username) t) then
    (t, inl UsernameInUse)
  else
    let passwordHash := hashSync salt password in
    let userId := next_rowid (ledger_of t) in
    (<[userId := mkAccount email passwordHash username 1000]> t, inr userId).

Definition authenticateUser (t : gmap Z Account) (email password : string)
    : AuthFailure + UserInfo :=
  match find_by_email t email with
  | None => inl BadCredentials
  | Some (userId, user) =>
    if compareSync password (a_password_hash user) then
      inr (mkUserInfo userId (a_email user) (a_username user) (a_points user))
    else inl BadCredentials
  end.

(** ** The HTTP API

    A field of the request body is a string or is absent. *)

(* [!field] *)
Definition missing (field : option string) : bool :=
  match field with
  | Some v => bool_decide (v = EmptyString)
  | None => true
  end.

(* [process.env.ADMIN_PASSWORD || "admin-secret-2025"] *)
Definition ADMIN_PASSWORD (env : option string) : string :=
  match env with
  | Some v => if bool_decide (v = EmptyString) then "admin-secret-2025"%string else v
  | None => "admin-secret-2025"%string
  end.

Record RegisterBody := mkRegisterBody {
  rb_email : option string;
  rb_password : option string;
  rb_username : option string;
  rb_adminPassword : option string
}.

Record LoginBody := mkLoginBody {
  lb_email : option string;
  lb_password : option string
}.

Inductive ReplyMessage :=
  | AdminOnly            (* ユーザー登録は運営のみが行えます *)
  | FieldsMissing        (* すべての項目を入力してください *)
  | RegisterRefused (why : RegisterFailure)
  | Registered           (* ユーザー登録が完了しました *)
  | CredentialsMissing   (* メールアドレスとパスワードを入力してください *)
  | LoginRefused (why : AuthFailure)
  | LoggedIn.            (* ログインに成功しました *)

(* The status line and the JSON body of a response. *)
Record Reply := mkReply {
  status : Z;
  success : bool;
  message : ReplyMessage;
  userId : option Z;
  user : option UserInfo
}.

(* app.post("/api/register", ...); [env] is [process.env.ADMIN_PASSWORD]. *)
Definition api_register (env : option string) (t : gmap Z Account)
    (salt : string) (body : RegisterBody) : gmap Z Account * Reply :=
  if missing (rb_adminPassword body)
     || bool_decide (rb_adminPassword body ≠ Some (ADMIN_PASSWORD env)) then
    (t, mkReply 403 false AdminOnly None None)
  else if missing (rb_email body) || missing (rb_password body)
          || missing (rb_username body) then
    (t, mkReply 400 false FieldsMissing None None)
  else
    match
      registerUser t salt (default EmptyString (rb_email body))
        (default EmptyString (rb_password body))
        (default EmptyString (rb_username body))
    with
    | (t', inr newId) => (t', mkReply 200 true Registered (Some newId) None)
    | (t', inl why) => (t', mkReply 400 false (RegisterRefused why) None None)
    end.

(* app.post("/api/login", ...); its [catch], which answers 500, is for
   exceptions, which the model does not have. *)
Definition api_login (t : gmap Z Account) (body : LoginBody) : Reply :=
  if missing (lb_email body) || missing (lb_password body) then
    mkReply 400 false CredentialsMissing None None
  else
    match
      authenticateUser t (default EmptyString (lb_email body))
        (default EmptyString (lb_password body))
    with
    | inr found => mkReply 200 true LoggedIn None (Some found)
    | inl why => mkReply 401 false (LoginRefused why) None None
    end.

(** ** The admin script

    [npm run admin:add-user <email> <password> <username>]; [args] is
    [process.argv.slice(2)]. *)




End bcrypt.

(** ** The login screen

    [handleSubmit] of [LoginScreen]: what the client emits on its new socket
    [sock] once the response of [/api/login] is there. *)

(* [response.ok] *)
Definition ok (r : Reply) : bool :=
  bool_decide (200 ≤ status r) && bool_decide (status r ≤ 299).

Definition handleSubmit (sock : string) (r : Reply) : option Event :=
  if negb (ok r) then None
  else
    match success r, user r with
    | true, Some found => Some (EvLogin sock (i_id found) (i_email found))
    | _, _ => None
    end.

(** ** Tables the code has built *)

(* The tables that [registerUser] and [updateUserPoints] make of the empty
   one. *)
Inductive built (hashSync : string → string → string)
    : gmap Z Account → Prop :=
  | built_empty : built hashSync ∅
  | built_register t salt email password username :
      built hashSync t →
      built hashSync (registerUser hashSync t salt email password username).1
  | built_update t userId newPoints :
      built hashSync t → built hashSync (updateUserPoints t userId newPoints).

(* No two rows share the e-mail, nor the user name. *)
Definition unique_by (f : Account → string) (t : gmap Z Account) : Prop :=
  ∀ i j a b, t !! i = Some a → t !! j = Some b → f a = f b → i = j.

(* bcrypt for the examples: the hash is the password followed by the salt,
   and a password matches the hashes it is a prefix of. *)
Definition toy_hash (salt password : string) : string :=
  (password +:+ salt)%string.

Definition toy_compare (password hash : string) : bool :=
  String.prefix password hash.

(* One account, registered through the API with the default admin
   password. *)
Definition carol_body : RegisterBody :=
  mkRegisterBody (Some "c@x"%string) (Some "pw"%string) (Some "carol"%string)
    (Some "admin-secret-2025"%string).

Definition one_account : gmap Z Account :=
  (api_register toy_hash None ∅ "na" carol_body).1.

End Accounts.

(** * The memory-only server, all handlers

    [MemoryOnly] has [login], [create_room] and [transfer_points] of the
    variant that keeps the balances in memory.  Here are its [join_room],
    [rps_choice] and [disconnect], and the server made of the six.  The
    resolver [calculateRPSResult] is a parameter: this variant calls it
    without checking that both players exist, so its two ids are what
    [room.players[0]] and [room.players[1]] are, possibly [undefined]. *)

Module MemoryServer.

Inductive SMessage :=
  | s_game_started (room : Room)
  | s_room_joined (room : Room)
  | s_player_joined_room (room : Room) (newPlayer : MemoryOnly.User)
  | s_game_result (roomId : string) (result : GameResult)
      (choices : gmap string RPSChoice) (updatedUsers : list MemoryOnly.User)
  | s_game_continue (room : Room)
  | s_choice_received
  | s_user_left (username : string)
  | s_online_users_updated (online : list MemoryOnly.User)
  | s_room_list_updated (availableRooms : list Room)
  | s_error (reason : ErrorReason).

Inductive SEffect :=
  | SEmit (to : Target) (m : SMessage)
  | SJoin (sock channel : string)                (* socket.join(channel) *)
  | Earlier (e : MemoryOnly.MEffect)             (* of the three earlier handlers *)
  | Notice (e : Effect).                         (* player_left_room, of the loop *)

Definition set_users (s : MemoryOnly.MState) (us : jsmap MemoryOnly.User)
    : MemoryOnly.MState :=
  MemoryOnly.mkMState us (MemoryOnly.m_rooms s) (MemoryOnly.usernameToSocketId s).

Definition set_m_rooms (s : MemoryOnly.MState) (rs : jsmap Room)
    : MemoryOnly.MState :=
  MemoryOnly.mkMState (MemoryOnly.users s) rs (MemoryOnly.usernameToSocketId s).

Definition join_room (s : MemoryOnly.MState) (sock roomId : string)
    : MemoryOnly.MState * list SEffect :=
  match JsMap.get (MemoryOnly.users s) sock with
  | None => (s, [SEmit (ToSocket sock) (s_error LoginRequired)])
  | Some user =>
    match JsMap.get (MemoryOnly.m_rooms s) roomId with
    | None => (s, [SEmit (ToSocket sock) (s_error RoomNotFound)])
    | Some room =>
      if bool_decide (2 ≤ length (r_players room))%nat then
        (s, [SEmit (ToSocket sock) (s_error RoomFull)])
      else if bool_decide (r_status room ≠ waiting) then
        (s, [SEmit (ToSocket sock) (s_error NotJoinable)])
      else if bool_decide (MemoryOnly.m_points user < r_betAmount room) then
        (s, [SEmit (ToSocket sock)
               (s_error (InsufficientFunds (Some (r_betAmount room))))])
      else
        let room1 := set_players room (r_players room ++ [sock]) in
        if bool_decide (length (r_players room1) = 2%nat) then
          let room2 := set_status room1 playing in
          let s2 := set_m_rooms s (JsMap.set (MemoryOnly.m_rooms s) roomId room2) in
          (s2,
           [SJoin sock (r_id room2);
            SEmit (IoTo (r_id room2)) (s_game_started room2);
            SEmit (Broadcast sock)
              (s_room_list_updated (MemoryOnly.getAvailableRooms s2))])
        else
          let s2 := set_m_rooms s (JsMap.set (MemoryOnly.m_rooms s) roomId room1) in
          (s2,
           [SJoin sock (r_id room1);
            SEmit (ToSocket sock) (s_room_joined room1);
            SEmit (BroadcastTo sock (r_id room1))
              (s_player_joined_room room1 user);
            SEmit (Broadcast sock)
              (s_room_list_updated (MemoryOnly.getAvailableRooms s2))])
    end
  end.

(* One turn of the loop over [Object.entries(gameResult.pointsChange)]:
   [player.points += change] when the key is a session. *)
Definition credit_entry (us : jsmap MemoryOnly.User) (entry : string * Z)
    : jsmap MemoryOnly.User :=
  match JsMap.get us entry.1 with
  | Some player =>
      JsMap.set us entry.1
        (MemoryOnly.set_m_points player (MemoryOnly.m_points player + entry.2))
  | None => us
  end.

Section resolver.

Variable calculateRPSResult :
  option string → RPSChoice → option string → RPSChoice → Z → GameResult.

Definition rps_choice (s : MemoryOnly.MState) (sock roomId : string)
    (choice : RPSChoice) : MemoryOnly.MState * list SEffect :=
  match JsMap.get (MemoryOnly.m_rooms s) roomId with
  | None => (s, [SEmit (ToSocket sock) (s_error InvalidRoom)])
  | Some room =>
    if bool_decide (r_gameType room ≠ "rps"%string) then
      (s, [SEmit (ToSocket sock) (s_error InvalidRoom)])
    else if negb (bool_decide (sock ∈ r_players room)) then
      (s, [SEmit (ToSocket sock) (s_error NotAMember)])
    else
      let gameData := <[sock := choice]> (default ∅ (r_gameData room)) in
      let room1 := set_gameData room (Some gameData) in
      let s1 := set_m_rooms s (JsMap.set (MemoryOnly.m_rooms s) roomId room1) in
      let player1Id := r_players room1 !! 0%nat in
      let player2Id := r_players room1 !! 1%nat in
      match gameData !! property_key player1Id,
            gameData !! property_key player2Id with
      | Some player1Choice, Some player2Choice =>
        let gameResult :=
          calculateRPSResult player1Id player1Choice player2Id player2Choice
            (r_betAmount room1) in
        let us := foldl credit_entry (MemoryOnly.users s1)
                    (pointsChange gameResult) in
        let s2 := set_users s1 us in
        let result :=
          SEmit (IoTo (r_id room1))
            (s_game_result (r_id room1) gameResult
               (<[property_key player2Id := player2Choice]>
                  {[property_key player1Id := player1Choice]})
               (* [[users.get(player1Id), users.get(player2Id)].filter(Boolean)] *)
               (omap (λ p, p ≫= JsMap.get us) [player1Id; player2Id])) in
        if isDraw gameResult then
          let room2 := set_status (set_gameData room1 (Some ∅)) playing in
          (set_m_rooms s2 (JsMap.set (MemoryOnly.m_rooms s2) roomId room2),
           [result; SEmit (IoTo (r_id room2)) (s_game_continue room2)])
        else
          let room2 := set_status room1 finished in
          (set_m_rooms s2 (JsMap.set (MemoryOnly.m_rooms s2) roomId room2),
           [result])
      | _, _ => (s1, [SEmit (ToSocket sock) s_choice_received])
      end
  end.

Definition disconnect (s : MemoryOnly.MState) (sock : string)
    : MemoryOnly.MState * list SEffect :=
  match JsMap.get (MemoryOnly.users s) sock with
  | None => (s, [])
  | Some user =>
    let us := JsMap.delete (MemoryOnly.users s) sock in
    let idx := delete (MemoryOnly.m_username user) (MemoryOnly.usernameToSocketId s) in
    let '(rs, notices) :=
      leave_rooms sock (MemoryOnly.m_username user) (MemoryOnly.m_rooms s) in
    let s' := MemoryOnly.mkMState us rs idx in
    (s',
     (Notice <$> notices) ++
     [SEmit (Broadcast sock) (s_user_left (MemoryOnly.m_username user));
      SEmit (Broadcast sock)
        (s_online_users_updated (MemoryOnly.getOnlineUsers s'));
      SEmit (Broadcast sock)
        (s_room_list_updated (MemoryOnly.getAvailableRooms s'))])
  end.

Inductive SEvent :=
  | SLogin (sock username password : string)
  | SCreateRoom (sock gameType newId : string)
  | SJoinRoom (sock roomId : string)
  | SRpsChoice (sock roomId : string) (choice : RPSChoice)
  | STransferPoints (sock targetUsername : string) (amount : Z)
  | SDisconnect (sock : string).

Definition earlier (r : MemoryOnly.MState * list MemoryOnly.MEffect)
    : MemoryOnly.MState * list SEffect :=
  (r.1, Earlier <$> r.2).

Definition handle (s : MemoryOnly.MState) (ev : SEvent)
    : MemoryOnly.MState * list SEffect :=
  match ev with
  | SLogin sock username password =>
      earlier (MemoryOnly.login s sock username password)
  | SCreateRoom sock gameType newId =>
      earlier (MemoryOnly.create_room s sock gameType newId)
  | SJoinRoom sock roomId => join_room s sock roomId
  | SRpsChoice sock roomId choice => rps_choice s sock roomId choice
  | STransferPoints sock targetUsername amount =>
      earlier (MemoryOnly.transfer_points s sock targetUsername amount)
  | SDisconnect sock => disconnect s sock
  end.

Definition run (s : MemoryOnly.MState) (evs : list SEvent) : MemoryOnly.MState :=
  foldl (λ st ev, (handle st ev).1) s evs.

Inductive reachable : MemoryOnly.MState → Prop :=
  | reachable_initial : reachable MemoryOnly.m_initial
  | reachable_step s ev : reachable s → reachable (handle s ev).1.

End resolver.


(* Every session is indexed under its user name. *)
Definition names_indexed (s : MemoryOnly.MState) : Prop :=
  ∀ sock u,
    JsMap.get (MemoryOnly.users s) sock = Some u →
    MemoryOnly.usernameToSocketId s !! MemoryOnly.m_username u = Some sock.

(* A resolver for the examples: the first player always wins the stake. *)
Definition first_wins (p1 : option string) (c1 : RPSChoice)
    (p2 : option string) (c2 : RPSChoice) (bet : Z) : GameResult :=
  mkGameResult p1 p2 false
    [(property_key p1, bet); (property_key p2, - bet)].

Definition two_friends : MemoryOnly.MState :=
  run first_wins MemoryOnly.m_initial
    [SLogin "s1" "alice" "only-friends-2025";
     SLogin "s2" "bob" "only-friends-2025";
     SCreateRoom "s1" "rps" "r1"; SJoinRoom "s2" "r1"].

End MemoryServer.

(* [d'] has every row of [d], each with its e-mail and user name. *)
Definition rows_permanent (d d' : gmap Z DbUser) : Prop :=
  ∀ k row,
    d !! k = Some row →
    ∃ row', d' !! k = Some row' ∧
            d_email row' = d_email row ∧ d_username row' = d_username row.

(* The handlers that write balances. *)
Definition writes_balances (ev : Event) : Prop :=
  match ev with
  | EvRpsChoice _ _ _ | EvTransferPoints _ _ _ => True
  | _ => False
  end.

(** * The loop of [disconnect], entry by entry *)

(* What the loop makes of one entry of [rooms]: a room without [sock] stays;
   a room whose only players were [sock] goes; any other room loses [sock]
   and waits. *)
Definition leave_entry (sock : string) (kv : string * Room)
    : option (string * Room) :=
  if bool_decide (sock ∈ r_players kv.2) then
    if bool_decide (filter (λ id, id ≠ sock) (r_players kv.2) = []) then None
    else Some (kv.1, without_player sock kv.2)
  else Some kv.

(* The notice the loop sends for one entry: to the room, for the players
   that stay, with the room as it is before it is set to waiting. *)
Definition leave_notice (sock username : string) (kv : string * Room)
    : option Effect :=
  if bool_decide (sock ∈ r_players kv.2) then
    if bool_decide (filter (λ id, id ≠ sock) (r_players kv.2) = []) then None
    else
      let room1 :=
        set_players kv.2 (filter (λ id, id ≠ sock) (r_players kv.2)) in
      Some (Emit (IoTo (r_id room1)) (player_left_room room1 username))
  else None.

(** * When a transfer is accepted *)

(* The sender is logged in, the amount is positive and covered by the
   sender's ledger balance, and the e-mail is indexed to a socket (with a
   non-empty id) that has a session. *)
Definition transfer_accepted (s : State) (sock targetEmail : string)
    (amount : Z) (target : string) : Prop :=
  ∃ sender,
    JsMap.get (onlineUsers s) sock = Some sender ∧
    0 < amount ∧
    amount ≤ getUserPoints (db s) (u_userId sender) ∧
    emailToSocketId s !! targetEmail = Some target ∧
    target ≠ EmptyString ∧
    is_Some (JsMap.get (onlineUsers s) target).

Definition transfer_refusals : list ErrorReason :=
  [LoginRequired; InvalidAmount; InsufficientFunds None; TargetNotFound;
   TargetOffline].
(** * Facts about the model *)

(** ** [JsMap] *)

Section JsMapFacts.
Context {V : Type}.
Implicit Types (m : jsmap V) (k : string) (v : V).

Lemma jsmap_get_set_eq m k v : JsMap.get (JsMap.set m k v) k = Some v.
Proof.
  induction m as [|[k' v'] m IH]; simpl.
  - by rewrite decide_True.
  - destruct (decide (k' = k)) as [->|Hne]; simpl.
    + by rewrite decide_True.
    + by rewrite decide_False.
Qed.

Lemma jsmap_get_set_ne m k k' v : k ≠ k' → JsMap.get (JsMap.set m k v) k' = JsMap.get m k'.
Proof.
  intros Hne. induction m as [|[k0 v0] m IH]; simpl.
  - by rewrite decide_False.
  - destruct (decide (k0 = k)) as [->|Hk]; simpl.
    + by rewrite !decide_False.
    + destruct (decide (k0 = k')); [done | apply IH].
Qed.

Lemma jsmap_get_set m k k' v :
  JsMap.get (JsMap.set m k v) k' = if decide (k = k') then Some v else JsMap.get m k'.
Proof.
  destruct (decide (k = k')) as [->|Hne].
  - apply jsmap_get_set_eq.
  - by apply jsmap_get_set_ne.
Qed.

Lemma jsmap_get_delete_eq m k : JsMap.get (JsMap.delete m k) k = None.
Proof.
  induction m as [|[k' v'] m IH]; simpl; [done|].
  destruct (decide (k' = k)) as [->|Hne]; simpl; [done|].
  by rewrite decide_False.
Qed.

Lemma jsmap_get_delete_ne m k k' : k ≠ k' → JsMap.get (JsMap.delete m k) k' = JsMap.get m k'.
Proof.
  intros Hne. induction m as [|[k0 v0] m IH]; simpl; [done|].
  destruct (decide (k0 = k)) as [->|Hk]; simpl.
  - by rewrite decide_False.
  - destruct (decide (k0 = k')); [done | apply IH].
Qed.

Lemma jsmap_get_delete m k k' :
  JsMap.get (JsMap.delete m k) k' = if decide (k = k') then None else JsMap.get m k'.
Proof.
  destruct (decide (k = k')) as [->|Hne].
  - apply jsmap_get_delete_eq.
  - by apply jsmap_get_delete_ne.
Qed.

Lemma jsmap_delete_absent m k : JsMap.get m k = None → JsMap.delete m k = m.
Proof.
  induction m as [|[k' v'] m IH]; simpl; [done|].
  destruct (decide (k' = k)); [done|]. intros H. by rewrite IH.
Qed.

Lemma jsmap_get_Some_elem_of m k v : JsMap.get m k = Some v → (k, v) ∈ m.
Proof.
  induction m as [|[k' v'] m IH]; simpl; [done|].
  destruct (decide (k' = k)) as [->|Hne].
  - intros [= ->]. left.
  - intros H. right. by apply IH.
Qed.

Lemma jsmap_get_Some_key m k v : JsMap.get m k = Some v → k ∈ JsMap.keys m.
Proof.
  intros H. apply jsmap_get_Some_elem_of in H.
  unfold JsMap.keys. apply list_elem_of_fmap. by exists (k, v).
Qed.

Lemma jsmap_get_None_key m k : JsMap.get m k = None → k ∉ JsMap.keys m.
Proof.
  unfold JsMap.keys. induction m as [|[k' v'] m IH]; simpl.
  - intros _ H. by apply elem_of_nil in H.
  - destruct (decide (k' = k)) as [->|Hne]; [done|].
    intros H Hin. apply elem_of_cons in Hin as [->|Hin]; [done|]. by apply IH.
Qed.

End JsMapFacts.

(** [set] and [delete] keep a property that holds of every stored value. *)

Lemma all_values_set {V : Type} (P : V → Prop) (m : jsmap V) k v :
  all_values P m → P v → all_values P (JsMap.set m k v).
Proof.
  unfold all_values. intros Hm Hv.
  induction Hm as [|[k' v'] m Hkv Hm IH]; simpl.
  - by constructor.
  - destruct (decide (k' = k)); constructor; auto.
Qed.

Lemma all_values_delete {V : Type} (P : V → Prop) (m : jsmap V) k :
  all_values P m → all_values P (JsMap.delete m k).
Proof.
  unfold all_values. intros Hm.
  induction Hm as [|[k' v'] m Hkv Hm IH]; simpl; [constructor|].
  destruct (decide (k' = k)); [done | by constructor].
Qed.

Lemma all_values_get {V : Type} (P : V → Prop) (m : jsmap V) k v :
  all_values P m → JsMap.get m k = Some v → P v.
Proof.
  unfold all_values. intros Hm Hget.
  apply jsmap_get_Some_elem_of in Hget.
  rewrite Forall_forall in Hm. apply (Hm (k, v) Hget).
Qed.

(** ** The refresh *)

#[local] Arguments refresh_points : simpl never.
#[local] Arguments complete_transfer : simpl never.

Lemma refresh_points_rooms s key user :
  rooms (refresh_points s key user) = rooms s.
Proof. unfold refresh_points. by case_bool_decide. Qed.

Lemma refresh_points_db s key user :
  db (refresh_points s key user) = db s.
Proof. unfold refresh_points. by case_bool_decide. Qed.

Lemma refresh_points_index s key user :
  emailToSocketId (refresh_points s key user) = emailToSocketId s.
Proof. unfold refresh_points. by case_bool_decide. Qed.

(* After the refresh the object under [key] carries the ledger's balance. *)
Lemma refresh_points_get s key user :
  JsMap.get (onlineUsers s) key = Some user →
  JsMap.get (onlineUsers (refresh_points s key user)) key
  = Some (set_points user (getUserPoints (db s) (u_userId user))).
Proof.
  intros Hget. unfold refresh_points. case_bool_decide as Hne; simpl.
  - unfold assign_points. rewrite Hget. apply jsmap_get_set_eq.
  - rewrite Hget, Hne. by destruct user.
Qed.

Lemma refresh_points_get_ne s key user key' :
  key ≠ key' →
  JsMap.get (onlineUsers (refresh_points s key user)) key'
  = JsMap.get (onlineUsers s) key'.
Proof.
  intros Hne. unfold refresh_points. case_bool_decide; simpl; [|done].
  unfold assign_points. case_match; [|done]. by apply jsmap_get_set_ne.
Qed.

Lemma complete_transfer_rooms s1 sock targetSocketId sender1 target0 amount :
  rooms (complete_transfer s1 sock targetSocketId sender1 target0 amount).1
  = rooms s1.
Proof. unfold complete_transfer. cbn [fst rooms]. apply refresh_points_rooms. Qed.

Lemma complete_transfer_index s1 sock targetSocketId sender1 target0 amount :
  emailToSocketId
    (complete_transfer s1 sock targetSocketId sender1 target0 amount).1
  = emailToSocketId s1.
Proof.
  unfold complete_transfer. cbn [fst emailToSocketId].
  apply refresh_points_index.
Qed.

(** * The game resolver *)

Lemma pointsChange_lookup p1 p2 (d1 d2 : Z) :
  p1 ≠ p2 →
  JsMap.get (JsMap.set (JsMap.set [] p1 d1) p2 d2) p1 = Some d1 ∧
  JsMap.get (JsMap.set (JsMap.set [] p1 d1) p2 d2) p2 = Some d2.
Proof.
  intros Hne. split.
  - rewrite jsmap_get_set_ne by done. apply jsmap_get_set_eq.
  - apply jsmap_get_set_eq.
Qed.

(** C7. For every pair of moves and every stake the outcome of
    [calculateRPSResult] for two distinct players is zero-sum: both players
    have a delta and the two deltas add up to 0; equal moves are a draw with
    both deltas 0 and no winner; different moves are not a draw, and there
    is a winner with delta [+stake] and a loser with delta [-stake], who are
    the two players (player 1 wins exactly when its move beats the other). *)
Theorem resolver_zero_sum (p1 p2 : string) (a b : RPSChoice) (stake : Z) :
  p1 ≠ p2 →
  let r := calculateRPSResult p1 a p2 b stake in
  ∃ d1 d2,
    JsMap.get (pointsChange r) p1 = Some d1 ∧
    JsMap.get (pointsChange r) p2 = Some d2 ∧
    d1 + d2 = 0 ∧
    (a = b →
       isDraw r = true ∧ winnerId r = None ∧ loserId r = None ∧
       d1 = 0 ∧ d2 = 0) ∧
    (a ≠ b →
       isDraw r = false ∧
       ∃ w l,
         winnerId r = Some w ∧ loserId r = Some l ∧
         JsMap.get (pointsChange r) w = Some stake ∧
         JsMap.get (pointsChange r) l = Some (- stake) ∧
         ((beats a b = true ∧ w = p1 ∧ l = p2) ∨
          (beats b a = true ∧ w = p2 ∧ l = p1))).
Proof.
  intros Hne r. subst r. unfold calculateRPSResult.
  destruct (decide (a = b)) as [Heq|Hab]; simpl.
  - destruct (pointsChange_lookup p1 p2 0 0 Hne) as [H1 H2].
    exists 0, 0. split_and!; try done.
  - destruct (beats a b) eqn:Hbeats; simpl.
    + destruct (pointsChange_lookup p1 p2 stake (- stake) Hne) as [H1 H2].
      exists stake, (- stake). split_and!; try done; try lia.
      intros _. split; [done|]. exists p1, p2. split_and!; try done.
      by left.
    + destruct (pointsChange_lookup p1 p2 (- stake) stake Hne) as [H1 H2].
      exists (- stake), stake. split_and!; try done; try lia.
      intros _. split; [done|]. exists p2, p1. split_and!; try done.
      right. by destruct a, b.
Qed.

Lemma resolver_zero_sum_witness :
  "s1"%string ≠ "s2"%string ∧
  ∃ d1 d2,
    JsMap.get (pointsChange (calculateRPSResult "s1" rock "s2" scissors 100))
      "s1" = Some d1 ∧
    JsMap.get (pointsChange (calculateRPSResult "s1" rock "s2" scissors 100))
      "s2" = Some d2 ∧
    d1 + d2 = 0.
Proof.
  split; [done|].
  destruct (resolver_zero_sum "s1" "s2" rock scissors 100 ltac:(done))
    as (d1 & d2 & H1 & H2 & Hsum & _).
  by exists d1, d2.
Defined.

(** * create_room *)

(** C3. [create_room] by a logged-in connection whose refreshed balance
    (the ledger's value for its account) is below the stake of the game type
    is rejected with [InsufficientFunds] sent to the requester only, and no
    room is created: the room map, the ledger and the e-mail index are those
    of the state before.  The stake is 100 points for ["rps"]. *)
Theorem create_room_insufficient_funds s sock gameType newId user :
  JsMap.get (onlineUsers s) sock = Some user →
  getUserPoints (db s) (u_userId user) < bet_of gameType →
  bet_of "rps" = 100 ∧
  ∃ s',
    create_room s sock gameType newId
    = (s', [Emit (ToSocket sock)
              (error (InsufficientFunds (Some (bet_of gameType))))]) ∧
    rooms s' = rooms s ∧ db s' = db s ∧
    emailToSocketId s' = emailToSocketId s.
Proof.
  intros Hget Hlow. split; [done|].
  exists (refresh_points s sock user).
  rewrite refresh_points_rooms, refresh_points_db, refresh_points_index.
  split; [|done].
  unfold create_room. rewrite Hget; simpl.
  rewrite (refresh_points_get _ _ _ Hget); simpl.
  by rewrite bool_decide_true.
Qed.

Lemma create_room_insufficient_funds_witness :
  JsMap.get (onlineUsers poor_online) "s1"
  = Some (mkOnlineUser "s1" 1 "a@x" "alice" 50) ∧
  getUserPoints (db poor_online) 1 < bet_of "rps" ∧
  ∃ s',
    create_room poor_online "s1" "rps" "r1"
    = (s', [Emit (ToSocket "s1") (error (InsufficientFunds (Some 100)))]) ∧
    rooms s' = [].
Proof.
  assert (Hget : JsMap.get (onlineUsers poor_online) "s1"
                 = Some (mkOnlineUser "s1" 1 "a@x" "alice" 50))
    by (vm_compute; reflexivity).
  assert (Hlow : getUserPoints (db poor_online) 1 < bet_of "rps")
    by (vm_compute; reflexivity).
  split; [exact Hget|]. split; [exact Hlow|].
  destruct (create_room_insufficient_funds poor_online "s1" "rps" "r1" _
              Hget Hlow) as (_ & s' & Hrun & Hrooms & _).
  exists s'. split; [exact Hrun | exact Hrooms].
Defined.

(** * disconnect *)

(** C10. The disconnect path is idempotent: run a second time for the same
    connection it changes nothing (sessions, rooms, e-mail index and ledger
    are as the first call left them) and emits nothing. *)
Theorem disconnect_idempotent s sock :
  disconnect (disconnect s sock).1 sock = ((disconnect s sock).1, []).
Proof.
  unfold disconnect at 2 3.
  destruct (JsMap.get (onlineUsers s) sock) as [user|] eqn:Hget.
  - destruct (leave_rooms sock (u_username user) (rooms s)) as [rs notices].
    simpl. unfold disconnect; simpl. by rewrite jsmap_get_delete_eq.
  - simpl. unfold disconnect. by rewrite Hget.
Qed.

(** * Room capacity *)

Lemma leave_room_at_most_two sock username acc key :
  all_values at_most_two acc.1 →
  all_values at_most_two (leave_room sock username acc key).1.
Proof.
  destruct acc as [rs out]; simpl. intros Hrs.
  destruct (JsMap.get rs key) as [room|] eqn:Hget; [|done].
  assert (Hroom : at_most_two room) by (by eapply all_values_get).
  assert (Hshorter :
    (length (filter (λ id, id ≠ sock) (r_players room)) ≤ 2)%nat).
  { etrans; [apply length_filter | exact Hroom]. }
  case_bool_decide; [|done].
  case_bool_decide; simpl.
  - apply all_values_delete, all_values_set; done.
  - apply all_values_set; done.
Qed.

Lemma leave_rooms_at_most_two sock username rs :
  all_values at_most_two rs →
  all_values at_most_two (leave_rooms sock username rs).1.
Proof.
  unfold leave_rooms. generalize (JsMap.keys rs).
  intros ks. generalize (@nil Effect). revert rs.
  induction ks as [|k ks IH]; intros rs out Hrs; cbn [foldl]; [done|].
  pose proof (leave_room_at_most_two sock username (rs, out) k Hrs) as Hstep.
  destruct (leave_room sock username (rs, out) k) as [rs' out'].
  by apply IH.
Qed.

Lemma resolve_round_at_most_two s1 sock roomId room1 p1 p2 c1 c2 :
  at_most_two room1 →
  all_values at_most_two (rooms s1) →
  all_values at_most_two
    (rooms (resolve_round s1 sock roomId room1 p1 p2 c1 c2).1).
Proof.
  intros Hroom Hrs. unfold resolve_round.
  repeat case_match; simpl; try done; by apply all_values_set.
Qed.

Lemma handle_at_most_two s ev :
  all_values at_most_two (rooms s) →
  all_values at_most_two (rooms (handle s ev).1).
Proof.
  intros Hrs. destruct ev as [sock userId email | sock gameType newId
    | sock roomId | sock roomId choice | sock targetEmail amount | sock
    | email username]; simpl.
  - unfold login. repeat case_match; done.
  - unfold create_room. repeat case_match; simpl;
      rewrite ?refresh_points_rooms; try done.
    apply all_values_set; [done|]. unfold at_most_two; simpl; lia.
  - unfold join_room.
    destruct (JsMap.get (onlineUsers s) sock) as [user0|]; [|done].
    rewrite refresh_points_rooms.
    destruct (JsMap.get (rooms s) roomId) as [room|] eqn:Hroom;
      [|by simpl; rewrite refresh_points_rooms].
    repeat case_bool_decide; simpl; rewrite ?refresh_points_rooms; try done;
      (apply all_values_set; [done|]);
      unfold at_most_two in *; simpl in *; rewrite ?length_app in *;
      simpl in *; lia.
  - unfold rps_choice.
    destruct (JsMap.get (rooms s) roomId) as [room|] eqn:Hroom; [|done].
    assert (Hr : at_most_two room) by (by eapply all_values_get).
    case_bool_decide; [done|]. case_match; [done|].
    repeat case_match; simpl; try (by apply all_values_set).
    apply resolve_round_at_most_two; [done|]. by apply all_values_set.
  - unfold transfer_points.
    repeat case_match; simpl;
      rewrite ?complete_transfer_rooms, ?refresh_points_rooms; done.
  - unfold disconnect. case_match; [|done].
    pose proof (leave_rooms_at_most_two sock (u_username o) _ Hrs) as Hleave.
    destruct (leave_rooms sock (u_username o) (rooms s)) as [rs notices].
    done.
  - done.
Qed.

Lemma reachable_at_most_two s :
  reachable s → all_values at_most_two (rooms s).
Proof.
  induction 1 as [d|s ev Hreach IH].
  - constructor.
  - by apply handle_at_most_two.
Qed.

(* [join_room] on a room that already has two players. *)
Lemma join_room_full s sock roomId user room :
  JsMap.get (onlineUsers s) sock = Some user →
  JsMap.get (rooms s) roomId = Some room →
  (2 ≤ length (r_players room))%nat →
  join_room s sock roomId
  = (refresh_points s sock user, [Emit (ToSocket sock) (error RoomFull)]).
Proof.
  intros Huser Hroom Hfull. unfold join_room. rewrite Huser; simpl.
  rewrite refresh_points_rooms, Hroom. by rewrite bool_decide_true.
Qed.

(** C9. In every reachable state no room has more than 2 members, and
    [join_room] by a logged-in connection on a room that already has 2
    members fails with [RoomFull], sent to the requester only, leaving the
    room map (hence that room's members and status) unchanged. *)
Theorem room_capacity :
  (∀ s roomId room,
     reachable s → JsMap.get (rooms s) roomId = Some room →
     (length (r_players room) ≤ 2)%nat) ∧
  (∀ s sock roomId user room,
     JsMap.get (onlineUsers s) sock = Some user →
     JsMap.get (rooms s) roomId = Some room →
     length (r_players room) = 2%nat →
     (join_room s sock roomId).2 = [Emit (ToSocket sock) (error RoomFull)] ∧
     rooms (join_room s sock roomId).1 = rooms s ∧
     JsMap.get (rooms (join_room s sock roomId).1) roomId = Some room).
Proof.
  split.
  - intros s roomId room Hreach Hget.
    apply (all_values_get at_most_two _ _ _ (reachable_at_most_two s Hreach) Hget).
  - intros s sock roomId user room Huser Hroom Hlen.
    rewrite (join_room_full s sock roomId user room Huser Hroom) by lia.
    simpl. by rewrite refresh_points_rooms.
Qed.

Lemma reachable_run s evs : reachable s → reachable (run s evs).
Proof.
  revert s. induction evs as [|ev evs IH]; intros s Hs; [done|].
  apply IH. by constructor.
Defined.

Lemma room_capacity_witness :
  reachable full_room_and_guest ∧
  JsMap.get (onlineUsers full_room_and_guest) "s3"
  = Some (mkOnlineUser "s3" 3 "c@x" "carol" 1000) ∧
  JsMap.get (rooms full_room_and_guest) "r1"
  = Some (mkRoom "r1" "rps" "s1" ["s1"; "s2"] playing 100 None) ∧
  (join_room full_room_and_guest "s3" "r1").2
  = [Emit (ToSocket "s3") (error RoomFull)] ∧
  JsMap.get (rooms (join_room full_room_and_guest "s3" "r1").1) "r1"
  = Some (mkRoom "r1" "rps" "s1" ["s1"; "s2"] playing 100 None).
Proof.
  assert (Hreach : reachable full_room_and_guest)
    by (apply reachable_run; constructor).
  assert (Huser : JsMap.get (onlineUsers full_room_and_guest) "s3"
                  = Some (mkOnlineUser "s3" 3 "c@x" "carol" 1000))
    by (vm_compute; reflexivity).
  assert (Hroom : JsMap.get (rooms full_room_and_guest) "r1"
                  = Some (mkRoom "r1" "rps" "s1" ["s1"; "s2"] playing 100 None))
    by (vm_compute; reflexivity).
  destruct room_capacity as [Hbound Hfull].
  pose proof (Hbound _ _ _ Hreach Hroom) as Hle.
  destruct (Hfull _ _ _ _ _ Huser Hroom eq_refl) as (Hout & _ & Hsame).
  split_and!; done.
Defined.

(** * login *)

(* The duplicate check: a login under an e-mail that is in the index is
   rejected and changes nothing. *)
Lemma login_already_online s sock userId email dbUser :
  getUserById (db s) userId = Some dbUser →
  is_Some (emailToSocketId s !! email) →
  login s sock userId email
  = (s, [Emit (ToSocket sock) (login_error AlreadyOnline)]).
Proof.
  intros Hdb Hidx. unfold login. rewrite Hdb. by rewrite bool_decide_true.
Qed.

(** C8 fails when the e-mail of the payload is not the account's.  Account 1
    has a live session on [s1]; a login for user id 1 from socket [s2] that
    carries another e-mail string passes the duplicate check, which looks
    the payload's e-mail up in the index: it is answered with
    [login_success], and account 1 then has two live sessions, each with its
    own cached balance. *)
Theorem second_login_accepted :
  sessions_of alice_online 1 = ["s1"] ∧
  (handle alice_online second_login).2 !! 0%nat
  = Some (Emit (ToSocket "s2")
            (login_success (mkUserInfo 1 "a@x" "alice" 1000)
               [mkOnlineUser "s1" 1 "a@x" "alice" 1000;
                mkOnlineUser "s2" 1 "a@x" "alice" 1000] [])) ∧
  sessions_of (handle alice_online second_login).1 1 = ["s1"; "s2"] ∧
  reachable (handle alice_online second_login).1.
Proof.
  split_and!; try (vm_compute; reflexivity).
  apply reachable_step, reachable_run, reachable_initial.
Qed.

(** * transfer_points *)

(** C6 fails for a transfer to oneself.  Alice, logged in on [s1] with 1000
    points, transfers 100 points to her own e-mail.  The transfer succeeds,
    and both her cached balance and the ledger go up to 1100: the debit is
    overwritten by the credit, because sender and recipient are the same
    object and both new balances were computed beforehand. *)
Theorem self_transfer_mints_points :
  cached_points alice_online "s1" = 1000 ∧
  getUserPoints (db alice_online) 1 = 1000 ∧
  (handle alice_online (EvTransferPoints "s1" "a@x" 100)).2
  = [Emit (ToSocket "s1")
       (transfer_success "alice" 100 (mkUserInfo 1 "a@x" "alice" 1100));
     Emit (IoTo "s1")
       (points_received "alice" 100 (mkUserInfo 1 "a@x" "alice" 1100));
     Emit IoAll
       (online_users_updated [mkOnlineUser "s1" 1 "a@x" "alice" 1100])] ∧
  cached_points (handle alice_online (EvTransferPoints "s1" "a@x" 100)).1 "s1"
  = 1100 ∧
  getUserPoints (db (handle alice_online (EvTransferPoints "s1" "a@x" 100)).1) 1
  = 1100.
Proof. split_and!; vm_compute; reflexivity. Qed.

(** * Settlement and the ledger *)

(** C1 fails for the settlement.  In [before_stale_settlement] the ledger
    holds 700 points for account 1 while the session on [s1] still caches
    1000.  When [s3] plays scissors the round is settled from the cached
    values, without a look at the ledger: [s1] wins 100 points and the
    ledger of account 1 is overwritten with 1000 + 100 = 1100, not
    700 + 100 = 800. *)
Theorem settlement_uses_cached_balance :
  reachable before_stale_settlement ∧
  getUserPoints (db before_stale_settlement) 1 = 700 ∧
  cached_points before_stale_settlement "s1" = 1000 ∧
  let s' := (handle before_stale_settlement (EvRpsChoice "s3" "r1" scissors)).1 in
  cached_points s' "s1" = 1100 ∧
  getUserPoints (db s') 1 = 1100 ∧
  getUserPoints (db s') 2 = 1200.
Proof.
  split; [apply reachable_run, reachable_initial|].
  cbv zeta. split_and!; vm_compute; reflexivity.
Qed.

(** * join_room and room membership *)

(** C2 does not hold.  [s1] is the host of room [r1] and not a player of
    [r2]; its [join_room] for [r2] succeeds, after which it is a player of
    both rooms.  Joining its own room instead makes it a player twice. *)
Lemma join_room_second_room :
  reachable two_hosts ∧
  one_room_per_connection two_hosts ∧
  is_member two_hosts "s1" "r1" = true ∧
  is_member two_hosts "s1" "r2" = false ∧
  is_member (join_room two_hosts "s1" "r2").1 "s1" "r1" = true ∧
  is_member (join_room two_hosts "s1" "r2").1 "s1" "r2" = true ∧
  ¬ one_room_per_connection (join_room two_hosts "s1" "r2").1 ∧
  r_players <$> JsMap.get (rooms (join_room two_hosts "s1" "r1").1) "r1"
  = Some ["s1"; "s1"] ∧
  ¬ one_room_per_connection (join_room two_hosts "s1" "r1").1.
Proof.
  split; [apply reachable_run, reachable_initial|].
  split.
  { split.
    - intros sock k1 k2. unfold is_member.
      change (rooms two_hosts) with
        [("r1"%string, mkRoom "r1" "rps" "s1" ["s1"%string] waiting 100 None);
         ("r2"%string, mkRoom "r2" "rps" "s2" ["s2"%string] waiting 100 None)].
      simpl. repeat case_decide; simplify_eq/=; try done;
        repeat match goal with
               | H : _ ∈ [_] |- _ => apply list_elem_of_singleton in H
               end; congruence.
    - intros k room.
      change (rooms two_hosts) with
        [("r1"%string, mkRoom "r1" "rps" "s1" ["s1"%string] waiting 100 None);
         ("r2"%string, mkRoom "r2" "rps" "s2" ["s2"%string] waiting 100 None)].
      simpl. repeat case_decide; intros; simplify_eq/=;
        apply NoDup_singleton. }
  split_and!; try (vm_compute; reflexivity).
  - intros [Hone _]. by specialize (Hone "s1" "r1" "r2" eq_refl eq_refl).
  - intros [_ Hdup].
    specialize (Hdup "r1"
      (mkRoom "r1" "rps" "s1" ["s1"; "s1"]%string playing 100 None) eq_refl).
    simpl in Hdup. apply NoDup_cons in Hdup as [Hnotin _].
    apply Hnotin. left.
Qed.

(** C2, as the code has it.  [join_room] makes no membership check.
    Whenever the requester is logged in, the room exists, has fewer than two
    players, is waiting, and the requester's refreshed balance covers the
    stake, the requester is appended to the room's players, whether or not
    it already is a player of that room or of another one, and every other
    room is left as it is (so an earlier membership elsewhere stays). *)
Theorem join_room_without_membership_check s sock roomId user room :
  JsMap.get (onlineUsers s) sock = Some user →
  JsMap.get (rooms s) roomId = Some room →
  (length (r_players room) < 2)%nat →
  r_status room = waiting →
  r_betAmount room ≤ getUserPoints (db s) (u_userId user) →
  (∃ room',
     JsMap.get (rooms (join_room s sock roomId).1) roomId = Some room' ∧
     r_players room' = r_players room ++ [sock]) ∧
  (∀ k, k ≠ roomId →
     JsMap.get (rooms (join_room s sock roomId).1) k = JsMap.get (rooms s) k).
Proof.
  intros Huser Hroom Hlen Hwait Hfunds. unfold join_room.
  rewrite Huser; simpl. rewrite refresh_points_rooms, Hroom.
  rewrite (refresh_points_get _ _ _ Huser); simpl.
  rewrite bool_decide_false by lia.
  rewrite bool_decide_false by (by intros []).
  rewrite bool_decide_false by lia.
  case_bool_decide; simpl; rewrite ?refresh_points_rooms.
  - split.
    + eexists. split; [apply jsmap_get_set_eq | done].
    + intros k Hk. by apply jsmap_get_set_ne.
  - split.
    + eexists. split; [apply jsmap_get_set_eq | done].
    + intros k Hk. by apply jsmap_get_set_ne.
Qed.

Lemma join_room_without_membership_check_witness :
  JsMap.get (onlineUsers two_hosts) "s1"
  = Some (mkOnlineUser "s1" 1 "a@x" "alice" 1000) ∧
  JsMap.get (rooms two_hosts) "r2"
  = Some (mkRoom "r2" "rps" "s2" ["s2"] waiting 100 None) ∧
  is_member two_hosts "s1" "r1" = true ∧
  (∃ room',
     JsMap.get (rooms (join_room two_hosts "s1" "r2").1) "r2" = Some room' ∧
     r_players room' = ["s2"; "s1"]) ∧
  JsMap.get (rooms (join_room two_hosts "s1" "r2").1) "r1"
  = JsMap.get (rooms two_hosts) "r1".
Proof.
  assert (Huser : JsMap.get (onlineUsers two_hosts) "s1"
                  = Some (mkOnlineUser "s1" 1 "a@x" "alice" 1000))
    by (vm_compute; reflexivity).
  assert (Hroom : JsMap.get (rooms two_hosts) "r2"
                  = Some (mkRoom "r2" "rps" "s2" ["s2"] waiting 100 None))
    by (vm_compute; reflexivity).
  assert (Hlen : (length ["s2"%string] < 2)%nat) by (simpl; lia).
  assert (Hfunds : 100 ≤ getUserPoints (db two_hosts) 1)
    by (vm_compute; discriminate).
  destruct (join_room_without_membership_check two_hosts "s1" "r2" _ _
              Huser Hroom Hlen eq_refl Hfunds) as [Hjoined Hothers].
  split_and!; [done | done | done | done | by apply Hothers].
Defined.

(** * Recorded moves and members *)

Lemma resolve_round_pending_subset s1 sock roomId room1 p1 p2 c1 c2 :
  moves_of_members room1 →
  pending_subset s1 →
  pending_subset (resolve_round s1 sock roomId room1 p1 p2 c1 c2).1.
Proof.
  intros Hroom Hrs. unfold resolve_round, pending_subset.
  repeat case_match; simpl; try done; apply all_values_set; try done.
  intros gd key [= <-] [x Hx]. by rewrite lookup_empty in Hx.
Qed.

(* Every handler but [disconnect] keeps the recorded moves among the
   players. *)
Lemma handle_pending_subset s ev :
  (∀ sock, ev ≠ EvDisconnect sock) →
  pending_subset s → pending_subset (handle s ev).1.
Proof.
  unfold pending_subset. intros Hev Hrs.
  destruct ev as [sock userId email | sock gameType newId
    | sock roomId | sock roomId choice | sock targetEmail amount | sock
    | email username]; simpl.
  - unfold login. repeat case_match; done.
  - unfold create_room. repeat case_match; simpl;
      rewrite ?refresh_points_rooms; try done.
    apply all_values_set; [done|]. by intros gd key [=].
  - unfold join_room.
    destruct (JsMap.get (onlineUsers s) sock) as [user0|]; [|done].
    rewrite refresh_points_rooms.
    destruct (JsMap.get (rooms s) roomId) as [room|] eqn:Hroom;
      [|by simpl; rewrite refresh_points_rooms].
    assert (Hr : moves_of_members room) by (by eapply all_values_get).
    repeat case_bool_decide; simpl; rewrite ?refresh_points_rooms; try done;
      (apply all_values_set; [done|]);
      intros gd key Hgd Hkey; simpl in *;
      apply elem_of_app; left; by eapply Hr.
  - unfold rps_choice.
    destruct (JsMap.get (rooms s) roomId) as [room|] eqn:Hroom; [|done].
    assert (Hr : moves_of_members room) by (by eapply all_values_get).
    case_bool_decide; [done|].
    destruct (bool_decide (sock ∈ r_players room)) eqn:Hmem; [|done].
    apply bool_decide_eq_true_1 in Hmem. simpl.
    assert (Hr1 : moves_of_members
      (set_gameData room
         (Some (<[sock := choice]> (default ∅ (r_gameData room)))))).
    { intros gd key [= <-] Hkey; simpl.
      destruct (decide (sock = key)) as [<-|Hne]; [done|].
      rewrite lookup_insert_ne in Hkey by done.
      destruct (r_gameData room) as [gd0|] eqn:Hgd0; simpl in Hkey.
      - by eapply Hr.
      - rewrite lookup_empty in Hkey. by destruct Hkey. }
    repeat case_match; simpl; try (by apply all_values_set).
    apply resolve_round_pending_subset; [done|]. by apply all_values_set.
  - unfold transfer_points.
    repeat case_match; simpl;
      rewrite ?complete_transfer_rooms, ?refresh_points_rooms; done.
  - by destruct (Hev sock).
  - done.
Qed.

(* The loop of [disconnect], one key at a time.  [rs0] is the map before the
   loop; a room of the current map either still has its key ahead in [ks]
   or has lost [sock]; in both cases it has the moves of the room [rs0] has
   under the same key and no player that one lacks. *)
Lemma leave_rooms_fold sock username rs0 ks rs out :
  (∀ k room',
     JsMap.get rs k = Some room' →
     ∃ room,
       JsMap.get rs0 k = Some room ∧
       r_gameData room' = r_gameData room ∧
       (∀ p, p ∈ r_players room' → p ∈ r_players room) ∧
       (k ∈ ks ∨ sock ∉ r_players room')) →
  ∀ k room',
    JsMap.get (foldl (leave_room sock username) (rs, out) ks).1 k = Some room' →
    ∃ room, JsMap.get rs0 k = Some room ∧ left_behind sock room room'.
Proof.
  revert rs out. induction ks as [|key ks IH]; intros rs out Hinv; cbn [foldl].
  - intros k room' Hget.
    destruct (Hinv k room' Hget) as (room & Hroom & Hgd & Hsub & [Hin|Hout]).
    + by apply elem_of_nil in Hin.
    + by exists room.
  - destruct (leave_room sock username (rs, out) key) as [rs1 out1] eqn:Hstep.
    apply (IH rs1 out1). intros k room' Hget.
    (* a room that the step leaves alone *)
    assert (Hkeep : JsMap.get rs k = Some room' →
                    (k = key → sock ∉ r_players room') →
      ∃ room,
        JsMap.get rs0 k = Some room ∧
        r_gameData room' = r_gameData room ∧
        (∀ p, p ∈ r_players room' → p ∈ r_players room) ∧
        (k ∈ ks ∨ sock ∉ r_players room')).
    { intros Hold Hkey.
      destruct (Hinv k room' Hold) as (room & ? & ? & ? & [Hin|Hout]);
        exists room; split_and!; try done; [|by right].
      apply elem_of_cons in Hin as [->|Hin]; [right; by apply Hkey | by left]. }
    unfold leave_room in Hstep.
    destruct (JsMap.get rs key) as [rk|] eqn:Hrk;
      [|simplify_eq/=; apply Hkeep; [done | congruence]].
    destruct (bool_decide (sock ∈ r_players rk)) eqn:Hmem;
      [|simplify_eq/=; apply bool_decide_eq_false_1 in Hmem;
        apply Hkeep; [done | congruence]].
    destruct (Hinv key rk Hrk) as (r0 & Hr0 & Hgd0 & Hsub0 & _).
    (* the room under [key] loses [sock] *)
    assert (Hcase :
      (k = key ∧ r_gameData room' = r_gameData rk ∧
       r_players room' = filter (λ id, id ≠ sock) (r_players rk)) ∨
      (k ≠ key ∧ JsMap.get rs k = Some room')).
    { destruct (bool_decide (length (r_players (set_players rk
        (filter (λ id, id ≠ sock) (r_players rk)))) = 0%nat));
        simplify_eq/=.
      - rewrite jsmap_get_delete in Hget.
        destruct (decide (r_id rk = k)); [done|].
        rewrite jsmap_get_set in Hget.
        destruct (decide (key = k)); simplify_eq/=; [by left | by right].
      - rewrite jsmap_get_set in Hget.
        destruct (decide (key = k)); simplify_eq/=; [by left | by right]. }
    destruct Hcase as [(-> & Hgd & Hps)|[Hne Hold]].
    + exists r0. split_and!; [done | congruence | |].
      * intros p. rewrite Hps. intros Hp.
        apply list_elem_of_filter in Hp as [_ Hp]. by apply Hsub0.
      * right. rewrite Hps. intros Hp.
        by apply list_elem_of_filter in Hp as [Hp _].
    + by apply Hkeep.
Qed.

Lemma leave_rooms_left_behind sock username rs k room' :
  JsMap.get (leave_rooms sock username rs).1 k = Some room' →
  ∃ room, JsMap.get rs k = Some room ∧ left_behind sock room room'.
Proof.
  unfold leave_rooms. apply leave_rooms_fold.
  intros k' r Hget. exists r. split_and!; try done.
  left. by eapply jsmap_get_Some_key.
Qed.

Lemma disconnect_left_behind s sock roomId room' :
  is_Some (JsMap.get (onlineUsers s) sock) →
  JsMap.get (rooms (disconnect s sock).1) roomId = Some room' →
  ∃ room, JsMap.get (rooms s) roomId = Some room ∧ left_behind sock room room'.
Proof.
  intros [user Huser]. unfold disconnect. rewrite Huser.
  destruct (leave_rooms sock (u_username user) (rooms s))
    as [rs notices] eqn:Hleave.
  simpl. intros Hget. apply (leave_rooms_left_behind sock (u_username user)).
  by rewrite Hleave.
Qed.

Lemma initial_pending_subset d : pending_subset (initial d).
Proof. constructor. Qed.

Lemma run_pending_subset s evs :
  Forall (λ ev, ∀ sock, ev ≠ EvDisconnect sock) evs →
  pending_subset s → pending_subset (run s evs).
Proof.
  intros Hevs. revert s.
  induction Hevs as [|ev evs Hev Hevs IH]; intros s Hs; [done|].
  apply IH. by apply handle_pending_subset.
Qed.

(** C5 does not hold.  In [host_moved] the host [s1] of the full room
    [r1] has played rock, and every recorded move is a player's.  After
    [s1] disconnects, the room survives with [s2] as its only player and
    still holds the move of [s1]: the keys of its [gameData] are no longer
    among its players. *)
Lemma disconnect_keeps_recorded_move :
  reachable host_moved ∧
  pending_subset host_moved ∧
  reachable (disconnect host_moved "s1").1 ∧
  (∃ room gd,
     JsMap.get (rooms (disconnect host_moved "s1").1) "r1" = Some room ∧
     r_players room = ["s2"] ∧
     r_gameData room = Some gd ∧
     gd !! "s1" = Some rock ∧
     ("s1" ∉ r_players room)) ∧
  ¬ pending_subset (disconnect host_moved "s1").1.
Proof.
  assert (Hroom :
    JsMap.get (rooms (disconnect host_moved "s1").1) "r1"
    = Some (mkRoom "r1" "rps" "s1" ["s2"] waiting 100
              (Some {["s1"%string := rock]})))
    by (vm_compute; reflexivity).
  split_and!.
  - apply reachable_run, reachable_run, reachable_initial.
  - apply run_pending_subset; [|apply run_pending_subset];
      [| |apply initial_pending_subset];
      repeat constructor; intros sock; discriminate.
  - apply (reachable_step host_moved (EvDisconnect "s1")).
    apply reachable_run, reachable_run, reachable_initial.
  - eexists _, _. split; [exact Hroom|]. simpl. split_and!; try done.
    intros Hin. apply list_elem_of_singleton in Hin. discriminate.
  - intros Hsub.
    pose proof (all_values_get _ _ _ _ Hsub Hroom) as Hmoves.
    specialize (Hmoves _ "s1"%string eq_refl (mk_is_Some _ _ eq_refl)).
    simpl in Hmoves. apply list_elem_of_singleton in Hmoves. discriminate.
Qed.

(** C5, as the code has it.  The keys of a room's [gameData] are players of
    the room as long as nobody has left: this holds in the initial state and
    every handler other than [disconnect] preserves it (a move is recorded
    only for a player of the room).  [disconnect] of a logged-in connection
    removes it from the players of every room that survives and adds no
    player, but leaves the [gameData] of each surviving room as it was, so a
    move recorded by the departed connection stays. *)
Theorem recorded_moves_and_players :
  (∀ d, pending_subset (initial d)) ∧
  (∀ s ev,
     (∀ sock, ev ≠ EvDisconnect sock) →
     pending_subset s → pending_subset (handle s ev).1) ∧
  (∀ s sock roomId room',
     is_Some (JsMap.get (onlineUsers s) sock) →
     JsMap.get (rooms (disconnect s sock).1) roomId = Some room' →
     ∃ room,
       JsMap.get (rooms s) roomId = Some room ∧
       r_gameData room' = r_gameData room ∧
       (sock ∉ r_players room') ∧
       (∀ p, p ∈ r_players room' → p ∈ r_players room)).
Proof.
  split_and!.
  - apply initial_pending_subset.
  - apply handle_pending_subset.
  - intros s sock roomId room' Huser Hget.
    destruct (disconnect_left_behind s sock roomId room' Huser Hget)
      as (room & Hroom & Hgd & Hout & Hsub).
    by exists room.
Qed.

Lemma recorded_moves_and_players_witness :
  pending_subset host_moved ∧
  pending_subset (handle host_moved (EvRpsChoice "s2" "r1" rock)).1 ∧
  is_Some (JsMap.get (onlineUsers host_moved) "s1") ∧
  JsMap.get (rooms (disconnect host_moved "s1").1) "r1"
  = Some (mkRoom "r1" "rps" "s1" ["s2"] waiting 100
            (Some {["s1"%string := rock]})) ∧
  ∃ room,
    JsMap.get (rooms host_moved) "r1" = Some room ∧
    Some {["s1"%string := rock]} = r_gameData room ∧
    "s1" ∉ ["s2"%string].
Proof.
  destruct recorded_moves_and_players as (Hinit & Hstep & Hleave).
  assert (Hbefore : pending_subset host_moved).
  { unfold host_moved, full_room, run; cbn [foldl].
    repeat (apply Hstep; [intros sock; discriminate|]). apply Hinit. }
  assert (Huser : is_Some (JsMap.get (onlineUsers host_moved) "s1"))
    by (vm_compute; eexists; reflexivity).
  assert (Hroom :
    JsMap.get (rooms (disconnect host_moved "s1").1) "r1"
    = Some (mkRoom "r1" "rps" "s1" ["s2"] waiting 100
              (Some {["s1"%string := rock]})))
    by (vm_compute; reflexivity).
  destruct (Hleave host_moved "s1" "r1" _ Huser Hroom)
    as (room & Hget & Hgd & Hout & _).
  split_and!; [done | | done | done |].
  - apply Hstep; [intros sock; discriminate | done].
  - exists room. split_and!; [exact Hget | exact Hgd | exact Hout].
Defined.

(** * Settlement of a round *)

Lemma beats_antisym a b : a ≠ b → beats b a = negb (beats a b).
Proof. by destruct a, b. Qed.

Lemma isDraw_calculateRPSResult p1 a p2 b bet :
  isDraw (calculateRPSResult p1 a p2 b bet) = bool_decide (a = b).
Proof.
  unfold calculateRPSResult. destruct (decide (a = b)) as [Heq|Hne].
  - by rewrite bool_decide_true.
  - rewrite bool_decide_false by done. by destruct (beats a b).
Qed.

Lemma pointsChange_calculateRPSResult p1 a p2 b bet :
  p1 ≠ p2 →
  pointsChange (calculateRPSResult p1 a p2 b bet)
  = [(p1, round_delta a b bet); (p2, round_delta b a bet)].
Proof.
  intros Hne. unfold calculateRPSResult, round_delta.
  destruct (decide (a = b)) as [->|Hab]; simpl.
  - rewrite (decide_False (P := p1 = p2)) by done.
    by rewrite decide_True.
  - rewrite (decide_False (P := b = a)) by done.
    rewrite (beats_antisym a b Hab).
    destruct (beats a b); simpl; by rewrite decide_False.
Qed.

(* Both players are online: each cached balance is moved by its change and
   written through to the ledger, in the order of the entries. *)
Lemma settle_two ou d p1 p2 d1 d2 u1 u2 :
  p1 ≠ p2 →
  JsMap.get ou p1 = Some u1 →
  JsMap.get ou p2 = Some u2 →
  settle ou d [(p1, d1); (p2, d2)]
  = (JsMap.set (JsMap.set ou p1 (set_points u1 (u_points u1 + d1))) p2
       (set_points u2 (u_points u2 + d2)),
     updateUserPoints
       (updateUserPoints d (u_userId u1) (u_points u1 + d1))
       (u_userId u2) (u_points u2 + d2),
     <[u_userId u2 := d2]> (<[u_userId u1 := d1]> ∅)).
Proof.
  intros Hne H1 H2. unfold settle; simpl. rewrite H1; simpl.
  by rewrite jsmap_get_set_ne, H2 by done.
Qed.

Lemma resolve_round_two s1 sock roomId room1 p1 p2 n1 n2 u1 u2 :
  p1 ≠ p2 →
  JsMap.get (onlineUsers s1) p1 = Some u1 →
  JsMap.get (onlineUsers s1) p2 = Some u2 →
  let d1 := round_delta n1 n2 (r_betAmount room1) in
  let d2 := round_delta n2 n1 (r_betAmount room1) in
  let u1' := set_points u1 (u_points u1 + d1) in
  let u2' := set_points u2 (u_points u2 + d2) in
  let gameResult := calculateRPSResult p1 n1 p2 n2 (r_betAmount room1) in
  let s2 :=
    mkState (JsMap.set (JsMap.set (onlineUsers s1) p1 u1') p2 u2')
      (rooms s1) (emailToSocketId s1)
      (updateUserPoints
         (updateUserPoints (db s1) (u_userId u1) (u_points u1'))
         (u_userId u2) (u_points u2')) in
  let result :=
    Emit (IoTo (r_id room1))
      (game_result (r_id room1)
         (mkResultPayload (winnerId gameResult) (loserId gameResult)
            (bool_decide (n1 = n2))
            (<[u_userId u2 := d2]> (<[u_userId u1 := d1]> ∅)))
         (<[p2 := n2]> {[p1 := n1]})
         [user_info u1'; user_info u2']) in
  resolve_round s1 sock roomId room1 (Some p1) (Some p2) n1 n2
  = if bool_decide (n1 = n2) then
      let room2 := set_status (set_gameData room1 (Some ∅)) playing in
      (set_rooms s2 (JsMap.set (rooms s2) roomId room2),
       [result; Emit (IoTo (r_id room2)) (game_continue room2)])
    else
      (set_rooms s2 (JsMap.set (rooms s2) roomId (set_status room1 finished)),
       [result]).
Proof.
  intros Hne H1 H2. cbv zeta. unfold resolve_round. rewrite H1, H2.
  rewrite pointsChange_calculateRPSResult by done.
  rewrite (settle_two _ _ _ _ _ _ u1 u2) by done.
  rewrite isDraw_calculateRPSResult.
  rewrite jsmap_get_set_eq. rewrite jsmap_get_set_ne by done.
  rewrite jsmap_get_set_eq. simpl.
  by case_bool_decide.
Qed.

(** * A move after the room has finished *)

Lemma two_players (l : list string) p1 p2 :
  l !! 0%nat = Some p1 → l !! 1%nat = Some p2 → (length l ≤ 2)%nat →
  l = [p1; p2].
Proof.
  destruct l as [|a [|b [|c l]]]; simpl; intros; simplify_eq; try done. lia.
Qed.

Ltac no_game_result H :=
  repeat (apply elem_of_cons in H as [H|H]; [discriminate|]);
  by apply elem_of_nil in H.

(* A decisive round leaves the room finished with both moves recorded. *)
Lemma decisive_round_state s0 sock0 roomId c0 s out0 tgt rid res ch us :
  all_values at_most_two (rooms s0) →
  rps_choice s0 sock0 roomId c0 = (s, out0) →
  Emit tgt (game_result rid res ch us) ∈ out0 →
  p_isDraw res = false →
  ∃ room p1 p2 c1 c2 u1 u2,
    after_decisive_round s roomId room p1 p2 c1 c2 u1 u2.
Proof.
  intros Hcap Hrun Hres Hdec. unfold rps_choice in Hrun.
  destruct (JsMap.get (rooms s0) roomId) as [room0|] eqn:Hroom0;
    [|simplify_eq; no_game_result Hres].
  assert (Hcap0 : at_most_two room0) by (by eapply all_values_get).
  destruct (bool_decide (r_gameType room0 ≠ "rps"%string)) eqn:Htype;
    [simplify_eq; no_game_result Hres|].
  apply bool_decide_eq_false_1, dec_stable in Htype.
  destruct (bool_decide (sock0 ∈ r_players room0)) eqn:Hmem;
    cbn [negb] in Hrun; [|simplify_eq; no_game_result Hres].
  cbn [set_gameData r_players r_betAmount] in Hrun.
  destruct (r_players room0 !! 0%nat) as [p1|] eqn:Hp1;
    destruct (r_players room0 !! 1%nat) as [p2|] eqn:Hp2;
    cbn [property_key default] in Hrun;
    repeat (case_match; [|simplify_eq; no_game_result Hres]);
    try (unfold resolve_round in Hrun; simplify_eq; no_game_result Hres).
  cbv [id] in *.
  match goal with
  | Hc1 : _ !! p1 = Some ?c1, Hc2 : _ !! p2 = Some ?c2 |- _ =>
      rename Hc1 into Hmove1; rename Hc2 into Hmove2;
      rename c1 into c1'; rename c2 into c2'
  end.
  destruct (JsMap.get (onlineUsers s0) p1) as [u1|] eqn:Hu1;
    [|unfold resolve_round in Hrun; simpl in Hrun; rewrite Hu1 in Hrun;
      simplify_eq; no_game_result Hres].
  destruct (JsMap.get (onlineUsers s0) p2) as [u2|] eqn:Hu2;
    [|unfold resolve_round in Hrun; simpl in Hrun; rewrite Hu1, Hu2 in Hrun;
      simplify_eq; no_game_result Hres].
  destruct (decide (p1 = p2)) as [->|Hne].
  { assert (c1' = c2') as -> by congruence.
    unfold resolve_round in Hrun. simpl in Hrun. rewrite Hu1 in Hrun.
    rewrite isDraw_calculateRPSResult, bool_decide_true in Hrun by done.
    destruct (settle _ _ _) as [[ou d] byUser]. simplify_eq.
    apply elem_of_cons in Hres as [Hres|Hres];
      [by simplify_eq/= | no_game_result Hres]. }
  rewrite (resolve_round_two (set_rooms s0 _) _ _ _ p1 p2 c1' c2' u1 u2 Hne Hu1 Hu2) in Hrun.
  destruct (bool_decide (c1' = c2')) eqn:Hdraw.
  { simplify_eq/=. apply elem_of_cons in Hres as [Hres|Hres];
      [by simplify_eq/= | no_game_result Hres]. }
  apply bool_decide_eq_false_1 in Hdraw. simplify_eq/=.
  eexists _, p1, p2, c1', c2', _, _. unfold after_decisive_round; simpl.
  split_and!.
  - apply jsmap_get_set_eq.
  - done.
  - done.
  - simpl. by apply two_players.
  - done.
  - by eexists.
  - done.
  - rewrite jsmap_get_set_ne by done. apply jsmap_get_set_eq.
  - apply jsmap_get_set_eq.
Qed.

(* A move by a player of a room in the state a decisive round leaves:
   nothing looks at the status, and the other player's old move is still
   there, so the round is resolved at once. *)
Lemma move_after_decisive_round s roomId room p1 p2 c1 c2 u1 u2 m c' :
  after_decisive_round s roomId room p1 p2 c1 c2 u1 u2 →
  m ∈ r_players room →
  let n1 := if decide (m = p1) then c' else c1 in
  let n2 := if decide (m = p2) then c' else c2 in
  ∃ gd,
    r_gameData room = Some gd ∧
    rps_choice s m roomId c'
    = resolve_round
        (set_rooms s
           (JsMap.set (rooms s) roomId
              (set_gameData room (Some (<[m := c']> gd)))))
        m roomId (set_gameData room (Some (<[m := c']> gd)))
        (Some p1) (Some p2) n1 n2.
Proof.
  intros (Hroom & Htype & Hstatus & Hplayers & Hne & (gd & Hgd & Hc1 & Hc2)
          & Hdiff & Hu1 & Hu2) Hm.
  cbv zeta. exists gd. split; [done|].
  unfold rps_choice. rewrite Hroom.
  rewrite bool_decide_false by (by intros []).
  rewrite bool_decide_true by done.
  cbn [negb set_gameData r_players]. rewrite Hplayers, Hgd.
  cbn [lookup list_lookup property_key default id].
  rewrite !lookup_insert. rewrite Hc1, Hc2.
  by destruct (decide (m = p1)), (decide (m = p2)).
Qed.

Lemma round_delta_decisive a b bet :
  a ≠ b →
  (beats a b = true ∧ round_delta a b bet = bet ∧ round_delta b a bet = - bet) ∨
  (beats b a = true ∧ round_delta a b bet = - bet ∧ round_delta b a bet = bet).
Proof.
  intros Hne. unfold round_delta.
  rewrite !decide_False by done. rewrite (beats_antisym a b Hne).
  destruct (beats a b); [left | right]; done.
Qed.

Lemma round_delta_draw a bet : round_delta a a bet = 0.
Proof. unfold round_delta. by rewrite decide_True. Qed.

(** C4, as the code has it.  Let a round played in a reachable state be
    settled with a winner.  The state it leaves has the room finished, with
    both moves still recorded.  A further move [c'] by either player [m] is
    accepted (the handler does not look at the status) and at once triggers
    another settlement, computed from [c'] and the move the other player
    recorded in the previous round: a [game_result] with these two moves is
    sent to the room and both new cached balances are written to the ledger.
    If [c'] differs from the other player's old move the stake changes hands
    again and the room stays finished; if it equals it the settlement is a
    draw: no balance changes, the recorded moves are cleared and the room
    goes back to playing. *)
Theorem move_after_finish s0 sock0 roomId c0 s out0 tgt rid res ch us :
  reachable s0 →
  rps_choice s0 sock0 roomId c0 = (s, out0) →
  Emit tgt (game_result rid res ch us) ∈ out0 →
  p_isDraw res = false →
  ∃ room p1 p2 c1 c2 u1 u2,
    after_decisive_round s roomId room p1 p2 c1 c2 u1 u2 ∧
    ∀ m c',
      m ∈ r_players room →
      let n1 := if decide (m = p1) then c' else c1 in
      let n2 := if decide (m = p2) then c' else c2 in
      let bet := r_betAmount room in
      ∃ s' res' us' rest,
        rps_choice s m roomId c'
        = (s', Emit (IoTo (r_id room))
                 (game_result (r_id room) res' (<[p2 := n2]> {[p1 := n1]}) us')
               :: rest) ∧
        p_isDraw res' = bool_decide (n1 = n2) ∧
        db s'
        = updateUserPoints
            (updateUserPoints (db s) (u_userId u1) (cached_points s' p1))
            (u_userId u2) (cached_points s' p2) ∧
        (n1 ≠ n2 →
           rest = [] ∧
           room_status s' roomId = Some finished ∧
           ((beats n1 n2 = true ∧
             cached_points s' p1 = u_points u1 + bet ∧
             cached_points s' p2 = u_points u2 - bet) ∨
            (beats n2 n1 = true ∧
             cached_points s' p1 = u_points u1 - bet ∧
             cached_points s' p2 = u_points u2 + bet))) ∧
        (n1 = n2 →
           room_status s' roomId = Some playing ∧
           room_moves s' roomId = Some ∅ ∧
           cached_points s' p1 = u_points u1 ∧
           cached_points s' p2 = u_points u2).
Proof.
  intros Hreach Hrun Hres Hdec.
  destruct (decisive_round_state s0 sock0 roomId c0 s out0 tgt rid res ch us
              (reachable_at_most_two s0 Hreach) Hrun Hres Hdec)
    as (room & p1 & p2 & c1 & c2 & u1 & u2 & Hafter).
  exists room, p1, p2, c1, c2, u1, u2. split; [done|].
  intros m c' Hm.
  destruct (move_after_decisive_round s roomId room p1 p2 c1 c2 u1 u2 m c'
              Hafter Hm) as (gd & Hgd & Hmove).
  destruct Hafter as (Hroom & Htype & Hstatus & Hplayers & Hne & _ & Hdiff
                      & Hu1 & Hu2).
  cbv zeta in *. rewrite Hmove.
  rewrite (resolve_round_two (set_rooms s _) _ _ _ p1 p2 _ _ u1 u2 Hne Hu1 Hu2).
  cbn [r_betAmount r_id set_gameData].
  set (n1 := if decide (m = p1) then c' else c1).
  set (n2 := if decide (m = p2) then c' else c2).
  assert (Hcached : ∀ ou rs idx d (v1 v2 : OnlineUser),
    cached_points
      (mkState (JsMap.set (JsMap.set ou p1 v1) p2 v2) rs idx d) p1
    = u_points v1 ∧
    cached_points
      (mkState (JsMap.set (JsMap.set ou p1 v1) p2 v2) rs idx d) p2
    = u_points v2).
  { intros. unfold cached_points; simpl.
    rewrite jsmap_get_set_eq. rewrite jsmap_get_set_ne by done.
    by rewrite jsmap_get_set_eq. }
  destruct (bool_decide (n1 = n2)) eqn:Hdraw.
  - apply bool_decide_eq_true_1 in Hdraw.
    eexists _, _, _, _. split; [reflexivity|].
    unfold set_rooms; simpl.
    destruct (Hcached (onlineUsers s)
      (JsMap.set (JsMap.set (rooms s) roomId
         (set_gameData room (Some (<[m:=c']> gd)))) roomId
         (set_status (set_gameData (set_gameData room (Some (<[m:=c']> gd)))
            (Some ∅)) playing))
      (emailToSocketId s)
      (updateUserPoints
         (updateUserPoints (db s) (u_userId u1)
            (u_points u1 + round_delta n1 n2 (r_betAmount room)))
         (u_userId u2) (u_points u2 + round_delta n2 n1 (r_betAmount room)))
      (set_points u1 (u_points u1 + round_delta n1 n2 (r_betAmount room)))
      (set_points u2 (u_points u2 + round_delta n2 n1 (r_betAmount room))))
      as [-> ->].
    simpl. split_and!; [done | done | by intros [] |].
    intros _. unfold room_status, room_moves; simpl.
    rewrite jsmap_get_set_eq; simpl.
    rewrite Hdraw, !round_delta_draw. split_and!; try done; lia.
  - apply bool_decide_eq_false_1 in Hdraw.
    eexists _, _, _, _. split; [reflexivity|].
    unfold set_rooms; simpl.
    destruct (Hcached (onlineUsers s)
      (JsMap.set (JsMap.set (rooms s) roomId
         (set_gameData room (Some (<[m:=c']> gd)))) roomId
         (set_status (set_gameData room (Some (<[m:=c']> gd))) finished))
      (emailToSocketId s)
      (updateUserPoints
         (updateUserPoints (db s) (u_userId u1)
            (u_points u1 + round_delta n1 n2 (r_betAmount room)))
         (u_userId u2) (u_points u2 + round_delta n2 n1 (r_betAmount room)))
      (set_points u1 (u_points u1 + round_delta n1 n2 (r_betAmount room)))
      (set_points u2 (u_points u2 + round_delta n2 n1 (r_betAmount room))))
      as [-> ->].
    simpl. split_and!; [done | done | | done].
    intros _. unfold room_status; simpl.
    rewrite jsmap_get_set_eq; simpl. split_and!; try done.
    destruct (round_delta_decisive n1 n2 (r_betAmount room) Hdraw)
      as [(Hb & -> & ->)|(Hb & -> & ->)]; [left | right];
      split_and!; try done; lia.
Qed.

Lemma move_after_finish_witness :
  reachable host_moved ∧
  rps_choice host_moved "s2" "r1" scissors
  = (decisive_round,
     [Emit (IoTo "r1")
        (game_result "r1"
           (mkResultPayload (Some "s1"%string) (Some "s2"%string) false
              (<[2 := -100]> {[1 := 100]}))
           (<["s2"%string := scissors]> {["s1"%string := rock]})
           [mkUserInfo 1 "a@x" "alice" 1100; mkUserInfo 2 "b@x" "bob" 900])]) ∧
  ∃ room p1 p2 c1 c2 u1 u2,
    after_decisive_round decisive_round "r1" room p1 p2 c1 c2 u1 u2 ∧
    ∃ s' res' us' rest,
      rps_choice decisive_round "s2" "r1" paper
      = (s', Emit (IoTo (r_id room))
               (game_result (r_id room) res'
                  (<[p2 := if decide ("s2"%string = p2) then paper else c2]>
                     {[p1 := if decide ("s2"%string = p1) then paper else c1]})
                  us') :: rest).
Proof.
  assert (Hreach : reachable host_moved)
    by (apply reachable_run, reachable_run, reachable_initial).
  assert (Hrun : rps_choice host_moved "s2" "r1" scissors
    = (decisive_round,
       [Emit (IoTo "r1")
          (game_result "r1"
             (mkResultPayload (Some "s1"%string) (Some "s2"%string) false
                (<[2 := -100]> {[1 := 100]}))
             (<["s2"%string := scissors]> {["s1"%string := rock]})
             [mkUserInfo 1 "a@x" "alice" 1100;
              mkUserInfo 2 "b@x" "bob" 900])]))
    by (vm_compute; reflexivity).
  split; [exact Hreach|]. split; [exact Hrun|].
  destruct (move_after_finish host_moved "s2" "r1" scissors _ _ _ _ _ _ _
              Hreach Hrun (list_elem_of_here _ _) eq_refl)
    as (room & p1 & p2 & c1 & c2 & u1 & u2 & Hafter & Hnext).
  exists room, p1, p2, c1, c2, u1, u2. split; [exact Hafter|].
  assert (Hm : "s2"%string ∈ r_players room).
  { destruct Hafter as (Hget & _).
    assert (Hroom : JsMap.get (rooms decisive_round) "r1"
      = Some (mkRoom "r1" "rps" "s1" ["s1"; "s2"]%string finished 100
                (Some (<["s2"%string := scissors]> {["s1"%string := rock]}))))
      by (vm_compute; reflexivity).
    rewrite Hroom in Hget. injection Hget as <-. simpl.
    apply list_elem_of_further, list_elem_of_here. }
  destruct (Hnext "s2"%string paper Hm) as (s' & res' & us' & rest & Hstep & _).
  by exists s', res', us', rest.
Defined.

(** C4 does not hold for every new move.  [decisive_round] is the state left
    by a round that [s1] won with rock against scissors: the room is
    finished, [s1] has 1100 points and [s2] has 900.  When [s2] now plays
    rock, the move the host still has on record, the settlement that follows
    is a draw: the stake is not transferred again, both balances stay as
    they were, in cache and ledger, the recorded moves are cleared and the
    room is playing again. *)
Lemma move_after_finish_can_draw :
  reachable decisive_round ∧
  room_status decisive_round "r1" = Some finished ∧
  room_moves decisive_round "r1"
  = Some (<["s2"%string := scissors]> {["s1"%string := rock]}) ∧
  cached_points decisive_round "s1" = 1100 ∧
  cached_points decisive_round "s2" = 900 ∧
  (rps_choice decisive_round "s2" "r1" rock).2
  = [Emit (IoTo "r1")
       (game_result "r1" (mkResultPayload None None true (<[2 := 0]> {[1 := 0]}))
          (<["s2"%string := rock]> {["s1"%string := rock]})
          [mkUserInfo 1 "a@x" "alice" 1100; mkUserInfo 2 "b@x" "bob" 900]);
     Emit (IoTo "r1")
       (game_continue
          (mkRoom "r1" "rps" "s1" ["s1"; "s2"] playing 100 (Some ∅)))] ∧
  cached_points (rps_choice decisive_round "s2" "r1" rock).1 "s1" = 1100 ∧
  cached_points (rps_choice decisive_round "s2" "r1" rock).1 "s2" = 900 ∧
  getUserPoints (db (rps_choice decisive_round "s2" "r1" rock).1) 1 = 1100 ∧
  getUserPoints (db (rps_choice decisive_round "s2" "r1" rock).1) 2 = 900 ∧
  room_status (rps_choice decisive_round "s2" "r1" rock).1 "r1" = Some playing.
Proof.
  split; [apply reachable_run, reachable_run, reachable_run, reachable_initial|].
  split_and!; vm_compute; reflexivity.
Qed.

(** * The ledger in the other balance-consuming handlers *)

Lemma getUserPoints_update_eq d userId v :
  is_Some (d !! userId) → getUserPoints (updateUserPoints d userId v) userId = v.
Proof.
  intros [row Hrow]. unfold getUserPoints, updateUserPoints.
  by rewrite lookup_alter_eq, Hrow.
Qed.

Lemma getUserPoints_update_ne d userId userId' v :
  userId ≠ userId' →
  getUserPoints (updateUserPoints d userId v) userId' = getUserPoints d userId'.
Proof.
  intros Hne. unfold getUserPoints, updateUserPoints.
  by rewrite lookup_alter_ne.
Qed.

Lemma getUserPoints_nonzero d userId :
  getUserPoints d userId ≠ 0 → is_Some (d !! userId).
Proof. unfold getUserPoints. destruct (d !! userId); [by eexists | done]. Qed.

(* [create_room] decides on the ledger's balance, whatever the cache
   holds: with enough points in the ledger the room is created. *)
Lemma create_room_reads_ledger s sock gameType newId user :
  JsMap.get (onlineUsers s) sock = Some user →
  bet_of gameType ≤ getUserPoints (db s) (u_userId user) →
  JsMap.get (rooms (create_room s sock gameType newId).1) newId
  = Some (mkRoom newId gameType sock [sock] waiting (bet_of gameType) None) ∧
  cached_points (create_room s sock gameType newId).1 sock
  = getUserPoints (db s) (u_userId user).
Proof.
  intros Hget Hfunds. unfold create_room, cached_points. rewrite Hget; simpl.
  rewrite (refresh_points_get _ _ _ Hget); simpl.
  rewrite bool_decide_false by lia. simpl.
  rewrite jsmap_get_set_eq, (refresh_points_get _ _ _ Hget). done.
Qed.

(* [join_room] decides on the ledger's balance as well. *)
Lemma join_room_insufficient_funds s sock roomId user room :
  JsMap.get (onlineUsers s) sock = Some user →
  JsMap.get (rooms s) roomId = Some room →
  (length (r_players room) < 2)%nat →
  r_status room = waiting →
  getUserPoints (db s) (u_userId user) < r_betAmount room →
  join_room s sock roomId
  = (refresh_points s sock user,
     [Emit (ToSocket sock)
        (error (InsufficientFunds (Some (r_betAmount room))))]).
Proof.
  intros Huser Hroom Hlen Hwait Hlow. unfold join_room.
  rewrite Huser; simpl. rewrite refresh_points_rooms, Hroom.
  rewrite (refresh_points_get _ _ _ Huser); simpl.
  rewrite bool_decide_false by lia.
  rewrite bool_decide_false by (by intros []).
  by rewrite bool_decide_true.
Qed.

(** * transfer_points between two parties *)

(* The failures of [transfer_points] leave the ledger alone. *)
Lemma transfer_points_failure_ledger s sock targetEmail amount reason :
  (transfer_points s sock targetEmail amount).2
  = [Emit (ToSocket sock) (error reason)] →
  db (transfer_points s sock targetEmail amount).1 = db s ∧
  rooms (transfer_points s sock targetEmail amount).1 = rooms s ∧
  emailToSocketId (transfer_points s sock targetEmail amount).1
  = emailToSocketId s.
Proof.
  unfold transfer_points.
  repeat case_match; cbn [fst snd];
    rewrite ?refresh_points_db, ?refresh_points_rooms, ?refresh_points_index;
    done.
Qed.

Lemma transfer_points_invalid_amount s sock targetEmail amount user :
  JsMap.get (onlineUsers s) sock = Some user →
  amount ≤ 0 →
  transfer_points s sock targetEmail amount
  = (s, [Emit (ToSocket sock) (error InvalidAmount)]).
Proof.
  intros Huser Hamount. unfold transfer_points. rewrite Huser.
  by rewrite bool_decide_true.
Qed.

Lemma transfer_points_insufficient_funds s sock targetEmail amount user :
  JsMap.get (onlineUsers s) sock = Some user →
  0 < amount →
  getUserPoints (db s) (u_userId user) < amount →
  transfer_points s sock targetEmail amount
  = (refresh_points s sock user,
     [Emit (ToSocket sock) (error (InsufficientFunds None))]).
Proof.
  intros Huser Hpos Hlow. unfold transfer_points. rewrite Huser.
  rewrite bool_decide_false by lia. cbv zeta.
  rewrite (refresh_points_get _ _ _ Huser). cbn [default id set_points u_points].
  by rewrite bool_decide_true.
Qed.

(* No live session for the recipient: one of the two "not found" errors. *)
Lemma transfer_points_recipient_offline s sock targetEmail amount user :
  JsMap.get (onlineUsers s) sock = Some user →
  0 < amount →
  amount ≤ getUserPoints (db s) (u_userId user) →
  (∀ target, emailToSocketId s !! targetEmail = Some target →
     target ≠ sock ∧ JsMap.get (onlineUsers s) target = None) →
  ∃ reason,
    (reason = TargetNotFound ∨ reason = TargetOffline) ∧
    transfer_points s sock targetEmail amount
    = (refresh_points s sock user, [Emit (ToSocket sock) (error reason)]).
Proof.
  intros Huser Hpos Hfunds Hoff. unfold transfer_points. rewrite Huser.
  rewrite bool_decide_false by lia. cbv zeta.
  rewrite (refresh_points_get _ _ _ Huser). cbn [default id set_points u_points].
  rewrite bool_decide_false by lia.
  rewrite refresh_points_index.
  destruct (emailToSocketId s !! targetEmail) as [target|] eqn:Hidx;
    [|exists TargetNotFound; split; [by left | done]].
  destruct (Hoff target eq_refl) as [Hne Hnone].
  case_bool_decide; [exists TargetNotFound; split; [by left | done]|].
  rewrite refresh_points_get_ne by done. rewrite Hnone.
  exists TargetOffline. split; [by right | done].
Qed.

(* The state and the emits of the last part of the handler, for two
   different sessions: [from] and [to] are the ledger's balances of the two
   accounts, moved by [amount]. *)
Lemma complete_transfer_two s1 sock targetSocketId sender1 target0 amount :
  JsMap.get (onlineUsers s1) sock = Some sender1 →
  JsMap.get (onlineUsers s1) targetSocketId = Some target0 →
  sock ≠ targetSocketId →
  let from := u_points sender1 - amount in
  let to := getUserPoints (db s1) (u_userId target0) + amount in
  let s3 := (complete_transfer s1 sock targetSocketId sender1 target0 amount).1 in
  JsMap.get (onlineUsers s3) sock = Some (set_points sender1 from) ∧
  JsMap.get (onlineUsers s3) targetSocketId = Some (set_points target0 to) ∧
  db s3
  = updateUserPoints (updateUserPoints (db s1) (u_userId sender1) from)
      (u_userId target0) to ∧
  (complete_transfer s1 sock targetSocketId sender1 target0 amount).2
  = [Emit (ToSocket sock)
       (transfer_success (u_username target0) amount
          (user_info (set_points sender1 from)));
     Emit (IoTo targetSocketId)
       (points_received (u_username sender1) amount
          (user_info (set_points target0 to)));
     Emit IoAll (online_users_updated (getOnlineUsersList s3))].
Proof.
  intros Hsender Htarget Hne. cbv zeta. unfold complete_transfer.
  set (s2 := refresh_points s1 targetSocketId target0).
  assert (Ht2 : JsMap.get (onlineUsers s2) targetSocketId
    = Some (set_points target0 (getUserPoints (db s1) (u_userId target0))))
    by (by apply refresh_points_get).
  assert (Hs2 : JsMap.get (onlineUsers s2) sock = Some sender1).
  { unfold s2. rewrite refresh_points_get_ne by done. exact Hsender. }
  assert (Hdb2 : db s2 = db s1) by apply refresh_points_db.
  cbn [fst snd onlineUsers db]. rewrite Hs2, Ht2, Hdb2.
  cbn [default id set_points u_points u_userId u_username u_email].
  unfold assign_points. rewrite Hs2.
  rewrite (jsmap_get_set_ne _ sock targetSocketId) by done. rewrite Ht2.
  rewrite jsmap_get_set_eq.
  rewrite (jsmap_get_set_ne _ targetSocketId sock) by done.
  rewrite jsmap_get_set_eq.
  cbn [default id set_points u_points u_userId u_username u_email].
  done.
Qed.

(* Two different sessions of two different accounts: the sender's balance
   goes down by [amount] and the recipient's up by [amount], in the ledger
   and in both caches, and both parties are notified before the roster is
   sent to everyone. *)
Lemma transfer_points_between_accounts s sock targetEmail amount
    sender targetSocketId target :
  JsMap.get (onlineUsers s) sock = Some sender →
  0 < amount →
  amount ≤ getUserPoints (db s) (u_userId sender) →
  emailToSocketId s !! targetEmail = Some targetSocketId →
  targetSocketId ≠ EmptyString →
  JsMap.get (onlineUsers s) targetSocketId = Some target →
  sock ≠ targetSocketId →
  u_userId sender ≠ u_userId target →
  is_Some (db s !! u_userId target) →
  let s' := (transfer_points s sock targetEmail amount).1 in
  let from := getUserPoints (db s) (u_userId sender) - amount in
  let to := getUserPoints (db s) (u_userId target) + amount in
  getUserPoints (db s') (u_userId sender) = from ∧
  getUserPoints (db s') (u_userId target) = to ∧
  cached_points s' sock = from ∧
  cached_points s' targetSocketId = to ∧
  (transfer_points s sock targetEmail amount).2
  = [Emit (ToSocket sock)
       (transfer_success (u_username target) amount
          (mkUserInfo (u_userId sender) (u_email sender) (u_username sender)
             from));
     Emit (IoTo targetSocketId)
       (points_received (u_username sender) amount
          (mkUserInfo (u_userId target) (u_email target) (u_username target)
             to));
     Emit IoAll (online_users_updated (getOnlineUsersList s'))].
Proof.
  intros Hsender Hpos Hfunds Hidx Hnonempty Htarget Hsock Hacc Hrow.
  assert (Hrow' : is_Some (db s !! u_userId sender))
    by (apply getUserPoints_nonzero; lia).
  cbv zeta. unfold transfer_points. rewrite Hsender.
  rewrite bool_decide_false by lia. cbv zeta.
  rewrite (refresh_points_get _ _ _ Hsender). cbn [default id].
  rewrite bool_decide_false by (simpl; lia).
  rewrite refresh_points_index, Hidx.
  rewrite bool_decide_false by done.
  rewrite refresh_points_get_ne by done. rewrite Htarget.
  set (s1 := refresh_points s sock sender).
  set (sender1 := set_points sender (getUserPoints (db s) (u_userId sender))).
  assert (Hsender1 : JsMap.get (onlineUsers s1) sock = Some sender1)
    by (by apply refresh_points_get).
  assert (Htarget1 : JsMap.get (onlineUsers s1) targetSocketId = Some target).
  { unfold s1. by rewrite refresh_points_get_ne. }
  assert (Hdb1 : db s1 = db s) by apply refresh_points_db.
  destruct (complete_transfer_two s1 sock targetSocketId sender1 target amount
              Hsender1 Htarget1 Hsock) as (Hs3 & Ht3 & Hdb3 & Hout).
  rewrite Hout. unfold cached_points. rewrite Hs3, Ht3, Hdb3, Hdb1.
  cbn [set_points sender1 u_points u_userId u_email u_username user_info].
  split_and!; try done.
  - rewrite getUserPoints_update_ne by done.
    by rewrite getUserPoints_update_eq.
  - rewrite getUserPoints_update_eq; [done|].
    unfold updateUserPoints. destruct Hrow as [row Hrow].
    rewrite lookup_alter_ne by done. by eexists.
Qed.

(** * The memory-only server *)

(* It creates the room whatever the balance of the requester. *)
Lemma memory_only_create_room_unchecked s sock gameType newId user :
  JsMap.get (MemoryOnly.users s) sock = Some user →
  JsMap.get (MemoryOnly.m_rooms (MemoryOnly.create_room s sock gameType newId).1)
    newId
  = Some (mkRoom newId gameType sock [sock] waiting (bet_of gameType) None).
Proof.
  intros Huser. unfold MemoryOnly.create_room. rewrite Huser; simpl.
  apply jsmap_get_set_eq.
Qed.

(* A transfer to oneself takes the amount away and gives it back. *)
Lemma memory_only_self_transfer :
  MemoryOnly.users
    (MemoryOnly.transfer_points MemoryOnly.m_alice_online "s1" "alice" 100).1
  = [("s1"%string, MemoryOnly.mkUser "s1" "alice" 1000)].
Proof. vm_compute. reflexivity. Qed.

(* An accepted login stores the session under the name it was checked
   against. *)
Lemma memory_only_login_accepted s sock username password online rs :
  (MemoryOnly.login s sock username password).2 !! 0%nat
  = Some (MemoryOnly.MEmit (ToSocket sock)
            (MemoryOnly.m_login_success
               (MemoryOnly.mkUser sock username MemoryOnly.INITIAL_POINTS)
               online rs)) →
  MemoryOnly.usernameToSocketId s !! username = None ∧
  MemoryOnly.usernameToSocketId (MemoryOnly.login s sock username password).1
    !! username = Some sock ∧
  JsMap.get (MemoryOnly.users (MemoryOnly.login s sock username password).1) sock
  = Some (MemoryOnly.mkUser sock username MemoryOnly.INITIAL_POINTS).
Proof.
  unfold MemoryOnly.login, MemoryOnly.isUsernameTaken.
  case_bool_decide; [done|].
  case_bool_decide as Htaken; [done|].
  case_bool_decide; [done|]. simpl. intros _. split_and!.
  - by apply eq_None_not_Some.
  - apply lookup_insert_eq.
  - apply jsmap_get_set_eq.
Qed.

(** * One session per account, for consistent logins *)

Lemma points_only_refl ou : points_only ou ou.
Proof. intros sock u Hget. by exists u. Qed.

Lemma points_only_trans ou1 ou2 ou3 :
  points_only ou1 ou2 → points_only ou2 ou3 → points_only ou1 ou3.
Proof.
  intros H12 H23 sock u3 Hget.
  destruct (H23 sock u3 Hget) as (u2 & Hget2 & He2 & Hi2).
  destruct (H12 sock u2 Hget2) as (u1 & Hget1 & He1 & Hi1).
  exists u1. split_and!; congruence.
Qed.

Lemma points_only_set ou key u p :
  JsMap.get ou key = Some u →
  points_only ou (JsMap.set ou key (set_points u p)).
Proof.
  intros Hkey sock u' Hget. rewrite jsmap_get_set in Hget.
  destruct (decide (key = sock)) as [<-|Hne].
  - injection Hget as <-. by exists u.
  - by exists u'.
Qed.

Lemma points_only_assign ou key p : points_only ou (assign_points ou key p).
Proof.
  unfold assign_points.
  destruct (JsMap.get ou key) as [u|] eqn:Hkey.
  - by apply points_only_set.
  - apply points_only_refl.
Qed.

Lemma points_only_refresh s key user :
  points_only (onlineUsers s) (onlineUsers (refresh_points s key user)).
Proof.
  unfold refresh_points. case_bool_decide; simpl.
  - apply points_only_assign.
  - apply points_only_refl.
Qed.

Lemma rows_kept_refl d : rows_kept d d.
Proof. intros k row Hrow. by exists row. Qed.

Lemma rows_kept_trans d1 d2 d3 :
  rows_kept d1 d2 → rows_kept d2 d3 → rows_kept d1 d3.
Proof.
  intros H12 H23 k row Hrow.
  destruct (H12 k row Hrow) as (row2 & Hrow2 & He2).
  destruct (H23 k row2 Hrow2) as (row3 & Hrow3 & He3).
  exists row3. split; congruence.
Qed.

Lemma rows_kept_update d userId v : rows_kept d (updateUserPoints d userId v).
Proof.
  intros k row Hrow. unfold updateUserPoints.
  destruct (decide (userId = k)) as [->|Hne].
  - rewrite lookup_alter_eq, Hrow. by eexists.
  - rewrite lookup_alter_ne by done. by exists row.
Qed.

(* No row has an id above the one the fold computes. *)
Lemma next_rowid_fresh (d : gmap Z DbUser) : d !! next_rowid d = None.
Proof.
  unfold next_rowid.
  assert (Hbound : ∀ k, is_Some (d !! k) →
            k ≤ map_fold (λ k _ acc, Z.max k acc) 0 d).
  { induction d as [|k row d Hfresh Hfold IH] using map_first_key_ind.
    - intros k [row Hrow]. by rewrite lookup_empty in Hrow.
    - intros k' Hk'. rewrite map_fold_insert_first_key by done.
      rewrite lookup_insert in Hk'. destruct (decide (k = k')) as [->|Hne].
      + lia.
      + specialize (IH k' Hk'). lia. }
  destruct (d !! (1 + map_fold (λ k _ acc, Z.max k acc) 0 d)) eqn:Hrow;
    [|done].
  specialize (Hbound _ (mk_is_Some _ _ Hrow)). lia.
Qed.

Lemma rows_kept_register d email username :
  rows_kept d (registerUser d email username).1.
Proof.
  unfold registerUser. repeat case_bool_decide; simpl;
    try apply rows_kept_refl.
  intros k row Hrow. exists row. split; [|done].
  rewrite lookup_insert_ne; [done|].
  intros <-. by rewrite next_rowid_fresh in Hrow.
Qed.

Lemma settle_entry_identities acc entry :
  points_only acc.1.1 (settle_entry acc entry).1.1 ∧
  rows_kept acc.1.2 (settle_entry acc entry).1.2.
Proof.
  destruct acc as [[ou d] byUserId]. unfold settle_entry; simpl.
  destruct (JsMap.get ou entry.1) as [player|] eqn:Hplayer; simpl.
  - split; [by apply points_only_set | apply rows_kept_update].
  - split; [apply points_only_refl | apply rows_kept_refl].
Qed.

Lemma settle_identities ou d changes :
  points_only ou (settle ou d changes).1.1 ∧
  rows_kept d (settle ou d changes).1.2.
Proof.
  unfold settle. generalize (∅ : gmap Z Z). revert ou d.
  induction changes as [|entry changes IH]; intros ou d byUserId;
    cbn [foldl].
  - split; [apply points_only_refl | apply rows_kept_refl].
  - pose proof (settle_entry_identities (ou, d, byUserId) entry) as [Hou Hd].
    destruct (settle_entry (ou, d, byUserId) entry) as [[ou1 d1] by1].
    destruct (IH ou1 d1 by1) as [Hou' Hd']. split.
    + by eapply points_only_trans.
    + by eapply rows_kept_trans.
Qed.

(* What every handler but [login] and [disconnect] does to the sessions, the
   index and the table. *)
Lemma handle_identities s ev :
  (∀ sock userId email, ev ≠ EvLogin sock userId email) →
  (∀ sock, ev ≠ EvDisconnect sock) →
  points_only (onlineUsers s) (onlineUsers (handle s ev).1) ∧
  emailToSocketId (handle s ev).1 = emailToSocketId s ∧
  rows_kept (db s) (db (handle s ev).1).
Proof.
  intros Hlogin Hdisc.
  destruct ev as [sock userId email | sock gameType newId
    | sock roomId | sock roomId choice | sock targetEmail amount | sock
    | email username]; cbn [handle].
  - by destruct (Hlogin sock userId email).
  - unfold create_room. repeat case_match; cbn [fst];
      unfold set_rooms; cbn [onlineUsers emailToSocketId db];
      rewrite ?refresh_points_index, ?refresh_points_db;
      split_and!; try done;
      try apply points_only_refresh; try apply points_only_refl;
      apply rows_kept_refl.
  - unfold join_room. repeat case_match; cbn [fst];
      unfold set_rooms; cbn [onlineUsers emailToSocketId db];
      rewrite ?refresh_points_index, ?refresh_points_db;
      split_and!; try done;
      try apply points_only_refresh; try apply points_only_refl;
      apply rows_kept_refl.
  - unfold rps_choice.
    destruct (JsMap.get (rooms s) roomId) as [room|];
      [|split_and!; [apply points_only_refl | done | apply rows_kept_refl]].
    repeat (case_match;
      try (split_and!; [apply points_only_refl | done | apply rows_kept_refl])).
    unfold resolve_round.
    repeat (case_match;
      try (split_and!; [apply points_only_refl | done | apply rows_kept_refl])).
    all: rename select (settle _ _ _ = _) into Hsettle.
    all: match type of Hsettle with
         | settle ?ou ?d ?ch = _ =>
             pose proof (settle_identities ou d ch) as [Hou Hd];
             rewrite Hsettle in Hou, Hd
         end.
    all: by split_and!.
  - unfold transfer_points. repeat case_match; cbn [fst];
      rewrite ?refresh_points_index, ?refresh_points_db;
      try (split_and!; try done;
           try apply points_only_refresh; try apply points_only_refl;
           apply rows_kept_refl).
    unfold complete_transfer; cbn [fst onlineUsers emailToSocketId db].
    rewrite !refresh_points_index, !refresh_points_db. split_and!; [|done|].
    + eapply points_only_trans; [apply points_only_refresh|].
      eapply points_only_trans; [apply points_only_refresh|].
      eapply points_only_trans; apply points_only_assign.
    + eapply rows_kept_trans; apply rows_kept_update.
  - by destruct (Hdisc sock).
  - cbn [fst onlineUsers emailToSocketId db]. split_and!;
      [apply points_only_refl | done | apply rows_kept_register].
Qed.

Lemma handle_consistent_invariant s ev :
  consistent_login s ev →
  index_covers_sessions s ∧ sessions_match_rows s →
  index_covers_sessions (handle s ev).1 ∧ sessions_match_rows (handle s ev).1.
Proof.
  intros Hev [Hidx Hrows].
  destruct ev as [sock userId email | | | | | sock | ].
  2-5, 7: (
    lazymatch goal with
    | |- context [handle ?s0 ?e] =>
        destruct (handle_identities s0 e) as (Hou & Hindex & Hdb);
        [intros ???; discriminate | intros ?; discriminate |]
    end;
    split; intros sk u' Hget;
    destruct (Hou sk u' Hget) as (u & Hu & Hemail & Hid);
    [rewrite Hindex, Hemail; by apply Hidx
    |destruct (Hrows sk u Hu) as (row & Hrow & Hrowmail);
     destruct (Hdb _ _ Hrow) as (row' & Hrow' & Hmail');
     exists row'; split; congruence]).
  - (* login *)
    cbn [handle]. unfold login, getUserById.
    destruct (db s !! userId) as [dbUser|] eqn:Hdb; [|done].
    case_bool_decide as Htaken; [done|].
    case_bool_decide; [done|]. cbn [fst onlineUsers emailToSocketId db].
    pose proof (Hev dbUser Hdb) as Hmail. cbn in Hmail.
    apply eq_None_not_Some in Htaken.
    split; intros sk u Hget;
      cbn [fst onlineUsers emailToSocketId db] in Hget |- *;
      rewrite jsmap_get_set in Hget;
      destruct (decide (sock = sk)) as [<-|Hne].
    + injection Hget as <-. cbn [u_email]. rewrite Hmail.
      apply lookup_insert_eq.
    + rewrite lookup_insert_ne; [exact (Hidx sk u Hget)|].
      intros Heq. specialize (Hidx sk u Hget). congruence.
    + injection Hget as <-. by exists dbUser.
    + exact (Hrows sk u Hget).
  - (* disconnect *)
    cbn [handle]. unfold disconnect.
    destruct (JsMap.get (onlineUsers s) sock) as [user|] eqn:Huser; [|done].
    destruct (leave_rooms sock (u_username user) (rooms s)) as [rs notices].
    cbn [fst onlineUsers emailToSocketId db].
    split; intros sk u Hget;
      cbn [fst onlineUsers emailToSocketId db] in Hget |- *;
      rewrite jsmap_get_delete in Hget;
      destruct (decide (sock = sk)) as [<-|Hne]; try done.
    + rewrite lookup_delete_ne; [exact (Hidx sk u Hget)|].
      intros Heq. pose proof (Hidx sk u Hget) as Hsk.
      pose proof (Hidx sock user Huser) as Hsock. congruence.
    + exact (Hrows sk u Hget).
Qed.

Lemma consistent_invariant s :
  reachable_consistently s →
  index_covers_sessions s ∧ sessions_match_rows s.
Proof.
  induction 1 as [d|s ev Hreach IH Hev].
  - split; intros sock u Hget; discriminate.
  - by apply handle_consistent_invariant.
Qed.

(* As long as every [login] carries the e-mail of its account, an account
   never has two live sessions, and a further [login] for an account that
   has one is rejected with [AlreadyOnline] and changes nothing. *)
Lemma one_session_for_consistent_logins s :
  reachable_consistently s →
  (∀ sock1 sock2 u1 u2,
     JsMap.get (onlineUsers s) sock1 = Some u1 →
     JsMap.get (onlineUsers s) sock2 = Some u2 →
     u_userId u1 = u_userId u2 → sock1 = sock2) ∧
  (∀ sock0 u sock email,
     JsMap.get (onlineUsers s) sock0 = Some u →
     consistent_login s (EvLogin sock (u_userId u) email) →
     login s sock (u_userId u) email
     = (s, [Emit (ToSocket sock) (login_error AlreadyOnline)])).
Proof.
  intros Hreach. destruct (consistent_invariant s Hreach) as [Hidx Hrows].
  split.
  - intros sock1 sock2 u1 u2 H1 H2 Hid.
    destruct (Hrows sock1 u1 H1) as (row1 & Hrow1 & Hmail1).
    destruct (Hrows sock2 u2 H2) as (row2 & Hrow2 & Hmail2).
    pose proof (Hidx sock1 u1 H1) as Hi1.
    pose proof (Hidx sock2 u2 H2) as Hi2.
    rewrite Hid in Hrow1. congruence.
  - intros sock0 u sock email Hu Hev.
    destruct (Hrows sock0 u Hu) as (row & Hrow & Hmail).
    pose proof (Hidx sock0 u Hu) as Hi.
    apply (login_already_online s sock (u_userId u) email row Hrow).
    rewrite <- (Hev row Hrow), Hmail. by eexists.
Qed.

(** * Cache and ledger, for consistent logins *)

(* Writing a new balance for the session under [key], to the cache and to
   the ledger, keeps the two in step when no other session belongs to the
   same account. *)
Lemma write_through ou d key u p :
  one_session_per_account ou →
  cache_is_ledger ou d →
  JsMap.get ou key = Some u →
  one_session_per_account (JsMap.set ou key (set_points u p)) ∧
  cache_is_ledger (JsMap.set ou key (set_points u p))
    (updateUserPoints d (u_userId u) p).
Proof.
  intros Hone Hcache Hkey. split.
  - intros sock1 sock2 u1 u2 H1 H2 Hid.
    rewrite jsmap_get_set in H1, H2.
    destruct (decide (key = sock1)) as [<-|Hne1],
             (decide (key = sock2)) as [<-|Hne2]; simplify_eq/=; try done.
    + by apply (Hone key sock2 u u2).
    + by apply (Hone sock1 key u1 u).
    + by apply (Hone sock1 sock2 u1 u2).
  - intros sock u' Hget. rewrite jsmap_get_set in Hget.
    destruct (decide (key = sock)) as [<-|Hne].
    + injection Hget as <-. cbn [set_points u_userId u_points].
      destruct (Hcache key u Hkey) as [Hrow _]. split.
      * unfold updateUserPoints. rewrite lookup_alter_eq.
        destruct Hrow as [row ->]. by eexists.
      * by apply getUserPoints_update_eq.
    + destruct (Hcache sock u' Hget) as [Hrow Hpoints].
      assert (Hid : u_userId u ≠ u_userId u').
      { intros Hid. by apply Hne, (Hone key sock u u'). }
      split.
      * unfold updateUserPoints. by rewrite lookup_alter_ne.
      * by rewrite getUserPoints_update_ne.
Qed.

Lemma settle_write_through ou d changes :
  one_session_per_account ou →
  cache_is_ledger ou d →
  one_session_per_account (settle ou d changes).1.1 ∧
  cache_is_ledger (settle ou d changes).1.1 (settle ou d changes).1.2.
Proof.
  unfold settle. generalize (∅ : gmap Z Z). revert ou d.
  induction changes as [|entry changes IH]; intros ou d byUserId Hone Hcache;
    cbn [foldl]; [done|].
  unfold settle_entry at 2 4 6.
  destruct (JsMap.get ou entry.1) as [player|] eqn:Hplayer.
  - destruct (write_through ou d entry.1 player (u_points player + entry.2)
                Hone Hcache Hplayer) as [Hone' Hcache'].
    by apply IH.
  - by apply IH.
Qed.

(* With cache and ledger in step the refresh changes nothing. *)
Lemma refresh_points_coherent s key user :
  cache_is_ledger (onlineUsers s) (db s) →
  JsMap.get (onlineUsers s) key = Some user →
  refresh_points s key user = s.
Proof.
  intros Hcache Hkey. unfold refresh_points.
  destruct (Hcache key user Hkey) as [_ Hpoints].
  by rewrite bool_decide_false by (by intros []).
Qed.

Lemma one_session_from_index s :
  index_covers_sessions s → sessions_match_rows s →
  one_session_per_account (onlineUsers s).
Proof.
  intros Hidx Hrows sock1 sock2 u1 u2 H1 H2 Hid.
  destruct (Hrows sock1 u1 H1) as (row1 & Hrow1 & Hmail1).
  destruct (Hrows sock2 u2 H2) as (row2 & Hrow2 & Hmail2).
  pose proof (Hidx sock1 u1 H1) as Hi1.
  pose proof (Hidx sock2 u2 H2) as Hi2.
  rewrite Hid in Hrow1. congruence.
Qed.

Lemma complete_transfer_write_through s1 sock targetSocketId sender1 target0
    amount :
  one_session_per_account (onlineUsers s1) →
  cache_is_ledger (onlineUsers s1) (db s1) →
  JsMap.get (onlineUsers s1) sock = Some sender1 →
  JsMap.get (onlineUsers s1) targetSocketId = Some target0 →
  let s3 := (complete_transfer s1 sock targetSocketId sender1 target0 amount).1 in
  cache_is_ledger (onlineUsers s3) (db s3).
Proof.
  intros Hone Hcache Hsender Htarget. cbv zeta. unfold complete_transfer.
  rewrite (refresh_points_coherent s1 targetSocketId target0 Hcache Htarget).
  rewrite Hsender, Htarget. cbn [default id fst onlineUsers db].
  unfold assign_points at 2. rewrite Hsender.
  destruct (write_through _ _ sock sender1 (u_points sender1 - amount)
              Hone Hcache Hsender) as [Hone1 Hcache1].
  unfold assign_points.
  destruct (decide (sock = targetSocketId)) as [<-|Hne].
  - rewrite jsmap_get_set_eq. assert (target0 = sender1) as -> by congruence.
    apply (write_through _ _ sock
             (set_points sender1 (u_points sender1 - amount))
             (u_points sender1 + amount) Hone1 Hcache1).
    apply jsmap_get_set_eq.
  - rewrite jsmap_get_set_ne by done. rewrite Htarget.
    apply (write_through _ _ targetSocketId target0
             (u_points target0 + amount) Hone1 Hcache1).
    by rewrite jsmap_get_set_ne.
Qed.

Lemma handle_cache_is_ledger s ev :
  consistent_login s ev →
  index_covers_sessions s → sessions_match_rows s →
  cache_is_ledger (onlineUsers s) (db s) →
  cache_is_ledger (onlineUsers (handle s ev).1) (db (handle s ev).1).
Proof.
  intros Hev Hidx Hrows Hcache.
  pose proof (one_session_from_index s Hidx Hrows) as Hone.
  destruct ev as [sock userId email | sock gameType newId
    | sock roomId | sock roomId choice | sock targetEmail amount | sock
    | email username]; cbn [handle].
  - unfold login, getUserById.
    destruct (db s !! userId) as [dbUser|] eqn:Hdb; [|done].
    repeat case_bool_decide; try done. cbn [fst onlineUsers db].
    intros sk u Hget. rewrite jsmap_get_set in Hget.
    destruct (decide (sock = sk)) as [<-|Hne].
    + injection Hget as <-. cbn [u_userId u_points]. split; [by eexists|].
      unfold getUserPoints. by rewrite Hdb.
    + exact (Hcache sk u Hget).
  - unfold create_room.
    destruct (JsMap.get (onlineUsers s) sock) as [user0|] eqn:Huser; [|done].
    rewrite (refresh_points_coherent s sock user0 Hcache Huser).
    by repeat case_match.
  - unfold join_room.
    destruct (JsMap.get (onlineUsers s) sock) as [user0|] eqn:Huser; [|done].
    rewrite (refresh_points_coherent s sock user0 Hcache Huser).
    by repeat case_match.
  - unfold rps_choice.
    destruct (JsMap.get (rooms s) roomId) as [room|]; [|done].
    repeat (case_match; try done).
    unfold resolve_round. repeat (case_match; try done).
    all: rename select (settle _ _ _ = _) into Hsettle.
    all: match type of Hsettle with
         | settle ?ou ?d ?ch = _ =>
             destruct (settle_write_through ou d ch Hone Hcache) as [_ Hc];
             rewrite Hsettle in Hc
         end.
    all: done.
  - unfold transfer_points.
    destruct (JsMap.get (onlineUsers s) sock) as [sender0|] eqn:Hsender;
      [|done].
    case_bool_decide; [done|]. cbv zeta.
    rewrite (refresh_points_coherent s sock sender0 Hcache Hsender).
    rewrite Hsender. cbn [default id].
    repeat (case_match; try done).
    by apply complete_transfer_write_through.
  - unfold disconnect.
    destruct (JsMap.get (onlineUsers s) sock) as [user|] eqn:Huser; [|done].
    destruct (leave_rooms sock (u_username user) (rooms s)) as [rs notices].
    cbn [fst onlineUsers db]. intros sk u Hget.
    rewrite jsmap_get_delete in Hget.
    destruct (decide (sock = sk)); [done|]. exact (Hcache sk u Hget).
  - cbn [fst onlineUsers db]. intros sk u Hget.
    destruct (Hcache sk u Hget) as [[row Hrow] Hpoints].
    unfold registerUser. repeat case_bool_decide; cbn [fst];
      try (split; [by eexists | done]).
    assert (Hfresh : next_rowid (db s) ≠ u_userId u).
    { intros Heq. rewrite <- Heq, next_rowid_fresh in Hrow. done. }
    unfold getUserPoints. rewrite lookup_insert_ne by done.
    split; [by eexists | done].
Qed.

(* As long as every [login] carries the e-mail of its account, every cached
   balance is the ledger's, in every state: the settlement, which does not
   refresh, then acts on the value the ledger holds. *)
Lemma cache_is_ledger_for_consistent_logins s :
  reachable_consistently s → cache_is_ledger (onlineUsers s) (db s).
Proof.
  induction 1 as [d|s ev Hreach IH Hev].
  - intros sock u Hget. discriminate.
  - destruct (consistent_invariant s Hreach) as [Hidx Hrows].
    by apply handle_cache_is_ledger.
Qed.

(** * The scenarios of the specification, replayed *)

(* A creates a room, B joins: the match starts. *)
Example scenario_match_started :
  room_status (run (initial two_accounts)
                 [EvLogin "s1" 1 "a@x"; EvLogin "s2" 2 "b@x";
                  EvCreateRoom "s1" "rps" "r1"]) "r1" = Some waiting ∧
  room_status full_room "r1" = Some playing ∧
  (handle (run (initial two_accounts)
             [EvLogin "s1" 1 "a@x"; EvLogin "s2" 2 "b@x";
              EvCreateRoom "s1" "rps" "r1"]) (EvJoinRoom "s2" "r1")).2 !! 1%nat
  = Some (Emit (IoTo "r1")
            (game_started
               (mkRoom "r1" "rps" "s1" ["s1"; "s2"] playing 100 None))).
Proof. split_and!; vm_compute; reflexivity. Qed.

(* Rock against scissors: 1100 and 900 points, the room is finished. *)
Example scenario_decisive_round :
  cached_points decisive_round "s1" = 1100 ∧
  cached_points decisive_round "s2" = 900 ∧
  getUserPoints (db decisive_round) 1 = 1100 ∧
  getUserPoints (db decisive_round) 2 = 900 ∧
  room_status decisive_round "r1" = Some finished.
Proof. split_and!; vm_compute; reflexivity. Qed.

(* Rock against rock: a draw, nothing changes hands, the moves are cleared
   and the room keeps playing. *)
Example scenario_draw :
  let s := run host_moved [EvRpsChoice "s2" "r1" rock] in
  cached_points s "s1" = 1000 ∧ cached_points s "s2" = 1000 ∧
  room_moves s "r1" = Some ∅ ∧ room_status s "r1" = Some playing.
Proof. cbv zeta. split_and!; vm_compute; reflexivity. Qed.

(* A leaves in the middle of the match: B stays alone in a waiting room and
   is told; C can then join. *)
Example scenario_disconnect_then_join :
  let s := (disconnect full_room_and_guest "s1").1 in
  r_players <$> JsMap.get (rooms s) "r1" = Some ["s2"] ∧
  room_status s "r1" = Some waiting ∧
  (disconnect full_room_and_guest "s1").2 !! 0%nat
  = Some (Emit (IoTo "r1")
            (player_left_room
               (mkRoom "r1" "rps" "s1" ["s2"] playing 100 None) "alice")) ∧
  r_players <$> JsMap.get (rooms (join_room s "s3" "r1").1) "r1"
  = Some ["s2"; "s3"] ∧
  room_status (join_room s "s3" "r1").1 "r1" = Some playing.
Proof. cbv zeta. split_and!; vm_compute; reflexivity. Qed.

(* The first disconnect tells the others; the second is silent. *)
Example scenario_disconnect_twice :
  length (disconnect full_room "s1").2 = 4%nat ∧
  (disconnect (disconnect full_room "s1").1 "s1").2 = [].
Proof. split; vm_compute; reflexivity. Qed.

(** * More about the handlers *)

(** ** Maps that carry their keys *)

Lemma keys_set_present {V : Type} (m : jsmap V) k v :
  k ∈ JsMap.keys m → JsMap.keys (JsMap.set m k v) = JsMap.keys m.
Proof.
  unfold JsMap.keys. induction m as [|[k' v'] m IH]; csimpl.
  - intros Hin. by apply elem_of_nil in Hin.
  - intros Hin. destruct (decide (k' = k)) as [->|Hne]; csimpl; [done|].
    apply elem_of_cons in Hin as [->|Hin]; [done|]. by rewrite IH.
Qed.

Lemma keys_set_absent {V : Type} (m : jsmap V) k v :
  k ∉ JsMap.keys m → JsMap.keys (JsMap.set m k v) = JsMap.keys m ++ [k].
Proof.
  unfold JsMap.keys. induction m as [|[k' v'] m IH]; csimpl; [done|].
  intros Hnotin. apply not_elem_of_cons in Hnotin as [Hne Hnotin].
  rewrite decide_False by done. csimpl. by rewrite IH.
Qed.

Lemma values_set_subset {V : Type} (m : jsmap V) k v kv :
  kv ∈ JsMap.set m k v → kv ∈ m ∨ kv = (k, v).
Proof.
  induction m as [|[k' v'] m IH]; simpl.
  - intros Hin. apply list_elem_of_singleton in Hin. by right.
  - destruct (decide (k' = k)) as [->|Hne]; intros Hin;
      apply elem_of_cons in Hin as [->|Hin].
    + by right.
    + left. by right.
    + left. by left.
    + destruct (IH Hin) as [?|?]; [left; by right | by right].
Qed.

Lemma elem_of_delete {V : Type} (m : jsmap V) k kv :
  kv ∈ JsMap.delete m k → kv ∈ m ∧ kv.1 ≠ k.
Proof.
  induction m as [|[k' v'] m IH]; simpl.
  - intros Hin. by apply elem_of_nil in Hin.
  - destruct (decide (k' = k)) as [->|Hne]; intros Hin.
    + destruct (IH Hin). split; [by right | done].
    + apply elem_of_cons in Hin as [->|Hin]; [split; [by left | done]|].
      destruct (IH Hin). split; [by right | done].
Qed.

Lemma keys_delete_sublist {V : Type} (m : jsmap V) k :
  sublist (JsMap.keys (JsMap.delete m k)) (JsMap.keys m).
Proof.
  unfold JsMap.keys. induction m as [|[k' v'] m IH]; csimpl; [done|].
  destruct (decide (k' = k)); csimpl.
  - by apply sublist_cons.
  - by apply sublist_skip.
Qed.

Lemma keyed_by_set {V : Type} (id_of : V → string) (m : jsmap V) k v :
  keyed_by id_of m → id_of v = k → keyed_by id_of (JsMap.set m k v).
Proof.
  intros [Hnodup Hids] Hid. split.
  - destruct (decide (k ∈ JsMap.keys m)) as [Hin|Hnotin].
    + by rewrite keys_set_present.
    + rewrite keys_set_absent by done. apply NoDup_app. split_and!; [done| |].
      * intros x Hx Hx'. apply list_elem_of_singleton in Hx'. by subst.
      * apply NoDup_singleton.
  - apply Forall_forall. intros kv Hin.
    destruct (values_set_subset m k v kv Hin) as [Hold| ->]; [|done].
    rewrite Forall_forall in Hids. by apply Hids.
Qed.

Lemma keyed_by_delete {V : Type} (id_of : V → string) (m : jsmap V) k :
  keyed_by id_of m → keyed_by id_of (JsMap.delete m k).
Proof.
  intros [Hnodup Hids]. split.
  - eapply sublist_NoDup; [done | apply keys_delete_sublist].
  - apply Forall_forall. intros kv Hin. apply elem_of_delete in Hin as [Hin _].
    rewrite Forall_forall in Hids. by apply Hids.
Qed.

Lemma keyed_by_get {V : Type} (id_of : V → string) (m : jsmap V) k v :
  keyed_by id_of m → JsMap.get m k = Some v → id_of v = k.
Proof.
  intros [_ Hids] Hget. apply jsmap_get_Some_elem_of in Hget.
  rewrite Forall_forall in Hids. apply (Hids (k, v) Hget).
Qed.

(* In a map without repeated keys every entry is the one [get] finds. *)
Lemma keyed_by_elem_of {V : Type} (id_of : V → string) (m : jsmap V) k v :
  keyed_by id_of m → (k, v) ∈ m → JsMap.get m k = Some v.
Proof.
  intros [Hnodup _]. unfold JsMap.keys in Hnodup.
  induction m as [|[k' v'] m IH]; csimpl in *.
  - intros Hin. by apply elem_of_nil in Hin.
  - apply NoDup_cons in Hnodup as [Hnotin Hnodup]. intros Hin.
    apply elem_of_cons in Hin as [[= -> ->]|Hin].
    + by rewrite decide_True.
    + rewrite decide_False; [by apply IH|].
      intros ->. apply Hnotin. apply list_elem_of_fmap. by exists (k, v).
Qed.

(** ** Handlers that only touch cached balances *)

Lemma same_sessions_refl ou : same_sessions ou ou.
Proof.
  unfold same_sessions. induction ou as [|a ou IH]; by constructor.
Qed.

Lemma same_sessions_sym ou ou' : same_sessions ou ou' → same_sessions ou' ou.
Proof.
  unfold same_sessions. induction 1 as [|a b ou ou' [Hk Hv] _ IH];
    by constructor.
Qed.

Lemma same_sessions_trans ou1 ou2 ou3 :
  same_sessions ou1 ou2 → same_sessions ou2 ou3 → same_sessions ou1 ou3.
Proof.
  unfold same_sessions. intros H12. revert ou3.
  induction H12 as [|a b ou1 ou2 [Hk Hv] _ IH]; intros ou3 H23;
    inversion H23 as [|b' c ou2' ou3' [Hk' Hv'] Htail]; subst;
    constructor; [split; congruence | by apply IH].
Qed.

Lemma same_sessions_set ou key u p :
  JsMap.get ou key = Some u →
  same_sessions ou (JsMap.set ou key (set_points u p)).
Proof.
  unfold same_sessions. induction ou as [|[k v] ou IH]; simpl; [done|].
  destruct (decide (k = key)) as [->|Hne].
  - intros [= ->]. constructor; [done|]. apply same_sessions_refl.
  - intros Hget. constructor; [done | by apply IH].
Qed.

Lemma same_sessions_assign ou key p : same_sessions ou (assign_points ou key p).
Proof.
  unfold assign_points. destruct (JsMap.get ou key) eqn:Hget.
  - by apply same_sessions_set.
  - apply same_sessions_refl.
Qed.

Lemma same_sessions_refresh s key user :
  same_sessions (onlineUsers s) (onlineUsers (refresh_points s key user)).
Proof.
  unfold refresh_points. case_bool_decide; simpl.
  - apply same_sessions_assign.
  - apply same_sessions_refl.
Qed.

Lemma same_sessions_settle ou d changes :
  same_sessions ou (settle ou d changes).1.1.
Proof.
  unfold settle. generalize (∅ : gmap Z Z). revert ou d.
  induction changes as [|entry changes IH]; intros ou d byUserId; cbn [foldl].
  - apply same_sessions_refl.
  - unfold settle_entry at 2.
    destruct (JsMap.get ou entry.1) as [player|] eqn:Hplayer; [|apply IH].
    eapply same_sessions_trans; [|apply IH]. by apply same_sessions_set.
Qed.

Lemma same_sessions_keys ou ou' :
  same_sessions ou ou' → JsMap.keys ou' = JsMap.keys ou.
Proof.
  unfold same_sessions, JsMap.keys. induction 1 as [|a b ou ou' [Hk _] _ IH];
    csimpl; [done|]. by rewrite Hk, IH.
Qed.

Lemma same_sessions_get ou ou' k u :
  same_sessions ou ou' → JsMap.get ou k = Some u →
  ∃ u', JsMap.get ou' k = Some u' ∧ set_points u 0 = set_points u' 0.
Proof.
  unfold same_sessions. induction 1 as [|[k1 v1] [k2 v2] ou ou' [Hk Hv] _ IH];
    simpl in *; [done|]. subst k2.
  destruct (decide (k1 = k)); [|done]. intros [= ->]. by exists v2.
Qed.

Lemma same_sessions_is_Some ou ou' k :
  same_sessions ou ou' →
  is_Some (JsMap.get ou' k) ↔ is_Some (JsMap.get ou k).
Proof.
  intros Hsame. split; intros [u Hu].
  - destruct (same_sessions_get ou' ou k u (same_sessions_sym _ _ Hsame) Hu)
      as (u' & Hu' & _). by eexists.
  - destruct (same_sessions_get ou ou' k u Hsame Hu) as (u' & Hu' & _).
    by eexists.
Qed.

Lemma same_sessions_keyed ou ou' :
  keyed_by u_id ou → same_sessions ou ou' → keyed_by u_id ou'.
Proof.
  intros [Hnodup Hids] Hsame. split.
  - by rewrite (same_sessions_keys ou ou').
  - unfold same_sessions in Hsame.
    induction Hsame as [|[k1 v1] [k2 v2] ou ou' [Hk Hv] _ IH]; [done|].
    csimpl in *. apply Forall_cons in Hids as [Hid Hids].
    apply NoDup_cons in Hnodup as [_ Hnodup].
    constructor; [|by apply IH]. simpl in *. subst k2.
    assert (u_id v2 = u_id v1) as ->; [|done].
    by apply (f_equal u_id) in Hv.
Qed.

(* Every handler but [login] and [disconnect] keeps the sessions and the
   e-mail index; it can only change cached balances. *)
Lemma handle_same_sessions s ev :
  (∀ sock userId email, ev ≠ EvLogin sock userId email) →
  (∀ sock, ev ≠ EvDisconnect sock) →
  same_sessions (onlineUsers s) (onlineUsers (handle s ev).1).
Proof.
  intros Hlogin Hdisc.
  destruct ev as [sock userId email | sock gameType newId
    | sock roomId | sock roomId choice | sock targetEmail amount | sock
    | email username]; cbn [handle].
  - by destruct (Hlogin sock userId email).
  - unfold create_room. repeat case_match; cbn [fst];
      unfold set_rooms; cbn [onlineUsers];
      first [apply same_sessions_refresh | apply same_sessions_refl].
  - unfold join_room. repeat case_match; cbn [fst];
      unfold set_rooms; cbn [onlineUsers];
      first [apply same_sessions_refresh | apply same_sessions_refl].
  - unfold rps_choice.
    destruct (JsMap.get (rooms s) roomId) as [room|];
      [|apply same_sessions_refl].
    repeat (case_match; try apply same_sessions_refl).
    unfold resolve_round.
    repeat (case_match; try apply same_sessions_refl).
    all: rename select (settle _ _ _ = _) into Hsettle.
    all: match type of Hsettle with
         | settle ?ou ?d ?ch = _ =>
             pose proof (same_sessions_settle ou d ch) as Hou;
             rewrite Hsettle in Hou
         end.
    all: done.
  - unfold transfer_points. repeat case_match; cbn [fst];
      try first [apply same_sessions_refresh | apply same_sessions_refl].
    unfold complete_transfer; cbn [fst onlineUsers].
    eapply same_sessions_trans; [apply same_sessions_refresh|].
    eapply same_sessions_trans; [apply same_sessions_refresh|].
    eapply same_sessions_trans; apply same_sessions_assign.
  - by destruct (Hdisc sock).
  - apply same_sessions_refl.
Qed.

Lemma all_found_set {V : Type} (P : V → Prop) (m : jsmap V) k v :
  all_found P m → P v → all_found P (JsMap.set m k v).
Proof.
  intros Hm Hv k' v' Hget. rewrite jsmap_get_set in Hget.
  destruct (decide (k = k')); [by simplify_eq | by eapply Hm].
Qed.

Lemma all_found_delete {V : Type} (P : V → Prop) (m : jsmap V) k :
  all_found P m → all_found P (JsMap.delete m k).
Proof.
  intros Hm k' v' Hget. rewrite jsmap_get_delete in Hget.
  destruct (decide (k = k')); [done | by eapply Hm].
Qed.

(** ** Sessions and rooms are stored under their own ids *)

Lemma leave_rooms_keyed sock username rs :
  keyed_by r_id rs → keyed_by r_id (leave_rooms sock username rs).1.
Proof.
  unfold leave_rooms. generalize (JsMap.keys rs). intros ks.
  generalize (@nil Effect). revert rs.
  induction ks as [|k ks IH]; intros rs out Hrs; cbn [foldl]; [done|].
  assert (Hstep : keyed_by r_id (leave_room sock username (rs, out) k).1).
  { unfold leave_room.
    destruct (JsMap.get rs k) as [room|] eqn:Hroom; [|done].
    pose proof (keyed_by_get r_id rs k room Hrs Hroom) as Hid.
    repeat case_bool_decide; cbn [fst]; try done.
    - apply keyed_by_delete, keyed_by_set; done.
    - apply keyed_by_set; done. }
  destruct (leave_room sock username (rs, out) k) as [rs1 out1].
  by apply IH.
Qed.

Lemma handle_rooms_keyed s ev :
  keyed_by r_id (rooms s) → keyed_by r_id (rooms (handle s ev).1).
Proof.
  intros Hrs. destruct ev as [sock userId email | sock gameType newId
    | sock roomId | sock roomId choice | sock targetEmail amount | sock
    | email username]; cbn [handle].
  - unfold login. repeat case_match; done.
  - unfold create_room. repeat case_match; cbn [fst]; unfold set_rooms;
      cbn [rooms]; rewrite ?refresh_points_rooms; try done.
    by apply keyed_by_set.
  - unfold join_room.
    destruct (JsMap.get (onlineUsers s) sock) as [user0|]; [|done].
    rewrite refresh_points_rooms.
    destruct (JsMap.get (rooms s) roomId) as [room|] eqn:Hroom;
      [|by cbn [fst]; rewrite refresh_points_rooms].
    pose proof (keyed_by_get r_id _ _ _ Hrs Hroom) as Hid.
    repeat case_bool_decide; cbn [fst]; unfold set_rooms; cbn [rooms];
      rewrite ?refresh_points_rooms; try done; by apply keyed_by_set.
  - unfold rps_choice.
    destruct (JsMap.get (rooms s) roomId) as [room|] eqn:Hroom; [|done].
    pose proof (keyed_by_get r_id _ _ _ Hrs Hroom) as Hid.
    case_bool_decide; [done|]. case_match; [done|].
    assert (Hrs1 : keyed_by r_id (JsMap.set (rooms s) roomId
      (set_gameData room
         (Some (<[sock:=choice]> (default ∅ (r_gameData room)))))))
      by (by apply keyed_by_set).
    repeat case_match; cbn [fst]; unfold set_rooms; cbn [rooms]; try done.
    unfold resolve_round.
    repeat case_match; cbn [fst]; unfold set_rooms; cbn [rooms]; try done;
      by apply keyed_by_set.
  - unfold transfer_points. repeat case_match; cbn [fst];
      rewrite ?complete_transfer_rooms, ?refresh_points_rooms; done.
  - unfold disconnect. case_match; [|done].
    pose proof (leave_rooms_keyed sock (u_username o) _ Hrs) as Hleave.
    by destruct (leave_rooms sock (u_username o) (rooms s)) as [rs notices].
  - done.
Qed.

Lemma handle_sessions_keyed s ev :
  keyed_by u_id (onlineUsers s) → keyed_by u_id (onlineUsers (handle s ev).1).
Proof.
  intros Hou. destruct ev as [sock userId email | | | | | sock | ].
  2-5, 7: (eapply same_sessions_keyed; [done|];
           apply handle_same_sessions; intros; discriminate).
  - cbn [handle]. unfold login. repeat case_match; cbn [fst onlineUsers];
      try done. by apply keyed_by_set.
  - cbn [handle]. unfold disconnect. case_match; [|done].
    destruct (leave_rooms _ _ _) as [rs notices]. cbn [fst onlineUsers].
    by apply keyed_by_delete.
Qed.

(** X1. In every reachable state each session is stored under the socket id
    it carries and each room under its own room id, and no key occurs twice
    in either map; so [rooms.delete(room.id)] removes the room at hand, and
    an entry of a map is what a lookup of its key returns. *)
Theorem stored_under_own_id s :
  reachable s →
  well_keyed s ∧
  (∀ sock u, (sock, u) ∈ onlineUsers s ↔ JsMap.get (onlineUsers s) sock = Some u) ∧
  (∀ k room, (k, room) ∈ rooms s ↔ JsMap.get (rooms s) k = Some room).
Proof.
  intros Hreach.
  assert (Hkeyed : well_keyed s).
  { induction Hreach as [d|s ev Hreach [Hou Hrs]].
    - split; split; constructor.
    - split; [by apply handle_sessions_keyed | by apply handle_rooms_keyed]. }
  split; [done|]. destruct Hkeyed as [Hou Hrs].
  split; intros k v; split;
    first [by apply (keyed_by_elem_of u_id) | by apply (keyed_by_elem_of r_id)
          | apply jsmap_get_Some_elem_of].
Qed.

Lemma stored_under_own_id_witness :
  reachable full_room ∧
  well_keyed full_room ∧
  (("r1"%string, mkRoom "r1" "rps" "s1" ["s1"; "s2"] playing 100 None)
     ∈ rooms full_room ↔
   JsMap.get (rooms full_room) "r1"
   = Some (mkRoom "r1" "rps" "s1" ["s1"; "s2"] playing 100 None)).
Proof.
  assert (Hreach : reachable full_room)
    by (apply reachable_run, reachable_initial).
  destruct (stored_under_own_id full_room Hreach) as (Hkeyed & _ & Hrooms).
  split_and!; [done | done | apply Hrooms].
Defined.

(** ** The capacity of the server *)

Lemma length_set_le {V : Type} (m : jsmap V) k v :
  (length (JsMap.set m k v) ≤ S (length m))%nat.
Proof.
  induction m as [|[k' v'] m IH]; simpl; [lia|].
  destruct (decide (k' = k)); simpl; lia.
Qed.

Lemma length_delete_le {V : Type} (m : jsmap V) k :
  (length (JsMap.delete m k) ≤ length m)%nat.
Proof.
  induction m as [|[k' v'] m IH]; simpl; [lia|].
  destruct (decide (k' = k)); simpl; lia.
Qed.

Lemma handle_capacity s ev :
  JsMap.size (onlineUsers s) ≤ MAX_ONLINE_USERS →
  JsMap.size (onlineUsers (handle s ev).1) ≤ MAX_ONLINE_USERS.
Proof.
  unfold JsMap.size. intros Hsize.
  destruct ev as [sock userId email | | | | | sock | ].
  2-5, 7: (
    lazymatch goal with
    | |- context [handle ?s0 ?e] =>
        assert (Hsame : same_sessions (onlineUsers s0) (onlineUsers (handle s0 e).1))
          by (apply handle_same_sessions; intros; discriminate)
    end;
    by rewrite <- (Forall2_length _ _ _ Hsame)).
  - cbn [handle]. unfold login, JsMap.size.
    repeat case_match; cbn [fst onlineUsers]; try done.
    rename select (bool_decide (MAX_ONLINE_USERS ≤ _) = false) into Hfree.
    apply bool_decide_eq_false_1 in Hfree.
    pose proof (length_set_le (onlineUsers s) sock
      (mkOnlineUser sock userId (d_email d) (d_username d) (d_points d))).
    unfold MAX_ONLINE_USERS in *. lia.
  - cbn [handle]. unfold disconnect. case_match; [|done].
    destruct (leave_rooms _ _ _) as [rs notices]. cbn [fst onlineUsers].
    pose proof (length_delete_le (onlineUsers s) sock). lia.
Qed.

(** X2. The server never holds more than [MAX_ONLINE_USERS] = 8 sessions,
    and while it holds 8 every [login] is turned down with a [login_error]
    and changes nothing, also one from a socket that already has a session
    (which would not add one). *)
Theorem sessions_capacity s :
  reachable s →
  JsMap.size (onlineUsers s) ≤ 8 ∧
  (JsMap.size (onlineUsers s) = 8 →
   ∀ sock userId email,
     ∃ reason,
       login s sock userId email
       = (s, [Emit (ToSocket sock) (login_error reason)])).
Proof.
  intros Hreach. split.
  - induction Hreach as [d|s ev Hreach IH]; [done|].
    by apply handle_capacity.
  - intros Hfull sock userId email. unfold login.
    destruct (getUserById (db s) userId); [|by eexists].
    case_bool_decide; [by eexists|].
    rewrite bool_decide_true by (unfold MAX_ONLINE_USERS; lia). by eexists.
Qed.

Lemma sessions_capacity_witness :
  reachable full_server ∧
  JsMap.size (onlineUsers full_server) = 8 ∧
  login full_server "s9" 9 "i@x"
  = (full_server, [Emit (ToSocket "s9") (login_error ServerFull)]).
Proof.
  assert (Hreach : reachable full_server)
    by (apply reachable_run, reachable_initial).
  assert (Hfull : JsMap.size (onlineUsers full_server) = 8)
    by (vm_compute; reflexivity).
  destruct (sessions_capacity full_server Hreach) as [_ Hrejected].
  destruct (Hrejected Hfull "s9"%string 9 "i@x"%string) as [reason Hlogin].
  split_and!; [done | done |].
  rewrite Hlogin. f_equal.
  assert (Hout : (login full_server "s9" 9 "i@x").2
                 = [Emit (ToSocket "s9") (login_error ServerFull)])
    by (vm_compute; reflexivity).
  rewrite Hlogin in Hout. exact Hout.
Defined.

(** ** What [disconnect] does to the rooms *)

Lemma leave_rooms_fold_spec sock username rs0 ks rs out :
  (∀ k room, JsMap.get rs0 k = Some room → r_id room = k) →
  (∀ k room',
     JsMap.get rs k = Some room' →
     ∃ room,
       JsMap.get rs0 k = Some room ∧
       ((room' = room ∧ (k ∈ ks ∨ sock ∉ r_players room)) ∨
        ((sock ∈ r_players room) ∧ room' = without_player sock room ∧
         r_players room' ≠ []))) →
  ∀ k room',
    JsMap.get (foldl (leave_room sock username) (rs, out) ks).1 k = Some room' →
    ∃ room, JsMap.get rs0 k = Some room ∧ after_leave sock room room'.
Proof.
  intros Hkeyed. revert rs out.
  induction ks as [|key ks IH]; intros rs out Hinv; cbn [foldl].
  - intros k room' Hget.
    destruct (Hinv k room' Hget) as (room & Hroom & [[-> [Hin|Hout]]|Hdone]).
    + by apply elem_of_nil in Hin.
    + exists room. split; [done|]. by left.
    + exists room. split; [done|]. by right.
  - destruct (leave_room sock username (rs, out) key) as [rs1 out1] eqn:Hstep.
    apply (IH rs1 out1). intros k room' Hget.
    (* a room that the step leaves alone *)
    assert (Hkeep : JsMap.get rs k = Some room' →
                    (k = key → sock ∉ r_players room') →
      ∃ room,
        JsMap.get rs0 k = Some room ∧
        ((room' = room ∧ (k ∈ ks ∨ sock ∉ r_players room)) ∨
         ((sock ∈ r_players room) ∧ room' = without_player sock room ∧
          r_players room' ≠ []))).
    { intros Hold Hkey.
      destruct (Hinv k room' Hold) as (room & ? & [[-> [Hin|Hout]]|Hdone]);
        exists room; (split; [done|]).
      - left. split; [done|].
        apply elem_of_cons in Hin as [->|Hin]; [right; by apply Hkey | by left].
      - left. split; [done | by right].
      - by right. }
    unfold leave_room in Hstep.
    destruct (JsMap.get rs key) as [rk|] eqn:Hrk;
      [|simplify_eq/=; apply Hkeep; [done | congruence]].
    destruct (bool_decide (sock ∈ r_players rk)) eqn:Hmem;
      [|simplify_eq/=; apply bool_decide_eq_false_1 in Hmem;
        apply Hkeep; [done | congruence]].
    apply bool_decide_eq_true_1 in Hmem.
    (* the room under [key] still has [sock]: it is the one of [rs0] *)
    destruct (Hinv key rk Hrk) as (r0 & Hr0 & [[-> _]|(_ & -> & _)]).
    2: { exfalso. unfold without_player in Hmem; simpl in Hmem.
         by apply list_elem_of_filter in Hmem as [Hne _]. }
    assert (Hcase :
      (k = key ∧ room' = without_player sock r0 ∧ r_players room' ≠ []) ∨
      (k ≠ key ∧ JsMap.get rs k = Some room')).
    { destruct (bool_decide (length (r_players (set_players r0
        (filter (λ id, id ≠ sock) (r_players r0)))) = 0%nat)) eqn:Hempty;
        simplify_eq/=.
      - rewrite (Hkeyed key r0 Hr0), jsmap_get_delete in Hget.
        destruct (decide (key = k)); [done|].
        rewrite jsmap_get_set in Hget.
        destruct (decide (key = k)); [done | by right].
      - rewrite jsmap_get_set in Hget.
        destruct (decide (key = k)); simplify_eq/=; [|by right].
        apply bool_decide_eq_false_1 in Hempty. left. split_and!; try done.
        simpl. intros Hnil. apply Hempty. by rewrite Hnil. }
    destruct Hcase as [(-> & -> & Hsome)|[Hne Hold]].
    + exists r0. split; [done|]. by right.
    + by apply Hkeep.
Qed.

Lemma leave_rooms_spec sock username rs k room' :
  keyed_by r_id rs →
  JsMap.get (leave_rooms sock username rs).1 k = Some room' →
  ∃ room, JsMap.get rs k = Some room ∧ after_leave sock room room'.
Proof.
  intros Hkeyed. unfold leave_rooms. apply leave_rooms_fold_spec.
  { intros k' r Hget. by eapply keyed_by_get. }
  intros k' r Hget. exists r. split; [done|]. left. split; [done|].
  left. by eapply jsmap_get_Some_key.
Qed.

Lemma disconnect_rooms_spec s sock user k room' :
  keyed_by r_id (rooms s) →
  JsMap.get (onlineUsers s) sock = Some user →
  JsMap.get (rooms (disconnect s sock).1) k = Some room' →
  ∃ room, JsMap.get (rooms s) k = Some room ∧ after_leave sock room room'.
Proof.
  intros Hkeyed Huser. unfold disconnect. rewrite Huser.
  destruct (leave_rooms sock (u_username user) (rooms s))
    as [rs notices] eqn:Hleave.
  cbn [fst rooms]. intros Hget.
  apply (leave_rooms_spec sock (u_username user)); [done|]. by rewrite Hleave.
Qed.

(** ** What the other handlers do to the rooms *)

Lemma resolve_round_room_after s1 sock roomId room1 p1 p2 c1 c2 k room' :
  JsMap.get (rooms s1) roomId = Some room1 →
  p2 = r_players room1 !! 1%nat →
  JsMap.get (rooms (resolve_round s1 sock roomId room1 p1 p2 c1 c2).1) k
  = Some room' →
  JsMap.get (rooms s1) k = Some room' ∨
  (k = roomId ∧ r_players room' = r_players room1 ∧
   r_id room' = r_id room1 ∧ is_Some (r_players room1 !! 1%nat) ∧
   r_status room' ≠ waiting).
Proof.
  intros Hroom1 Hp2. unfold resolve_round.
  destruct p1 as [p1|], p2 as [p2|]; try (by left).
  destruct (JsMap.get (onlineUsers s1) p1) as [player1|]; [|by left].
  destruct (JsMap.get (onlineUsers s1) p2) as [player2|]; [|by left].
  destruct (settle _ _ _) as [[ou d] byUserId].
  destruct (isDraw _); cbn [fst rooms set_rooms]; rewrite jsmap_get_set;
    (destruct (decide (roomId = k)) as [->|]; [|by left]);
    intros [= <-]; right; rewrite <- Hp2; by split_and!.
Qed.

Lemma handle_room_after s ev k room' :
  (∀ sock, ev ≠ EvDisconnect sock) →
  JsMap.get (rooms (handle s ev).1) k = Some room' →
  room_after s ev k room'.
Proof.
  intros Hev. destruct ev as [sock userId email | sock gameType newId
    | sock roomId | sock roomId choice | sock targetEmail amount | sock
    | email username]; cbn [handle].
  - unfold login. repeat case_match; intros Hget; by left.
  - unfold create_room.
    destruct (JsMap.get (onlineUsers s) sock) as [user0|] eqn:Huser;
      [|by left].
    cbv zeta. case_bool_decide; cbn [fst rooms set_rooms];
      rewrite ?refresh_points_rooms; [by left|].
    cbn [r_id]. rewrite jsmap_get_set.
    destruct (decide (newId = k)) as [->|]; [|by left].
    intros [= <-]. right; left. exists sock, gameType. by split_and!.
  - unfold join_room.
    destruct (JsMap.get (onlineUsers s) sock) as [user0|] eqn:Huser;
      [|by left].
    cbv zeta. rewrite refresh_points_rooms.
    destruct (JsMap.get (rooms s) roomId) as [room|] eqn:Hroom;
      [|cbn [fst]; rewrite refresh_points_rooms; by left].
    case_bool_decide as Hfull;
      [cbn [fst]; rewrite refresh_points_rooms; by left|].
    case_bool_decide as Hstatus;
      [cbn [fst]; rewrite refresh_points_rooms; by left|].
    case_bool_decide as Hfunds;
      [cbn [fst]; rewrite refresh_points_rooms; by left|].
    assert (Hwaiting : r_status room = waiting)
      by (by destruct (r_status room)).
    case_bool_decide as Htwo; cbn [fst rooms set_rooms];
      rewrite ?refresh_points_rooms, jsmap_get_set;
      (destruct (decide (roomId = k)) as [->|]; [|by left]);
      intros [= <-]; right; right; left; exists sock, room;
      cbn in Htwo; rewrite length_app in Htwo; cbn in Htwo;
      (split_and!; [done | done | done | done | lia | done | done |]);
      cbn; [rewrite bool_decide_true by lia | rewrite bool_decide_false by lia];
      done.
  - unfold rps_choice.
    destruct (JsMap.get (rooms s) roomId) as [room|] eqn:Hroom; [|by left].
    case_bool_decide; [by left|].
    destruct (bool_decide (sock ∈ r_players room)) eqn:Hmem; cbn [negb];
      [|by left].
    apply bool_decide_eq_true_1 in Hmem. cbv zeta.
    set (gameData := <[sock:=choice]> (default ∅ (r_gameData room))).
    set (room1 := set_gameData room (Some gameData)).
    set (s1 := set_rooms s (JsMap.set (rooms s) roomId room1)).
    assert (Hrecorded : ∀ r,
      JsMap.get (rooms s1) k = Some r →
      JsMap.get (rooms s) k = Some r ∨ (k = roomId ∧ r = room1)).
    { intros r. subst s1. cbn [rooms set_rooms]. rewrite jsmap_get_set.
      destruct (decide (roomId = k)) as [->|]; [|by left].
      intros [= <-]. by right. }
    assert (Hmoved : ∀ r,
      k = roomId → r_players r = r_players room → r_id r = r_id room →
      (r_status r = r_status room ∨
       (is_Some (r_players room !! 1%nat) ∧ r_status r ≠ waiting)) →
      room_after s (EvRpsChoice sock roomId choice) k r).
    { intros r -> ? ? ?. right; right; right.
      exists sock, choice, room. by split_and!. }
    assert (Hplain : JsMap.get (rooms s1) k = Some room' →
      room_after s (EvRpsChoice sock roomId choice) k room').
    { intros Hget. destruct (Hrecorded _ Hget) as [?|[-> ->]]; [by left|].
      apply Hmoved; try done. by left. }
    destruct (gameData !! property_key (r_players room1 !! 0%nat));
      [|exact Hplain].
    destruct (gameData !! property_key (r_players room1 !! 1%nat));
      [|exact Hplain].
    intros Hget.
    apply resolve_round_room_after in Hget as [Hget|(-> & ? & ? & ? & ?)];
      [by apply Hplain | | | done].
    + apply Hmoved; try done. by right.
    + subst s1. cbn [rooms set_rooms]. by rewrite jsmap_get_set_eq.
  - unfold transfer_points.
    repeat case_match; cbn [fst];
      rewrite ?complete_transfer_rooms, ?refresh_points_rooms; by left.
  - by destruct (Hev sock).
  - by left.
Qed.

(** ** Players and sessions *)

Lemma reachable_well_keyed s : reachable s → well_keyed s.
Proof.
  induction 1 as [d|s ev Hreach [Hou Hrs]].
  - split; split; constructor.
  - split; [by apply handle_sessions_keyed | by apply handle_rooms_keyed].
Qed.

(* Only [disconnect] ends a session. *)
Lemma handle_sessions_kept s ev p :
  (∀ sock, ev ≠ EvDisconnect sock) →
  is_Some (JsMap.get (onlineUsers s) p) →
  is_Some (JsMap.get (onlineUsers (handle s ev).1) p).
Proof.
  intros Hev Hp.
  destruct ev as [sock userId email | | | | | sock | ].
  2-5, 7: (apply (same_sessions_is_Some (onlineUsers s)); [|done];
           apply handle_same_sessions; intros; discriminate).
  - cbn [handle]. unfold login. repeat case_match; cbn [fst onlineUsers];
      try done.
    rewrite jsmap_get_set. by destruct (decide (sock = p)).
  - by destruct (Hev sock).
Qed.

Lemma after_leave_players sock room room' p :
  after_leave sock room room' →
  p ∈ r_players room' → p ∈ r_players room ∧ p ≠ sock.
Proof.
  intros [[Hout ->]|(_ & -> & _)] Hp.
  - split; [done|]. by intros ->.
  - unfold without_player in Hp; simpl in Hp.
    by apply list_elem_of_filter in Hp as [? ?].
Qed.

Lemma handle_players_online s ev :
  keyed_by r_id (rooms s) → players_online s → players_online (handle s ev).1.
Proof.
  intros Hkeyed Hinv.
  assert (Hother : (∀ sock, ev ≠ EvDisconnect sock) →
                   players_online (handle s ev).1).
  { intros Hev k room' p Hget Hp. apply handle_sessions_kept; [done|].
    destruct (handle_room_after s ev k room' Hev Hget)
      as [Hold|[(sock & gameType & _ & Hsock & ->)
         |[(sock & room & _ & Hsock & Hroom & _ & _ & Hplayers & _)
         |(sock & choice & room & _ & Hroom & _ & Hplayers & _)]]].
    - by eapply Hinv.
    - simpl in Hp. by apply list_elem_of_singleton in Hp as ->.
    - rewrite Hplayers in Hp. apply elem_of_app in Hp as [Hp|Hp].
      + by eapply Hinv.
      + by apply list_elem_of_singleton in Hp as ->.
    - rewrite Hplayers in Hp. by eapply Hinv. }
  destruct ev as [| | | | | sock | ]; try (apply Hother; intros; discriminate).
  cbn [handle].
  destruct (JsMap.get (onlineUsers s) sock) as [user|] eqn:Huser;
    [|by unfold disconnect; rewrite Huser].
  intros k room' p Hget Hp.
  destruct (disconnect_rooms_spec s sock user k room' Hkeyed Huser Hget)
    as (room & Hroom & Hleave).
  destruct (after_leave_players sock room room' p Hleave Hp) as [Hin Hne].
  unfold disconnect. rewrite Huser.
  destruct (leave_rooms _ _ _) as [rs notices]. cbn [fst onlineUsers].
  rewrite jsmap_get_delete_ne by done. by eapply Hinv.
Qed.

Lemma reachable_players_online s : reachable s → players_online s.
Proof.
  induction 1 as [d|s ev Hreach IH].
  - by intros k room p.
  - apply handle_players_online; [|done].
    by apply reachable_well_keyed.
Qed.

(** ** The shape of rooms *)

Lemma length_filter_lt (sock : string) (l : list string) :
  sock ∈ l → (length (filter (λ id, id ≠ sock) l) < length l)%nat.
Proof.
  induction l as [|x l IH]; intros Hin; [by apply elem_of_nil in Hin|].
  rewrite filter_cons. destruct (decide (x ≠ sock)) as [Hne|Heq]; simpl.
  - apply elem_of_cons in Hin as [->|Hin]; [done|]. specialize (IH Hin). lia.
  - pose proof (length_filter (λ id, id ≠ sock) l). lia.
Qed.

Lemma after_leave_shape sock room room' :
  after_leave sock room room' → room_shape room → room_shape room'.
Proof.
  intros [[_ ->]|(Hin & -> & Hsome)] Hshape; [done|].
  left. split; [done|]. unfold without_player in *; simpl in *.
  pose proof (length_filter_lt sock (r_players room) Hin).
  destruct (filter _ (r_players room)) as [|p [|q l]]; [done | done |].
  destruct Hshape as [[_ Hlen]|[_ Hlen]]; simpl in *; lia.
Qed.

Lemma handle_rooms_shaped s ev :
  keyed_by r_id (rooms s) → rooms_shaped s → rooms_shaped (handle s ev).1.
Proof.
  intros Hkeyed Hinv.
  assert (Hother : (∀ sock, ev ≠ EvDisconnect sock) →
                   rooms_shaped (handle s ev).1).
  { intros Hev k room' Hget.
    destruct (handle_room_after s ev k room' Hev Hget)
      as [Hold|[(sock & gameType & _ & _ & ->)
         |[(sock & room & _ & _ & Hroom & Hwaiting & Hlen & Hplayers & _ & Hst)
         |(sock & choice & room & _ & Hroom & _ & Hplayers & _ & Hst)]]].
    - by eapply Hinv.
    - by left.
    - destruct (Hinv k room Hroom) as [[_ Hone]|[Hnot _]]; [|done].
      right. rewrite Hst, Hplayers, length_app, Hone.
      by rewrite bool_decide_true.
    - destruct (Hinv k room Hroom) as [[Hw Hone]|[Hnw Htwo]].
      + left. rewrite Hplayers. split; [|done].
        destruct Hst as [->|[[p Hp] _]]; [done|].
        apply lookup_lt_Some in Hp. lia.
      + right. rewrite Hplayers. split; [|done].
        destruct Hst as [->|[_ ?]]; done. }
  destruct ev as [| | | | | sock | ]; try (apply Hother; intros; discriminate).
  cbn [handle].
  destruct (JsMap.get (onlineUsers s) sock) as [user|] eqn:Huser;
    [|by unfold disconnect; rewrite Huser].
  intros k room' Hget.
  destruct (disconnect_rooms_spec s sock user k room' Hkeyed Huser Hget)
    as (room & Hroom & Hleave).
  eapply after_leave_shape; [done|]. by eapply Hinv.
Qed.

Lemma reachable_rooms_shaped s : reachable s → rooms_shaped s.
Proof.
  induction 1 as [d|s ev Hreach IH].
  - by intros k room.
  - apply handle_rooms_shaped; [|done].
    by apply reachable_well_keyed.
Qed.

(** X3. In every reachable state every player of every room is a live
    session: a socket id listed in [room.players] is a key of [onlineUsers],
    and the session found there carries that id.  ([disconnect] takes the
    id out of every room before the session goes.) *)
Theorem players_have_sessions s k room p :
  reachable s →
  JsMap.get (rooms s) k = Some room →
  p ∈ r_players room →
  ∃ u, JsMap.get (onlineUsers s) p = Some u ∧ u_id u = p.
Proof.
  intros Hreach Hroom Hp.
  destruct (reachable_players_online s Hreach k room p Hroom Hp) as [u Hu].
  exists u. split; [done|].
  destruct (reachable_well_keyed s Hreach) as [Hou _].
  by eapply keyed_by_get.
Qed.

Lemma players_have_sessions_witness :
  ∃ u, JsMap.get (onlineUsers full_room) "s2" = Some u ∧ u_id u = "s2"%string.
Proof.
  apply (players_have_sessions full_room "r1"
           (mkRoom "r1" "rps" "s1" ["s1"; "s2"] playing 100 None) "s2").
  - apply reachable_run, reachable_initial.
  - vm_compute; reflexivity.
  - apply list_elem_of_further, list_elem_of_here.
Defined.

Lemma elem_of_values {V : Type} (m : jsmap V) v :
  v ∈ JsMap.values m ↔ ∃ k, (k, v) ∈ m.
Proof.
  unfold JsMap.values. rewrite list_elem_of_fmap. split.
  - intros ([k v'] & -> & Hin). by exists k.
  - intros [k Hin]. by exists (k, v).
Qed.

Lemma filter_agree {A : Type} (P Q : A → Prop)
    `{!∀ x, Decision (P x)} `{!∀ x, Decision (Q x)} (l : list A) :
  (∀ x, x ∈ l → P x ↔ Q x) → filter P l = filter Q l.
Proof.
  induction l as [|x l IH]; intros Hagree; [done|].
  rewrite !filter_cons.
  assert (Hx : P x ↔ Q x) by (apply Hagree; left).
  rewrite IH by (intros y Hy; apply Hagree; by right).
  destruct (decide (P x)), (decide (Q x)); tauto.
Qed.

Lemma room_shape_available room :
  room_shape room → is_available room = true ↔ r_status room = waiting.
Proof.
  unfold is_available. intros [[Hw Hone]|[Hnw Htwo]].
  - rewrite Hone, bool_decide_true by done. done.
  - rewrite bool_decide_false by done. done.
Qed.

(** X4. In every reachable state a waiting room has exactly one player and a
    room that is playing or finished has exactly two: no room is empty, and
    none is waiting with two players.  So the rooms [getAvailableRooms]
    lists (waiting, fewer than two players) are exactly the waiting ones. *)
Theorem room_shapes s :
  reachable s →
  (∀ k room, JsMap.get (rooms s) k = Some room → room_shape room) ∧
  getAvailableRooms s
  = filter (λ room, r_status room = waiting) (JsMap.values (rooms s)).
Proof.
  intros Hreach. pose proof (reachable_rooms_shaped s Hreach) as Hshaped.
  split; [exact Hshaped|].
  unfold getAvailableRooms. apply filter_agree. intros room Hin.
  apply elem_of_values in Hin as [k Hin].
  destruct (reachable_well_keyed s Hreach) as [_ Hrs].
  apply room_shape_available, (Hshaped k).
  by apply (keyed_by_elem_of r_id).
Qed.

Lemma room_shapes_witness :
  room_shape (mkRoom "r1" "rps" "s1" ["s1"; "s2"] playing 100 None) ∧
  getAvailableRooms two_hosts
  = filter (λ room, r_status room = waiting) (JsMap.values (rooms two_hosts)).
Proof.
  assert (Hfull : reachable full_room) by apply reachable_run, reachable_initial.
  assert (Htwo : reachable two_hosts) by apply reachable_run, reachable_initial.
  split.
  - apply (proj1 (room_shapes full_room Hfull) "r1"%string).
    vm_compute; reflexivity.
  - apply (proj2 (room_shapes two_hosts Htwo)).
Defined.

(** ** Joining a listed room *)

(** X5. In a reachable state, a room that [getAvailableRooms] lists can be
    joined by any logged-in connection whose ledger balance covers the
    stake: the room has one player, the requester becomes the second, the
    room is stored as playing, [game_started] goes to the room, and the new
    list of available rooms, sent to the others, no longer has a room of
    that id. *)
Theorem listed_room_joinable s sock user room :
  reachable s →
  room ∈ getAvailableRooms s →
  JsMap.get (onlineUsers s) sock = Some user →
  r_betAmount room ≤ getUserPoints (db s) (u_userId user) →
  ∃ host,
    r_players room = [host] ∧
    let room2 := set_status (set_players room [host; sock]) playing in
    let s2 :=
      set_rooms (refresh_points s sock user)
        (JsMap.set (rooms s) (r_id room) room2) in
    join_room s sock (r_id room)
    = (s2,
       [SocketJoin sock (r_id room);
        Emit (IoTo (r_id room)) (game_started room2);
        Emit (Broadcast sock) (room_list_updated (getAvailableRooms s2))]) ∧
    ∀ r, r ∈ getAvailableRooms s2 → r_id r ≠ r_id room.
Proof.
  intros Hreach Hlisted Huser Hfunds.
  destruct (reachable_well_keyed s Hreach) as [_ Hrs].
  unfold getAvailableRooms in Hlisted.
  apply list_elem_of_filter in Hlisted as [Havail Hin].
  apply elem_of_values in Hin as [k Hin].
  apply (keyed_by_elem_of r_id) in Hin; [|done].
  pose proof (keyed_by_get r_id _ _ _ Hrs Hin) as Hid. subst k.
  pose proof (reachable_rooms_shaped s Hreach _ _ Hin) as Hshape.
  apply (room_shape_available _ Hshape) in Havail.
  destruct Hshape as [[_ Hone]|[Hnw _]]; [|done].
  destruct (r_players room) as [|host [|p l]] eqn:Hplayers; try done.
  exists host. split; [done|]. cbv zeta. split.
  - unfold join_room. rewrite Huser. cbv zeta.
    rewrite refresh_points_rooms, Hin.
    rewrite Hplayers. rewrite bool_decide_false by (simpl; lia).
    rewrite bool_decide_false by (by intros []).
    rewrite (refresh_points_get _ _ _ Huser). cbn [default id set_points u_points].
    rewrite bool_decide_false by lia.
    cbn [set_players r_players app length]. rewrite bool_decide_true by done.
    done.
  - intros r Hr Heq. unfold getAvailableRooms in Hr.
    apply list_elem_of_filter in Hr as [Hravail Hrin].
    cbn [rooms set_rooms] in Hrin.
    apply elem_of_values in Hrin as [k Hrin].
    assert (Hkeyed : keyed_by r_id (JsMap.set (rooms s) (r_id room)
      (set_status (set_players room [host; sock]) playing)))
      by (by apply keyed_by_set).
    apply (keyed_by_elem_of r_id) in Hrin; [|done].
    pose proof (keyed_by_get r_id _ _ _ Hkeyed Hrin) as Hid. subst k.
    rewrite Heq, jsmap_get_set_eq in Hrin. injection Hrin as <-.
    by vm_compute in Hravail.
Qed.

Lemma listed_room_joinable_witness :
  ∃ host,
    [host] = ["s1"%string] ∧
    join_room
      (run (initial two_accounts)
         [EvLogin "s1" 1 "a@x"; EvLogin "s2" 2 "b@x";
          EvCreateRoom "s1" "rps" "r1"]) "s2" "r1"
    = (full_room,
       [SocketJoin "s2" "r1";
        Emit (IoTo "r1")
          (game_started (mkRoom "r1" "rps" "s1" ["s1"; "s2"] playing 100 None));
        Emit (Broadcast "s2") (room_list_updated [])]).
Proof.
  destruct (listed_room_joinable
    (run (initial two_accounts)
       [EvLogin "s1" 1 "a@x"; EvLogin "s2" 2 "b@x";
        EvCreateRoom "s1" "rps" "r1"])
    "s2" (mkOnlineUser "s2" 2 "b@x" "bob" 1000)
    (mkRoom "r1" "rps" "s1" ["s1"] waiting 100 None))
    as (host & Hhost & Hjoin & _).
  - apply reachable_run, reachable_initial.
  - vm_compute. apply list_elem_of_here.
  - vm_compute; reflexivity.
  - vm_compute. discriminate.
  - exists host. split; [by simpl in Hhost|].
    cbn [r_id] in Hjoin. rewrite Hjoin. simpl in Hhost. injection Hhost as <-.
    vm_compute. reflexivity.
Defined.

(** ** The players of a round *)

(** X6. In a reachable state, [rps_choice] on a room that is not waiting
    never answers that the players' information is missing: both entries of
    [room.players] exist and both are live sessions, so the check
    [!player1 || !player2] cannot fire. *)
Theorem player_info_never_missing s sock roomId choice room :
  reachable s →
  JsMap.get (rooms s) roomId = Some room →
  r_status room ≠ waiting →
  ∀ to, Emit to (error PlayerInfoMissing) ∉ (rps_choice s sock roomId choice).2.
Proof.
  intros Hreach Hroom Hstatus to.
  assert (Hnot : ∀ reason, reason ≠ PlayerInfoMissing →
    Emit to (error PlayerInfoMissing) ∉ [Emit (ToSocket sock) (error reason)]).
  { intros reason Hne Hin. apply list_elem_of_singleton in Hin. congruence. }
  unfold rps_choice. rewrite Hroom.
  case_bool_decide; [by apply Hnot|].
  destruct (bool_decide (sock ∈ r_players room)); cbn [negb];
    [|by apply Hnot].
  cbv zeta.
  set (gameData := <[sock:=choice]> (default ∅ (r_gameData room))).
  set (room1 := set_gameData room (Some gameData)).
  set (s1 := set_rooms s (JsMap.set (rooms s) roomId room1)).
  destruct (gameData !! property_key (r_players room1 !! 0%nat));
    [|cbn [snd]; intros Hin; by apply list_elem_of_singleton in Hin].
  destruct (gameData !! property_key (r_players room1 !! 1%nat));
    [|cbn [snd]; intros Hin; by apply list_elem_of_singleton in Hin].
  destruct (reachable_rooms_shaped s Hreach _ _ Hroom) as [[? _]|[_ Htwo]];
    [done|].
  pose proof (reachable_players_online s Hreach roomId room) as Honline.
  subst room1. cbn [set_gameData r_players].
  destruct (r_players room) as [|p1 [|p2 [|p3 l]]]; try done.
  cbn [lookup list_lookup]. unfold resolve_round.
  destruct (Honline p1) as [u1 Hu1];
    [done | apply list_elem_of_here |].
  destruct (Honline p2) as [u2 Hu2];
    [done | apply list_elem_of_further, list_elem_of_here |].
  subst s1. cbn [onlineUsers set_rooms]. rewrite Hu1, Hu2.
  destruct (settle _ _ _) as [[ou d] byUserId].
  destruct (isDraw _); cbn [snd]; intros Hin;
    repeat (apply elem_of_cons in Hin as [Hin|Hin]; [discriminate|]);
    by apply elem_of_nil in Hin.
Qed.

Lemma player_info_never_missing_witness :
  reachable host_moved ∧
  (Emit (ToSocket "s2") (error PlayerInfoMissing)
   ∉ (rps_choice host_moved "s2" "r1" scissors).2).
Proof.
  assert (Hreach : reachable host_moved)
    by (apply reachable_run, reachable_run, reachable_initial).
  split; [done|].
  apply (player_info_never_missing host_moved "s2" "r1" scissors
           (mkRoom "r1" "rps" "s1" ["s1"; "s2"] playing 100
              (Some {["s1"%string := rock]}))).
  - done.
  - vm_compute; reflexivity.
  - discriminate.
Defined.

(** ** When a room goes away *)

Lemma leave_room_kept sock username rs out key :
  (∀ k r, JsMap.get rs k = Some r → r_id r = k) →
  (∀ k r, JsMap.get (leave_room sock username (rs, out) key).1 k = Some r →
          r_id r = k) ∧
  (∀ k r, JsMap.get rs k = Some r → has_other_player sock r →
     ∃ r1, JsMap.get (leave_room sock username (rs, out) key).1 k = Some r1 ∧
           has_other_player sock r1).
Proof.
  intros Hkeyed. unfold leave_room.
  destruct (JsMap.get rs key) as [rk|] eqn:Hrk; [|split; [done | by eauto]].
  destruct (bool_decide (sock ∈ r_players rk)); [|split; [done | by eauto]].
  pose proof (Hkeyed key rk Hrk) as Hid.
  assert (Hothers : has_other_player sock rk →
    has_other_player sock
      (set_players rk (filter (λ id, id ≠ sock) (r_players rk)))).
  { intros (p & Hp & Hne). exists p. split; [|done].
    simpl. by apply list_elem_of_filter. }
  case_bool_decide as Hempty; cbn [fst].
  - cbn [r_id set_players]. rewrite Hid. split.
    + intros k r. rewrite jsmap_get_delete.
      destruct (decide (key = k)); [done|].
      rewrite jsmap_get_set_ne by done. apply Hkeyed.
    + intros k r Hget Hother. rewrite jsmap_get_delete.
      destruct (decide (key = k)) as [<-|].
      * rewrite Hrk in Hget. injection Hget as <-.
        destruct (Hothers Hother) as (p & Hp & _). simpl in *.
        destruct (filter _ (r_players rk)); [|done].
        by apply elem_of_nil in Hp.
      * rewrite jsmap_get_set_ne by done. by eauto.
  - split.
    + intros k r. rewrite jsmap_get_set.
      destruct (decide (key = k)) as [<-|]; [|apply Hkeyed].
      by intros [= <-].
    + intros k r Hget Hother. rewrite jsmap_get_set.
      destruct (decide (key = k)) as [<-|]; [|by eauto].
      rewrite Hrk in Hget. injection Hget as <-.
      eexists. split; [done|]. by apply Hothers.
Qed.

Lemma leave_rooms_kept sock username rs k r :
  keyed_by r_id rs →
  JsMap.get rs k = Some r → has_other_player sock r →
  is_Some (JsMap.get (leave_rooms sock username rs).1 k).
Proof.
  intros Hkeyed Hget Hother. unfold leave_rooms.
  assert (Hids : ∀ k r, JsMap.get rs k = Some r → r_id r = k)
    by (intros; by eapply keyed_by_get).
  clear Hkeyed. generalize (JsMap.keys rs). intros ks.
  generalize (@nil Effect). revert rs r Hget Hother Hids.
  induction ks as [|key ks IH]; intros rs r Hget Hother Hids out; cbn [foldl];
    [by eexists|].
  destruct (leave_room_kept sock username rs out key Hids) as [Hids1 Hkept].
  destruct (Hkept k r Hget Hother) as (r1 & Hget1 & Hother1).
  destruct (leave_room sock username (rs, out) key) as [rs1 out1].
  by eapply IH.
Qed.

(* Only [disconnect] takes a room out of the map. *)
Lemma handle_rooms_kept s ev k :
  (∀ sock, ev ≠ EvDisconnect sock) →
  is_Some (JsMap.get (rooms s) k) →
  is_Some (JsMap.get (rooms (handle s ev).1) k).
Proof.
  intros Hev Hk.
  assert (Hset : ∀ rs k' (r : Room),
    is_Some (JsMap.get rs k) → is_Some (JsMap.get (JsMap.set rs k' r) k)).
  { intros rs k' r Hrs. rewrite jsmap_get_set. by destruct (decide (k' = k)). }
  destruct ev as [sock userId email | sock gameType newId
    | sock roomId | sock roomId choice | sock targetEmail amount | sock
    | email username]; cbn [handle].
  - unfold login. repeat case_match; done.
  - unfold create_room. repeat case_match; cbn [fst rooms set_rooms];
      rewrite ?refresh_points_rooms; try done. by apply Hset.
  - unfold join_room. repeat case_match; cbn [fst rooms set_rooms];
      rewrite ?refresh_points_rooms; try done; by apply Hset.
  - unfold rps_choice, resolve_round.
    repeat case_match; cbn [fst rooms set_rooms]; try done;
      repeat apply Hset; done.
  - unfold transfer_points.
    repeat case_match; cbn [fst];
      rewrite ?complete_transfer_rooms, ?refresh_points_rooms; done.
  - by destruct (Hev sock).
  - done.
Qed.

(** X7. A room leaves the room map in one way only: a live session that is
    its only player disconnects.  No other handler removes a room (a
    finished room stays as long as one of its players is connected), and
    [disconnect] keeps every room in which somebody else plays. *)
Theorem room_removed_by_last_player s ev k room :
  reachable s →
  JsMap.get (rooms s) k = Some room →
  JsMap.get (rooms (handle s ev).1) k = None →
  ∃ sock,
    ev = EvDisconnect sock ∧
    is_Some (JsMap.get (onlineUsers s) sock) ∧
    (sock ∈ r_players room) ∧
    ∀ p, p ∈ r_players room → p = sock.
Proof.
  intros Hreach Hroom Hgone.
  assert (Hother : (∀ sock, ev ≠ EvDisconnect sock) → False).
  { intros Hev.
    destruct (handle_rooms_kept s ev k Hev) as [r Hr]; [by eexists|].
    congruence. }
  destruct ev as [| | | | | sock | ]; try (destruct Hother; intros; discriminate).
  clear Hother. exists sock. split; [done|].
  cbn [handle] in Hgone. unfold disconnect in Hgone.
  destruct (JsMap.get (onlineUsers s) sock) as [user|] eqn:Huser;
    [|cbn [fst] in Hgone; congruence].
  split; [by eexists|].
  destruct (reachable_well_keyed s Hreach) as [_ Hrs].
  pose proof (leave_rooms_kept sock (u_username user) (rooms s) k room Hrs Hroom)
    as Hkept.
  destruct (leave_rooms sock (u_username user) (rooms s)) as [rs notices].
  cbn [fst rooms] in *.
  assert (Hall : ∀ p, p ∈ r_players room → p = sock).
  { intros p Hp. destruct (decide (p = sock)) as [|Hne]; [done|].
    destruct Hkept as [r Hr]; [by exists p | congruence]. }
  split; [|done].
  destruct (reachable_rooms_shaped s Hreach k room Hroom) as [[_ Hlen]|[_ Hlen]];
    destruct (r_players room) as [|p l] eqn:Hplayers; try done;
    rewrite (Hall p) by apply list_elem_of_here; apply list_elem_of_here.
Qed.

Lemma room_removed_by_last_player_witness :
  ∃ sock,
    EvDisconnect "s1" = EvDisconnect sock ∧
    is_Some (JsMap.get (onlineUsers two_hosts) sock) ∧
    (sock ∈ ["s1"%string]) ∧
    ∀ p, p ∈ ["s1"%string] → p = sock.
Proof.
  apply (room_removed_by_last_player two_hosts (EvDisconnect "s1") "r1"
           (mkRoom "r1" "rps" "s1" ["s1"] waiting 100 None)).
  - apply reachable_run, reachable_initial.
  - vm_compute; reflexivity.
  - vm_compute; reflexivity.
Defined.

(** ** Refused requests *)

(** X8. A handler whose whole output is one refusal ([error] or
    [login_error]) has not touched the ledger or the e-mail index, has left
    every session in place with its identity (only a cached balance may have
    been refreshed), and, unless the refusal is the one for missing player
    information, which comes after the move has been recorded, has left
    the rooms as they were. *)
Theorem refusal_keeps_state s ev to m :
  (handle s ev).2 = [Emit to m] →
  is_refusal m →
  db (handle s ev).1 = db s ∧
  emailToSocketId (handle s ev).1 = emailToSocketId s ∧
  same_sessions (onlineUsers s) (onlineUsers (handle s ev).1) ∧
  (m ≠ error PlayerInfoMissing → rooms (handle s ev).1 = rooms s).
Proof.
  intros Hout Hm.
  assert (Hsessions : (∀ sock userId email, ev ≠ EvLogin sock userId email) →
                      (∀ sock, ev ≠ EvDisconnect sock) →
                      same_sessions (onlineUsers s) (onlineUsers (handle s ev).1))
    by apply handle_same_sessions.
  destruct ev as [sock userId email | sock gameType newId
    | sock roomId | sock roomId choice | sock targetEmail amount | sock
    | email username]; cbn [handle] in *.
  - clear Hsessions. unfold login in *.
    repeat case_match; cbn [fst snd] in *; try discriminate;
      split_and!; try done; apply same_sessions_refl.
  - assert (Hs : same_sessions (onlineUsers s)
        (onlineUsers (create_room s sock gameType newId).1))
      by (apply Hsessions; intros; discriminate).
    split_and!; [| |done|]; clear Hs Hsessions; unfold create_room in *;
      repeat case_match; cbn [fst snd] in *; try discriminate;
      rewrite ?refresh_points_db, ?refresh_points_index, ?refresh_points_rooms;
      done.
  - assert (Hs : same_sessions (onlineUsers s)
        (onlineUsers (join_room s sock roomId).1))
      by (apply Hsessions; intros; discriminate).
    split_and!; [| |done|]; clear Hs Hsessions; unfold join_room in *;
      repeat case_match; cbn [fst snd] in *; try discriminate;
      rewrite ?refresh_points_db, ?refresh_points_index, ?refresh_points_rooms;
      done.
  - assert (Hs : same_sessions (onlineUsers s)
        (onlineUsers (rps_choice s sock roomId choice).1))
      by (apply Hsessions; intros; discriminate).
    split_and!; [| |done|]; clear Hs Hsessions;
      unfold rps_choice, resolve_round in *;
      repeat case_match; cbn [fst snd] in *; try discriminate; try done;
      simplify_eq; try done.
  - assert (Hs : same_sessions (onlineUsers s)
        (onlineUsers (transfer_points s sock targetEmail amount).1))
      by (apply Hsessions; intros; discriminate).
    destruct m; try done.
    + exfalso. clear Hs Hsessions. unfold transfer_points, complete_transfer in *.
      repeat case_match; cbn [fst snd] in *; discriminate.
    + assert (to = ToSocket sock) as ->.
      { clear Hs Hsessions. unfold transfer_points, complete_transfer in *.
        repeat case_match; cbn [fst snd] in *; congruence. }
      destruct (transfer_points_failure_ledger _ _ _ _ _ Hout) as (? & ? & ?).
      by split_and!.
  - exfalso. clear Hsessions. unfold disconnect in *.
    destruct (JsMap.get (onlineUsers s) sock); [|discriminate].
    destruct (leave_rooms _ _ _) as [rs notices]. cbn [snd] in Hout.
    apply (f_equal length) in Hout. rewrite length_app in Hout.
    simpl in Hout. lia.
  - discriminate.
Qed.

Lemma refusal_keeps_state_witness :
  (handle poor_online (EvCreateRoom "s1" "rps" "r1")).2
  = [Emit (ToSocket "s1") (error (InsufficientFunds (Some 100)))] ∧
  db (handle poor_online (EvCreateRoom "s1" "rps" "r1")).1 = db poor_online ∧
  rooms (handle poor_online (EvCreateRoom "s1" "rps" "r1")).1 = [].
Proof.
  assert (Hout : (handle poor_online (EvCreateRoom "s1" "rps" "r1")).2
    = [Emit (ToSocket "s1") (error (InsufficientFunds (Some 100)))])
    by (vm_compute; reflexivity).
  destruct (refusal_keeps_state poor_online (EvCreateRoom "s1" "rps" "r1")
              _ _ Hout I) as (Hdb & _ & _ & Hrooms).
  split_and!; [done | done |]. by rewrite Hrooms.
Defined.

(** ** The settlement loop *)





(** ** A transfer to one's own e-mail *)




(** ** A move before the opponent's *)

Lemma jsmap_set_set {V : Type} (m : jsmap V) k v v' :
  JsMap.set (JsMap.set m k v) k v' = JsMap.set m k v'.
Proof.
  induction m as [|[k0 v0] m IH]; simpl.
  - by rewrite decide_True.
  - destruct (decide (k0 = k)) as [->|Hne]; simpl.
    + by rewrite decide_True.
    + by rewrite decide_False, IH.
Qed.

Lemma rps_choice_awaits s sock roomId room choice :
  JsMap.get (rooms s) roomId = Some room →
  r_gameType room = "rps"%string →
  awaits_opponent room sock →
  rps_choice s sock roomId choice
  = (with_move s roomId room sock choice,
     [Emit (ToSocket sock) choice_received]).
Proof.
  intros Hroom Htype (p1 & p2 & Hplayers & Hne & Hcase).
  unfold rps_choice, with_move, recorded_moves in *. rewrite Hroom.
  rewrite bool_decide_false by (by intros []).
  assert (Hmem : sock ∈ r_players room).
  { rewrite Hplayers. destruct Hcase as [[-> _]|[-> _]].
    - apply list_elem_of_here.
    - apply list_elem_of_further, list_elem_of_here. }
  rewrite bool_decide_true by done. cbn [negb]. cbv zeta.
  cbn [set_gameData r_players]. rewrite Hplayers.
  cbn [lookup list_lookup property_key default id].
  destruct Hcase as [[-> Hnone]|[-> Hnone]].
  - rewrite lookup_insert_eq, lookup_insert_ne, Hnone by done. done.
  - rewrite lookup_insert_ne, Hnone by done. done.
Qed.

(** X11. While the other player of a two-player room has no move on record,
    [rps_choice] by a player only records the move and answers
    [choice_received]: no balance, session or ledger row changes; and the
    move can be replaced: sending a second move leaves the state and the
    answer of sending that second move alone. *)
Theorem move_before_opponent s sock roomId room c c' :
  JsMap.get (rooms s) roomId = Some room →
  r_gameType room = "rps"%string →
  awaits_opponent room sock →
  rps_choice s sock roomId c
  = (with_move s roomId room sock c, [Emit (ToSocket sock) choice_received]) ∧
  rps_choice (rps_choice s sock roomId c).1 sock roomId c'
  = rps_choice s sock roomId c'.
Proof.
  intros Hroom Htype Hawaits.
  pose proof (rps_choice_awaits s sock roomId room c Hroom Htype Hawaits) as Hc.
  split; [done|]. rewrite Hc. cbn [fst].
  set (room1 := set_gameData room (Some (<[sock := c]> (recorded_moves room)))).
  assert (Hawaits1 : awaits_opponent room1 sock).
  { destruct Hawaits as (p1 & p2 & Hplayers & Hne & Hcase).
    exists p1, p2. split_and!; [done | done |].
    unfold recorded_moves in *. cbn [room1 set_gameData r_gameData default id].
    destruct Hcase as [[-> Hnone]|[-> Hnone]]; [left | right];
      (split; [done|]); by rewrite lookup_insert_ne. }
  rewrite (rps_choice_awaits (with_move s roomId room sock c) sock roomId room1
             c'); [| apply jsmap_get_set_eq | done | done].
  rewrite (rps_choice_awaits s sock roomId room c' Hroom Htype Hawaits).
  f_equal. unfold with_move. cbn [rooms set_rooms]. unfold set_rooms.
  cbn [onlineUsers emailToSocketId db]. f_equal.
  rewrite jsmap_set_set. f_equal.
  unfold recorded_moves. cbn [room1 set_gameData r_gameData default id].
  unfold set_gameData; simpl. by rewrite insert_insert_eq.
Qed.

Lemma move_before_opponent_witness :
  rps_choice full_room "s1" "r1" rock
  = (host_moved, [Emit (ToSocket "s1") choice_received]) ∧
  rps_choice (rps_choice full_room "s1" "r1" paper).1 "s1" "r1" rock
  = rps_choice full_room "s1" "r1" rock.
Proof.
  destruct (move_before_opponent full_room "s1" "r1"
              (mkRoom "r1" "rps" "s1" ["s1"; "s2"] playing 100 None) paper rock)
    as [_ Hagain].
  - vm_compute; reflexivity.
  - reflexivity.
  - exists "s1"%string, "s2"%string. split_and!; [done | done |].
    left. by split.
  - split; [|exact Hagain]. vm_compute. reflexivity.
Defined.

(** ** Logging in and leaving again *)

Lemma jsmap_delete_set {V : Type} (m : jsmap V) k v :
  JsMap.delete (JsMap.set m k v) k = JsMap.delete m k.
Proof.
  induction m as [|[k0 v0] m IH]; simpl.
  - by rewrite decide_True.
  - destruct (decide (k0 = k)) as [->|Hne]; simpl.
    + by rewrite decide_True.
    + by rewrite decide_False, IH.
Qed.

(* [disconnect] of a socket that plays in no room leaves the rooms alone and
   notifies no room. *)
Lemma leave_rooms_absent sock username rs :
  (∀ k room, JsMap.get rs k = Some room → sock ∉ r_players room) →
  leave_rooms sock username rs = (rs, []).
Proof.
  intros Habsent. unfold leave_rooms. generalize (JsMap.keys rs). intros ks.
  generalize (@nil Effect). induction ks as [|key ks IH]; intros out;
    cbn [foldl]; [done|].
  replace (leave_room sock username (rs, out) key) with (rs, out); [apply IH|].
  unfold leave_room. destruct (JsMap.get rs key) as [room|] eqn:Hroom; [|done].
  by rewrite bool_decide_false by (by eapply Habsent).
Qed.

(** X12. Round trip: in a reachable state, when a socket without a session
    logs in for an account with the e-mail of its row, is accepted, and then
    disconnects, the server is back in the state it was in before the
    login (sessions, rooms, index and ledger), and the others are told that
    the user left, with the roster and the room list of that state. *)
Theorem login_then_disconnect s sock userId row :
  reachable s →
  JsMap.get (onlineUsers s) sock = None →
  db s !! userId = Some row →
  emailToSocketId s !! d_email row = None →
  JsMap.size (onlineUsers s) < MAX_ONLINE_USERS →
  disconnect (login s sock userId (d_email row)).1 sock
  = (s,
     [Emit (Broadcast sock) (user_left (d_username row));
      Emit (Broadcast sock) (online_users_updated (getOnlineUsersList s));
      Emit (Broadcast sock) (room_list_updated (getAvailableRooms s))]).
Proof.
  intros Hreach Hsock Hrow Hidx Hsize.
  assert (Habsent : ∀ k room,
    JsMap.get (rooms s) k = Some room → sock ∉ r_players room).
  { intros k room Hroom Hin.
    destruct (reachable_players_online s Hreach k room sock Hroom Hin)
      as [u Hu]. congruence. }
  unfold login, getUserById. rewrite Hrow, Hidx.
  rewrite bool_decide_false by (by intros [? ?]).
  rewrite bool_decide_false by lia.
  cbv zeta. cbn [fst]. unfold disconnect. cbn [onlineUsers rooms].
  rewrite jsmap_get_set_eq. cbn [u_username u_email emailToSocketId db].
  rewrite (leave_rooms_absent _ _ _ Habsent).
  rewrite jsmap_delete_set, (jsmap_delete_absent _ _ Hsock).
  rewrite delete_insert_id by done.
  destruct s as [ou rs idx d]. reflexivity.
Qed.

Lemma login_then_disconnect_witness :
  reachable alice_online ∧
  (disconnect (login alice_online "s2" 2 "b@x").1 "s2").1 = alice_online.
Proof.
  assert (Hreach : reachable alice_online)
    by (apply reachable_run, reachable_initial).
  split; [done|].
  assert (Hback := login_then_disconnect alice_online "s2" 2
                     (mkDbUser "b@x" "bob" 1000) Hreach).
  cbn [d_email] in Hback. rewrite Hback; [done | | | |]; vm_compute; reflexivity.
Defined.

(** X13. [login] does not look whether the socket already has a session.
    When a socket that is logged in logs in again for another account, the
    new session replaces the old one under the socket id, but the old
    e-mail stays in the index; [disconnect] then removes the e-mail of the
    new session only.  Afterwards the socket has no session, the first
    e-mail is still indexed, and every further login under it, for any
    existing account and from any socket, is refused as already online. *)
Theorem relogin_strands_first_account s sock u1 userId2 row2 :
  JsMap.get (onlineUsers s) sock = Some u1 →
  emailToSocketId s !! u_email u1 = Some sock →
  db s !! userId2 = Some row2 →
  d_email row2 ≠ u_email u1 →
  emailToSocketId s !! d_email row2 = None →
  JsMap.size (onlineUsers s) < MAX_ONLINE_USERS →
  let s2 := (disconnect (login s sock userId2 (d_email row2)).1 sock).1 in
  JsMap.get (onlineUsers s2) sock = None ∧
  emailToSocketId s2 !! u_email u1 = Some sock ∧
  ∀ sock' userId,
    is_Some (db s !! userId) →
    login s2 sock' userId (u_email u1)
    = (s2, [Emit (ToSocket sock') (login_error AlreadyOnline)]).
Proof.
  intros Hsock Hidx1 Hrow2 Hne Hidx2 Hsize. cbv zeta.
  assert (Hlogin : (login s sock userId2 (d_email row2)).1
    = mkState
        (JsMap.set (onlineUsers s) sock
           (mkOnlineUser sock userId2 (d_email row2) (d_username row2)
              (d_points row2)))
        (rooms s) (<[d_email row2 := sock]> (emailToSocketId s)) (db s)).
  { unfold login, getUserById. rewrite Hrow2, Hidx2.
    rewrite bool_decide_false by (by intros [? ?]).
    by rewrite bool_decide_false by lia. }
  rewrite Hlogin. unfold disconnect. cbn [onlineUsers rooms].
  rewrite jsmap_get_set_eq. cbn [u_username u_email emailToSocketId db].
  destruct (leave_rooms sock (d_username row2) (rooms s)) as [rs notices].
  cbn [fst onlineUsers emailToSocketId].
  assert (Hstale : delete (d_email row2)
            (<[d_email row2 := sock]> (emailToSocketId s)) !! u_email u1
          = Some sock).
  { rewrite lookup_delete_ne by done. by rewrite lookup_insert_ne. }
  split_and!; [apply jsmap_get_delete_eq | done |].
  intros sock' userId [row Hrow]. unfold login, getUserById.
  cbn [db emailToSocketId]. rewrite Hrow, Hstale.
  by rewrite bool_decide_true by (by eexists).
Qed.

Lemma relogin_strands_first_account_witness :
  JsMap.get (onlineUsers relogin_then_gone) "s1" = None ∧
  login relogin_then_gone "s7" 1 "a@x"
  = (relogin_then_gone, [Emit (ToSocket "s7") (login_error AlreadyOnline)]).
Proof.
  destruct (relogin_strands_first_account alice_online "s1"
              (mkOnlineUser "s1" 1 "a@x" "alice" 1000) 2
              (mkDbUser "b@x" "bob" 1000)) as (Hgone & _ & Hrefused).
  - vm_compute; reflexivity.
  - vm_compute; reflexivity.
  - vm_compute; reflexivity.
  - discriminate.
  - vm_compute; reflexivity.
  - vm_compute; reflexivity.
  - split; [exact Hgone|].
    apply (Hrefused "s7"%string 1). vm_compute. by eexists.
Defined.

(** ** Logins that carry the account's own e-mail *)

Lemma consistently_run s evs :
  reachable_consistently s → consistent_run s evs →
  reachable_consistently (run s evs).
Proof.
  revert s. induction evs as [|ev evs IH]; intros s Hs Hevs; [done|].
  destruct Hevs as [Hev Hevs]. unfold run; cbn [foldl].
  apply IH; [by constructor | done].
Qed.

Lemma full_room_consistently : reachable_consistently full_room.
Proof.
  apply consistently_run; [constructor|].
  cbn [consistent_run consistent_login]. split_and!; try done;
    intros row Hrow; vm_compute in Hrow; by injection Hrow as <-.
Qed.

(** X14. As long as every [login] carries the e-mail of the row of its user
    id (what the login screen sends after [/api/login]), every state of the
    server has at most one session per account, every session is indexed
    under its e-mail and caches exactly the ledger's balance of its account,
    so the refresh that opens [create_room], [join_room] and
    [transfer_points] changes nothing, and a further login for an account
    that has a session, under that account's e-mail, is refused as already
    online from whatever socket. *)
Theorem consistent_logins_keep_one_exact_session s :
  reachable_consistently s →
  one_session_per_account (onlineUsers s) ∧
  index_covers_sessions s ∧
  cache_is_ledger (onlineUsers s) (db s) ∧
  (∀ sock u, JsMap.get (onlineUsers s) sock = Some u →
     refresh_points s sock u = s) ∧
  (∀ sock0 u sock, JsMap.get (onlineUsers s) sock0 = Some u →
     login s sock (u_userId u) (u_email u)
     = (s, [Emit (ToSocket sock) (login_error AlreadyOnline)])).
Proof.
  intros Hreach. destruct (consistent_invariant s Hreach) as [Hidx Hrows].
  pose proof (cache_is_ledger_for_consistent_logins s Hreach) as Hcache.
  split_and!; [by apply one_session_from_index | done | done | |].
  - intros sock u Hu. by apply refresh_points_coherent.
  - intros sock0 u sock Hu.
    destruct (Hrows sock0 u Hu) as (row & Hrow & _).
    unfold login, getUserById. rewrite Hrow.
    by rewrite bool_decide_true by (rewrite (Hidx sock0 u Hu); by eexists).
Qed.

Lemma consistent_logins_keep_one_exact_session_witness :
  cache_is_ledger (onlineUsers full_room) (db full_room) ∧
  login full_room "s9" 2 "b@x"
  = (full_room, [Emit (ToSocket "s9") (login_error AlreadyOnline)]).
Proof.
  destruct (consistent_logins_keep_one_exact_session full_room
              full_room_consistently) as (_ & _ & Hcache & _ & Hlogin).
  split; [done|].
  apply (Hlogin "s2"%string (mkOnlineUser "s2" 2 "b@x" "bob" 1000) "s9"%string).
  vm_compute; reflexivity.
Defined.



(** ** The second player starts the match *)

(** X16. In a reachable state [join_room] never takes the branch that keeps
    the room waiting: it emits neither [room_joined] nor
    [player_joined_room], because a room that can be joined has exactly one
    player and the requester is the second. *)
Theorem join_room_never_waits s sock roomId :
  reachable s →
  ∀ e, e ∈ (join_room s sock roomId).2 →
    (∀ to room, e ≠ Emit to (room_joined room)) ∧
    (∀ to room who, e ≠ Emit to (player_joined_room room who)).
Proof.
  intros Hreach e. unfold join_room.
  assert (Herror : ∀ to reason, e ∈ [Emit to (error reason)] →
    (∀ to room, e ≠ Emit to (room_joined room)) ∧
    (∀ to room who, e ≠ Emit to (player_joined_room room who))).
  { intros to reason Hin. apply list_elem_of_singleton in Hin as ->.
    by split. }
  destruct (JsMap.get (onlineUsers s) sock) as [user0|]; [|by apply Herror].
  cbv zeta. rewrite refresh_points_rooms.
  destruct (JsMap.get (rooms s) roomId) as [room|] eqn:Hroom;
    [|by apply Herror].
  case_bool_decide as Hfull; [by apply Herror|].
  case_bool_decide as Hstatus; [by apply Herror|].
  case_bool_decide as Hfunds; [by apply Herror|].
  destruct (reachable_rooms_shaped s Hreach roomId room Hroom)
    as [[_ Hone]|[Hnw _]]; [|by destruct (r_status room)].
  rewrite bool_decide_true by (simpl; rewrite length_app, Hone; done).
  cbn [snd]. intros Hin.
  repeat (apply elem_of_cons in Hin as [->|Hin]; [by split|]).
  by apply elem_of_nil in Hin.
Qed.

Lemma join_room_never_waits_witness :
  reachable two_hosts ∧
  ∀ e, e ∈ (join_room two_hosts "s2" "r1").2 →
    (∀ to room, e ≠ Emit to (room_joined room)) ∧
    (∀ to room who, e ≠ Emit to (player_joined_room room who)).
Proof.
  assert (Hreach : reachable two_hosts) by apply reachable_run, reachable_initial.
  split; [done|]. by apply join_room_never_waits.
Defined.

(** * The accounts *)

Lemma find_by_email_Some t email i a :
  Accounts.find_by_email t email = Some (i, a) →
  t !! i = Some a ∧ Accounts.a_email a = email.
Proof.
  unfold Accounts.find_by_email. intros Hhead.
  apply head_Some_elem_of, list_elem_of_filter in Hhead as [Hmail Hin].
  by apply elem_of_map_to_list in Hin.
Qed.

(* When no other row has the e-mail of row [i], the query finds row [i]. *)
Lemma find_by_email_only t i a :
  t !! i = Some a →
  (∀ j b, t !! j = Some b → Accounts.a_email b = Accounts.a_email a → j = i) →
  Accounts.find_by_email t (Accounts.a_email a) = Some (i, a).
Proof.
  intros Hrow Honly.
  destruct (Accounts.find_by_email t (Accounts.a_email a)) as [[j b]|] eqn:Hfind.
  - destruct (find_by_email_Some _ _ _ _ Hfind) as [Hj Hmail].
    pose proof (Honly j b Hj Hmail) as ->. congruence.
  - unfold Accounts.find_by_email in Hfind. apply head_None in Hfind.
    assert (Hin : (i, a) ∈ filter
      (λ kv : Z * Accounts.Account, Accounts.a_email kv.2 = Accounts.a_email a)
      (map_to_list t)).
    { apply list_elem_of_filter. split; [done|]. by apply elem_of_map_to_list. }
    rewrite Hfind in Hin. by apply elem_of_nil in Hin.
Qed.

Lemma ledger_of_lookup t i :
  Accounts.ledger_of t !! i = Accounts.row_of <$> t !! i.
Proof. apply lookup_fmap. Qed.

Lemma next_rowid_ledger_fresh t :
  t !! next_rowid (Accounts.ledger_of t) = None.
Proof.
  pose proof (next_rowid_fresh (Accounts.ledger_of t)) as Hfresh.
  rewrite ledger_of_lookup in Hfresh.
  by destruct (t !! next_rowid (Accounts.ledger_of t)).
Qed.

Lemma unique_by_update f t userId newPoints :
  (∀ a, f (Accounts.mkAccount (Accounts.a_email a) (Accounts.a_password_hash a)
             (Accounts.a_username a) newPoints) = f a) →
  Accounts.unique_by f t →
  Accounts.unique_by f (Accounts.updateUserPoints t userId newPoints).
Proof.
  intros Hf Huniq.
  assert (Hback : ∀ k c,
    Accounts.updateUserPoints t userId newPoints !! k = Some c →
    ∃ c0, t !! k = Some c0 ∧ f c = f c0).
  { intros k c. unfold Accounts.updateUserPoints. rewrite lookup_alter.
    destruct (decide (userId = k)) as [->|]; [|by eauto].
    destruct (t !! k) as [c0|]; simpl; [|done].
    intros [= <-]. exists c0. split; [done | apply Hf]. }
  intros i j a b Hi Hj Hsame.
  destruct (Hback i a Hi) as (a0 & Ha0 & Hfa).
  destruct (Hback j b Hj) as (b0 & Hb0 & Hfb).
  apply (Huniq i j a0 b0); [done | done | congruence].
Qed.

Section accounts.

Variable hashSync : string → string → string.
Variable compareSync : string → string → bool.

Lemma registerUser_inr t salt email password username newId :
  (Accounts.registerUser hashSync t salt email password username).2 = inr newId →
  ¬ map_Exists (λ _ a, Accounts.a_email a = email) t ∧
  ¬ map_Exists (λ _ a, Accounts.a_username a = username) t ∧
  newId = next_rowid (Accounts.ledger_of t) ∧
  (Accounts.registerUser hashSync t salt email password username).1
  = <[newId := Accounts.mkAccount email (hashSync salt password) username 1000]> t.
Proof.
  unfold Accounts.registerUser.
  case_bool_decide as Hmail; [done|]. case_bool_decide as Hname; [done|].
  cbn [fst snd]. intros [= <-]. done.
Qed.

Lemma registerUser_inl t salt email password username why :
  (Accounts.registerUser hashSync t salt email password username).2 = inl why →
  (Accounts.registerUser hashSync t salt email password username).1 = t.
Proof.
  unfold Accounts.registerUser. by repeat case_bool_decide.
Qed.

Lemma unique_by_register t salt email password username :
  Accounts.unique_by Accounts.a_email t ∧
  Accounts.unique_by Accounts.a_username t →
  Accounts.unique_by Accounts.a_email
    (Accounts.registerUser hashSync t salt email password username).1 ∧
  Accounts.unique_by Accounts.a_username
    (Accounts.registerUser hashSync t salt email password username).1.
Proof.
  intros [Hmails Hnames].
  destruct (Accounts.registerUser hashSync t salt email password username).2
    as [why|newId] eqn:Hres.
  - by rewrite (registerUser_inl _ _ _ _ _ _ Hres).
  - destruct (registerUser_inr _ _ _ _ _ _ Hres) as (Hmail & Hname & _ & ->).
    assert (Hfresh : ∀ (f : Accounts.Account → string) v,
      ¬ map_Exists (λ _ a, f a = v) t →
      Accounts.unique_by f t →
      f (Accounts.mkAccount email (hashSync salt password) username 1000) = v →
      Accounts.unique_by f
        (<[newId := Accounts.mkAccount email (hashSync salt password) username
                      1000]> t)).
    { intros f v Hnone Huniq Hv i j a b Hi Hj Hsame.
      destruct (decide (i = j)) as [|Hij]; [done|]. exfalso.
      rewrite lookup_insert in Hi, Hj.
      destruct (decide (newId = i)) as [Hi'|Hi'],
               (decide (newId = j)) as [Hj'|Hj'].
      - congruence.
      - injection Hi as <-. apply Hnone, map_Exists_lookup.
        exists j, b. split; [done | congruence].
      - injection Hj as <-. apply Hnone, map_Exists_lookup.
        exists i, a. split; [done | congruence].
      - by apply Hij, (Huniq i j a b). }
    split; [by apply (Hfresh _ email) | by apply (Hfresh _ username)].
Qed.

Lemma built_unique t :
  Accounts.built hashSync t →
  Accounts.unique_by Accounts.a_email t ∧
  Accounts.unique_by Accounts.a_username t.
Proof.
  induction 1 as [|t salt email password username _ IH|t userId newPoints _ IH].
  - split; intros i j a b Hi; by rewrite lookup_empty in Hi.
  - by apply unique_by_register.
  - destruct IH. split; by apply unique_by_update.
Qed.

(** X17. In a table that [registerUser] and [updateUserPoints] have built
    from the empty one, no two rows share an e-mail and no two rows share a
    user name, and the query by e-mail of [authenticateUser] finds, for the
    e-mail of any row, that very row. *)
Theorem built_tables_have_unique_names t :
  Accounts.built hashSync t →
  Accounts.unique_by Accounts.a_email t ∧
  Accounts.unique_by Accounts.a_username t ∧
  ∀ i a, t !! i = Some a →
    Accounts.find_by_email t (Accounts.a_email a) = Some (i, a).
Proof.
  intros Hbuilt. destruct (built_unique t Hbuilt) as [Hmails Hnames].
  split_and!; [done | done |].
  intros i a Hrow. apply find_by_email_only; [done|].
  intros j b Hj Hsame. by apply (Hmails j i b a).
Qed.

Hypothesis compareSync_hashSync :
  ∀ salt password, compareSync password (hashSync salt password) = true.

Lemma authenticate_new_row t newId salt email password username :
  ¬ map_Exists (λ _ a, Accounts.a_email a = email) t →
  Accounts.authenticateUser compareSync
    (<[newId := Accounts.mkAccount email (hashSync salt password) username
                  1000]> t) email password
  = inr (mkUserInfo newId email username 1000).
Proof.
  intros Hmail. unfold Accounts.authenticateUser.
  set (a := Accounts.mkAccount email (hashSync salt password) username 1000).
  rewrite (find_by_email_only _ newId a).
  - cbn [a Accounts.a_password_hash Accounts.a_email Accounts.a_username
         Accounts.a_points]. by rewrite compareSync_hashSync.
  - apply lookup_insert_eq.
  - intros j b Hj Hsame. rewrite lookup_insert in Hj.
    destruct (decide (newId = j)); [done|].
    destruct Hmail. apply map_Exists_lookup. by exists j, b.
Qed.

(** X18. Round trip: when [registerUser] accepts an account, the row goes
    under an id that was not in use, with 1000 points and the hash of the
    password; no other row changes; and [authenticateUser], with the same
    e-mail and password, then succeeds with that id, e-mail, user name and
    the 1000 points, provided [bcrypt] recognises the hash of a password. *)
Theorem register_then_authenticate t salt email password username newId :
  (Accounts.registerUser hashSync t salt email password username).2 = inr newId →
  let t' := (Accounts.registerUser hashSync t salt email password username).1 in
  t !! newId = None ∧
  t' = <[newId := Accounts.mkAccount email (hashSync salt password) username
                    1000]> t ∧
  Accounts.authenticateUser compareSync t' email password
  = inr (mkUserInfo newId email username 1000).
Proof.
  intros Hres. cbv zeta.
  destruct (registerUser_inr _ _ _ _ _ _ Hres) as (Hmail & _ & -> & ->).
  pose proof (next_rowid_ledger_fresh t) as Hfresh.
  split_and!; [done | done |]. by apply authenticate_new_row.
Qed.

End accounts.

Lemma toy_compare_hash salt password :
  Accounts.toy_compare password (Accounts.toy_hash salt password) = true.
Proof.
  unfold Accounts.toy_compare, Accounts.toy_hash.
  induction password as [|c password IH]; simpl; [by destruct salt|].
  by destruct (Ascii.ascii_dec c c).
Qed.

Lemma one_account_built : Accounts.built Accounts.toy_hash Accounts.one_account.
Proof.
  replace Accounts.one_account
    with (Accounts.registerUser Accounts.toy_hash ∅ "na" "c@x" "pw" "carol").1
    by (vm_compute; reflexivity).
  apply Accounts.built_register, Accounts.built_empty.
Qed.

Lemma built_tables_have_unique_names_witness :
  Accounts.find_by_email Accounts.one_account "c@x"
  = Some (1, Accounts.mkAccount "c@x" "pwna" "carol" 1000).
Proof.
  destruct (built_tables_have_unique_names Accounts.toy_hash
              Accounts.one_account one_account_built) as (_ & _ & Hfind).
  apply (Hfind 1 (Accounts.mkAccount "c@x" "pwna" "carol" 1000)).
  vm_compute; reflexivity.
Defined.

Lemma register_then_authenticate_witness :
  Accounts.authenticateUser Accounts.toy_compare Accounts.one_account "c@x" "pw"
  = inr (mkUserInfo 1 "c@x" "carol" 1000).
Proof.
  destruct (register_then_authenticate Accounts.toy_hash Accounts.toy_compare
              toy_compare_hash ∅ "na" "c@x" "pw" "carol" 1) as (_ & _ & Hauth).
  - vm_compute; reflexivity.
  - exact Hauth.
Defined.

(** ** The table as the socket handlers see it *)



(** ** The HTTP API *)

Lemma missing_false field :
  Accounts.missing field = false →
  ∃ v, field = Some v ∧ v ≠ EmptyString.
Proof.
  destruct field as [v|]; simpl; [|done]. intros Hv.
  apply bool_decide_eq_false_1 in Hv. by exists v.
Qed.

(** X20. [/api/register] changes the table only when it answers 200; a
    request that does not carry the admin password is answered 403; and an
    answer 200 means that the body carried the admin password and a
    non-empty e-mail, password and user name, that the reply names an id
    that was not in use, and that the table has gained, under that id, the
    row with this e-mail, the hash of this password, this user name and
    1000 points, and nothing else. *)
Theorem api_register_outcomes (hashSync : string → string → string) env t salt
    body :
  let t' := (Accounts.api_register hashSync env t salt body).1 in
  let r := (Accounts.api_register hashSync env t salt body).2 in
  (Accounts.status r ≠ 200 → t' = t) ∧
  (Accounts.rb_adminPassword body ≠ Some (Accounts.ADMIN_PASSWORD env) →
   Accounts.status r = 403) ∧
  (Accounts.status r = 200 →
   ∃ email password username newId,
     body = Accounts.mkRegisterBody (Some email) (Some password)
              (Some username) (Some (Accounts.ADMIN_PASSWORD env)) ∧
     email ≠ EmptyString ∧ password ≠ EmptyString ∧ username ≠ EmptyString ∧
     Accounts.userId r = Some newId ∧
     t !! newId = None ∧
     t' = <[newId := Accounts.mkAccount email (hashSync salt password) username
                       1000]> t).
Proof.
  cbv zeta. unfold Accounts.api_register.
  destruct (Accounts.missing (Accounts.rb_adminPassword body)
            || bool_decide (Accounts.rb_adminPassword body
                            ≠ Some (Accounts.ADMIN_PASSWORD env))) eqn:Hadmin.
  { cbn [fst snd Accounts.status]. split_and!; done. }
  apply orb_false_iff in Hadmin as [_ Hadmin].
  apply bool_decide_eq_false_1 in Hadmin.
  assert (Hpw : Accounts.rb_adminPassword body
                = Some (Accounts.ADMIN_PASSWORD env)).
  { destruct (decide (Accounts.rb_adminPassword body
                      = Some (Accounts.ADMIN_PASSWORD env))); [done|].
    by destruct Hadmin. }
  destruct (Accounts.missing (Accounts.rb_email body)
            || Accounts.missing (Accounts.rb_password body)
            || Accounts.missing (Accounts.rb_username body)) eqn:Hfields.
  { cbn [fst snd Accounts.status]. split_and!; done. }
  apply orb_false_iff in Hfields as [Hfields Husername].
  apply orb_false_iff in Hfields as [Hemail Hpassword].
  destruct (missing_false _ Hemail) as (email & He & ?).
  destruct (missing_false _ Hpassword) as (password & Hp & ?).
  destruct (missing_false _ Husername) as (username & Hu & ?).
  rewrite He, Hp, Hu. cbn [default id].
  destruct (Accounts.registerUser hashSync t salt email password username)
    as [t' [why|newId]] eqn:Hres; cbn [fst snd Accounts.status].
  - pose proof (registerUser_inl hashSync t salt email password username why)
      as Hsame. rewrite Hres in Hsame. cbn [fst snd] in Hsame.
    split_and!; [by intros _; apply Hsame | done | done].
  - destruct (registerUser_inr hashSync t salt email password username newId)
      as (_ & _ & Hid & Ht'); [by rewrite Hres|].
    rewrite Hres in Ht'. cbn [fst] in Ht'.
    split_and!; [done | done |]. intros _.
    exists email, password, username, newId. split_and!; try done.
    + destruct body; simpl in *; congruence.
    + subst newId. apply next_rowid_ledger_fresh.
Qed.

Lemma api_register_200 (hashSync : string → string → string) env t salt body :
  Accounts.status (Accounts.api_register hashSync env t salt body).2 = 200 →
  ∃ email password username newId,
    body = Accounts.mkRegisterBody (Some email) (Some password)
             (Some username) (Some (Accounts.ADMIN_PASSWORD env)) ∧
    email ≠ EmptyString ∧ password ≠ EmptyString ∧ username ≠ EmptyString ∧
    Accounts.registerUser hashSync t salt email password username
    = ((Accounts.api_register hashSync env t salt body).1, inr newId).
Proof.
  unfold Accounts.api_register.
  destruct (Accounts.missing (Accounts.rb_adminPassword body)
            || bool_decide (Accounts.rb_adminPassword body
                            ≠ Some (Accounts.ADMIN_PASSWORD env))) eqn:Hadmin;
    [done|].
  apply orb_false_iff in Hadmin as [_ Hadmin].
  apply bool_decide_eq_false_1 in Hadmin.
  assert (Hpw : Accounts.rb_adminPassword body
                = Some (Accounts.ADMIN_PASSWORD env)).
  { destruct (decide (Accounts.rb_adminPassword body
                      = Some (Accounts.ADMIN_PASSWORD env))); [done|].
    by destruct Hadmin. }
  destruct (Accounts.missing (Accounts.rb_email body)
            || Accounts.missing (Accounts.rb_password body)
            || Accounts.missing (Accounts.rb_username body)) eqn:Hfields;
    [done|].
  apply orb_false_iff in Hfields as [Hfields Husername].
  apply orb_false_iff in Hfields as [Hemail Hpassword].
  destruct (missing_false _ Hemail) as (email & He & ?).
  destruct (missing_false _ Hpassword) as (password & Hp & ?).
  destruct (missing_false _ Husername) as (username & Hu & ?).
  rewrite He, Hp, Hu. cbn [default id].
  destruct (Accounts.registerUser hashSync t salt email password username)
    as [t' [why|newId]] eqn:Hres; cbn [fst snd Accounts.status]; [done|].
  intros _. exists email, password, username, newId. split_and!; try done.
  destruct body; simpl in *; congruence.
Qed.

(** ** From the login screen to the socket *)

Lemma api_login_ok compareSync t body found :
  Accounts.user (Accounts.api_login compareSync t body) = Some found →
  ∃ userId a password,
    body = Accounts.mkLoginBody (Some (Accounts.a_email a)) (Some password) ∧
    t !! userId = Some a ∧
    compareSync password (Accounts.a_password_hash a) = true ∧
    found = mkUserInfo userId (Accounts.a_email a) (Accounts.a_username a)
              (Accounts.a_points a).
Proof.
  unfold Accounts.api_login.
  destruct (Accounts.missing (Accounts.lb_email body)
            || Accounts.missing (Accounts.lb_password body)) eqn:Hfields;
    [done|].
  apply orb_false_iff in Hfields as [Hemail Hpassword].
  destruct (missing_false _ Hemail) as (email & He & _).
  destruct (missing_false _ Hpassword) as (password & Hp & _).
  rewrite He, Hp. cbn [default id]. unfold Accounts.authenticateUser.
  destruct (Accounts.find_by_email t email) as [[userId a]|] eqn:Hfind;
    [|done].
  destruct (find_by_email_Some _ _ _ _ Hfind) as [Hrow <-].
  destruct (compareSync password (Accounts.a_password_hash a)) eqn:Hmatch;
    [|done].
  cbn [Accounts.user]. intros [= <-].
  exists userId, a, password. split_and!; try done.
  destruct body; simpl in *; congruence.
Qed.

(** X21. The [login] the login screen emits after [/api/login] is a
    consistent one: it is emitted only for a body whose e-mail is the
    e-mail of a row of the table and whose password [bcrypt] accepts for
    that row's hash, and it carries the id of that row together with that
    row's e-mail.  So on a server whose ledger is this table the [login]
    handler finds the account, and the e-mail it indexes the session under
    is the account's. *)
Theorem login_screen_login_is_consistent
    (compareSync : string → string → bool) t body sock ev s :
  Accounts.handleSubmit sock (Accounts.api_login compareSync t body) = Some ev →
  db s = Accounts.ledger_of t →
  consistent_login s ev ∧
  ∃ userId a password,
    ev = EvLogin sock userId (Accounts.a_email a) ∧
    body = Accounts.mkLoginBody (Some (Accounts.a_email a)) (Some password) ∧
    t !! userId = Some a ∧
    compareSync password (Accounts.a_password_hash a) = true ∧
    getUserById (db s) userId = Some (Accounts.row_of a).
Proof.
  unfold Accounts.handleSubmit. intros Hev Hdb.
  destruct (Accounts.ok _); cbn [negb] in Hev; [|done].
  destruct (Accounts.success _); [|done].
  destruct (Accounts.user _) as [found|] eqn:Hfound; [|done].
  destruct (api_login_ok _ _ _ _ Hfound)
    as (userId & a & password & Hbody & Hrow & Hmatch & ->).
  injection Hev as <-. cbn [i_id i_email].
  assert (Hget : getUserById (db s) userId = Some (Accounts.row_of a)).
  { unfold getUserById. by rewrite Hdb, ledger_of_lookup, Hrow. }
  split.
  - intros row Hrow'. unfold getUserById in Hget.
    rewrite Hget in Hrow'. by injection Hrow' as <-.
  - by exists userId, a, password.
Qed.

Lemma login_screen_login_is_consistent_witness :
  consistent_login
    (initial (Accounts.ledger_of Accounts.one_account))
    (EvLogin "s1" 1 "c@x").
Proof.
  apply (login_screen_login_is_consistent Accounts.toy_compare
           Accounts.one_account
           (Accounts.mkLoginBody (Some "c@x"%string) (Some "pw"%string))
           "s1" (EvLogin "s1" 1 "c@x")
           (initial (Accounts.ledger_of Accounts.one_account))).
  - vm_compute; reflexivity.
  - reflexivity.
Defined.

(** X22. From registration to the lobby: when [/api/register] answers 200,
    a later [/api/login] with the same e-mail and password makes the login
    screen emit a [login] for the new id and that e-mail; and on a server
    whose ledger is the new table, where nobody is indexed under that
    e-mail and fewer than 8 sessions exist, the [login] handler stores a
    session for the socket with the registered e-mail, the user name and
    1000 points, and indexes it under the e-mail. *)
Theorem registered_account_reaches_lobby
    (hashSync : string → string → string)
    (compareSync : string → string → bool) env t salt body s sock :
  (∀ salt password, compareSync password (hashSync salt password) = true) →
  Accounts.status (Accounts.api_register hashSync env t salt body).2 = 200 →
  db s = Accounts.ledger_of (Accounts.api_register hashSync env t salt body).1 →
  emailToSocketId s
    !! default EmptyString (Accounts.rb_email body) = None →
  JsMap.size (onlineUsers s) < MAX_ONLINE_USERS →
  ∃ newId email username,
    Accounts.rb_email body = Some email ∧
    Accounts.rb_username body = Some username ∧
    Accounts.handleSubmit sock
      (Accounts.api_login compareSync
         (Accounts.api_register hashSync env t salt body).1
         (Accounts.mkLoginBody (Accounts.rb_email body)
            (Accounts.rb_password body)))
    = Some (EvLogin sock newId email) ∧
    JsMap.get (onlineUsers (handle s (EvLogin sock newId email)).1) sock
    = Some (mkOnlineUser sock newId email username 1000) ∧
    emailToSocketId (handle s (EvLogin sock newId email)).1 !! email
    = Some sock.
Proof.
  intros Hbcrypt Hstatus Hdb Hidx Hsize.
  destruct (api_register_200 hashSync env t salt body Hstatus)
    as (email & password & username & newId & Hbody & He & Hp & Hu & Hres).
  set (t' := (Accounts.api_register hashSync env t salt body).1) in *.
  assert (Hres2 :
    (Accounts.registerUser hashSync t salt email password username).2
    = inr newId) by (by rewrite Hres).
  destruct (registerUser_inr hashSync t salt email password username newId
              Hres2) as (Hmail & _ & _ & Ht').
  pose proof (authenticate_new_row hashSync compareSync Hbcrypt t newId salt
                email password username Hmail) as Hauth.
  rewrite <- Ht' in Hauth. rewrite Hres in Ht', Hauth. cbn [fst] in Ht', Hauth.
  rewrite Hbody in *.
  cbn [Accounts.rb_email Accounts.rb_password Accounts.rb_username default id]
    in *.
  assert (Hlogin : (login s sock newId email).1
    = mkState (JsMap.set (onlineUsers s) sock
                 (mkOnlineUser sock newId email username 1000))
        (rooms s) (<[email := sock]> (emailToSocketId s)) (db s)).
  { unfold login, getUserById.
    rewrite Hdb, Ht', ledger_of_lookup, lookup_insert_eq.
    cbn [fmap option_fmap option_map Accounts.row_of Accounts.a_email
         Accounts.a_username Accounts.a_points d_email d_username d_points].
    rewrite Hidx. rewrite bool_decide_false by (by intros [? ?]).
    by rewrite bool_decide_false by lia. }
  exists newId, email, username. cbn [handle]. rewrite Hlogin.
  split_and!; [done | done | | apply jsmap_get_set_eq | apply lookup_insert_eq].
  unfold Accounts.handleSubmit, Accounts.api_login.
  cbn [Accounts.lb_email Accounts.lb_password Accounts.missing].
  rewrite !bool_decide_false by done. cbn [orb default id].
  by rewrite Hauth.
Qed.

Lemma registered_account_reaches_lobby_witness :
  JsMap.get
    (onlineUsers
       (handle (initial (Accounts.ledger_of Accounts.one_account))
          (EvLogin "s1" 1 "c@x")).1) "s1"
  = Some (mkOnlineUser "s1" 1 "c@x" "carol" 1000).
Proof.
  destruct (registered_account_reaches_lobby Accounts.toy_hash
              Accounts.toy_compare None ∅ "na" Accounts.carol_body
              (initial (Accounts.ledger_of Accounts.one_account)) "s1"
              toy_compare_hash)
    as (newId & email & username & He & Hu & Hev & Hget & _).
  - vm_compute; reflexivity.
  - reflexivity.
  - reflexivity.
  - vm_compute; reflexivity.
  - injection He as <-. injection Hu as <-.
    vm_compute in Hev. injection Hev as <-. exact Hget.
Defined.

(** * The memory-only server *)



(** ** One session per user name *)

Lemma credit_entry_names us entry sock u' :
  JsMap.get (MemoryServer.credit_entry us entry) sock = Some u' →
  ∃ u, JsMap.get us sock = Some u ∧
       MemoryOnly.m_username u' = MemoryOnly.m_username u.
Proof.
  unfold MemoryServer.credit_entry.
  destruct (JsMap.get us entry.1) as [player|] eqn:Hplayer; [|by eauto].
  rewrite jsmap_get_set. destruct (decide (entry.1 = sock)) as [<-|]; [|by eauto].
  intros [= <-]. by exists player.
Qed.

Lemma credit_fold_names changes us sock u' :
  JsMap.get (foldl MemoryServer.credit_entry us changes) sock = Some u' →
  ∃ u, JsMap.get us sock = Some u ∧
       MemoryOnly.m_username u' = MemoryOnly.m_username u.
Proof.
  revert us. induction changes as [|entry changes IH]; intros us; cbn [foldl];
    [by eauto|].
  intros Hget. destruct (IH _ Hget) as (u1 & Hu1 & Hname1).
  destruct (credit_entry_names _ _ _ _ Hu1) as (u & Hu & Hname).
  exists u. split; [done | congruence].
Qed.

Lemma assign_m_points_names us key p sock u' :
  JsMap.get (MemoryOnly.assign_m_points us key p) sock = Some u' →
  ∃ u, JsMap.get us sock = Some u ∧
       MemoryOnly.m_username u' = MemoryOnly.m_username u.
Proof.
  unfold MemoryOnly.assign_m_points.
  destruct (JsMap.get us key) as [v|] eqn:Hv; [|by eauto].
  rewrite jsmap_get_set. destruct (decide (key = sock)) as [<-|]; [|by eauto].
  intros [= <-]. by exists v.
Qed.

Section memory_server.

Variable calculateRPSResult :
  option string → RPSChoice → option string → RPSChoice → Z → GameResult.

Lemma memory_handle_names_indexed s ev :
  MemoryServer.names_indexed s →
  MemoryServer.names_indexed (MemoryServer.handle calculateRPSResult s ev).1.
Proof.
  intros Hinv.
  assert (Hsame : ∀ s',
    MemoryOnly.usernameToSocketId s' = MemoryOnly.usernameToSocketId s →
    (∀ sock u', JsMap.get (MemoryOnly.users s') sock = Some u' →
       ∃ u, JsMap.get (MemoryOnly.users s) sock = Some u ∧
            MemoryOnly.m_username u' = MemoryOnly.m_username u) →
    MemoryServer.names_indexed s').
  { intros s' Hidx Hus sock u' Hget.
    destruct (Hus sock u' Hget) as (u & Hu & ->). rewrite Hidx.
    by apply Hinv. }
  destruct ev as [sock username password | sock gameType newId
    | sock roomId | sock roomId choice | sock targetUsername amount | sock];
    cbn [MemoryServer.handle MemoryServer.earlier fst].
  - unfold MemoryOnly.login, MemoryOnly.isUsernameTaken.
    case_bool_decide; [done|]. case_bool_decide as Htaken; [done|].
    case_bool_decide; [done|]. cbn [fst].
    intros sk u. cbn [MemoryOnly.users MemoryOnly.usernameToSocketId].
    rewrite jsmap_get_set.
    destruct (decide (sock = sk)) as [<-|Hne].
    + intros [= <-]. apply lookup_insert_eq.
    + intros Hget. pose proof (Hinv sk u Hget) as Hsk.
      rewrite lookup_insert_ne; [done|].
      intros Heq. destruct Htaken. rewrite Heq, Hsk. by eexists.
  - unfold MemoryOnly.create_room.
    destruct (JsMap.get (MemoryOnly.users s) sock); [|done].
    apply Hsame; [done | by eauto].
  - unfold MemoryServer.join_room.
    repeat case_match; try done; (apply Hsame; [done | by eauto]).
  - unfold MemoryServer.rps_choice.
    repeat case_match; try done; cbn [fst];
      (apply Hsame; [done|]); cbn [MemoryOnly.users MemoryServer.set_m_rooms
        MemoryServer.set_users]; try (by eauto);
      intros sk u' Hget; by apply credit_fold_names in Hget.
  - unfold MemoryOnly.transfer_points.
    repeat case_match; try done; cbn [fst].
    apply Hsame; [done|]. cbn [MemoryOnly.users]. intros sk u' Hget.
    apply assign_m_points_names in Hget as (v1 & Hv1 & Hn1).
    apply assign_m_points_names in Hv1 as (v & Hv & Hn).
    exists v. split; [done | congruence].
  - unfold MemoryServer.disconnect.
    destruct (JsMap.get (MemoryOnly.users s) sock) as [user|] eqn:Huser;
      [|done].
    destruct (leave_rooms _ _ _) as [rs notices]. cbn [fst].
    intros sk u. cbn [MemoryOnly.users MemoryOnly.usernameToSocketId].
    rewrite jsmap_get_delete.
    destruct (decide (sock = sk)) as [<-|Hne]; [done|]. intros Hget.
    pose proof (Hinv sk u Hget) as Hsk. pose proof (Hinv sock user Huser) as Hs.
    rewrite lookup_delete_ne; [done|]. intros Heq. congruence.
Qed.

Lemma memory_reachable_names_indexed s :
  MemoryServer.reachable calculateRPSResult s → MemoryServer.names_indexed s.
Proof.
  induction 1 as [|s ev Hreach IH].
  - intros sock u Hget. discriminate.
  - by apply memory_handle_names_indexed.
Qed.

(** X24. In every reachable state of the memory-only server, whatever the
    resolver, every session is indexed under its user name, so no two
    sessions carry the same user name, and a login under the name of a live
    session, with the right password and from whatever socket, is refused
    as taken.  (The server itself chooses the key of the index, unlike the
    persisted server, which takes the e-mail from the client.) *)
Theorem memory_one_session_per_name s :
  MemoryServer.reachable calculateRPSResult s →
  MemoryServer.names_indexed s ∧
  (∀ sock1 sock2 u1 u2,
     JsMap.get (MemoryOnly.users s) sock1 = Some u1 →
     JsMap.get (MemoryOnly.users s) sock2 = Some u2 →
     MemoryOnly.m_username u1 = MemoryOnly.m_username u2 → sock1 = sock2) ∧
  (∀ sock0 u sock,
     JsMap.get (MemoryOnly.users s) sock0 = Some u →
     MemoryOnly.login s sock (MemoryOnly.m_username u) MemoryOnly.COMMON_PASSWORD
     = (s, [MemoryOnly.MEmit (ToSocket sock)
              (MemoryOnly.m_login_error MemoryOnly.UsernameTaken)])).
Proof.
  intros Hreach. pose proof (memory_reachable_names_indexed s Hreach) as Hidx.
  split_and!; [done | |].
  - intros sock1 sock2 u1 u2 H1 H2 Hname.
    pose proof (Hidx sock1 u1 H1) as Hi1. pose proof (Hidx sock2 u2 H2) as Hi2.
    congruence.
  - intros sock0 u sock Hu. unfold MemoryOnly.login, MemoryOnly.isUsernameTaken.
    rewrite bool_decide_false by (by intros []).
    by rewrite bool_decide_true by (rewrite (Hidx sock0 u Hu); by eexists).
Qed.

Lemma memory_reachable_run s evs :
  MemoryServer.reachable calculateRPSResult s →
  MemoryServer.reachable calculateRPSResult
    (MemoryServer.run calculateRPSResult s evs).
Proof.
  revert s. induction evs as [|ev evs IH]; intros s Hs; [done|].
  unfold MemoryServer.run; cbn [foldl]. apply IH. by constructor.
Qed.

End memory_server.

Lemma memory_one_session_per_name_witness :
  MemoryOnly.login MemoryServer.two_friends "s3" "bob" "only-friends-2025"
  = (MemoryServer.two_friends,
     [MemoryOnly.MEmit (ToSocket "s3")
        (MemoryOnly.m_login_error MemoryOnly.UsernameTaken)]).
Proof.
  destruct (memory_one_session_per_name MemoryServer.first_wins
              MemoryServer.two_friends) as (_ & _ & Htaken).
  - apply memory_reachable_run. constructor.
  - apply (Htaken "s2"%string (MemoryOnly.mkUser "s2" "bob" 1000) "s3"%string).
    vm_compute; reflexivity.
Defined.

(** ** Bounds in the memory-only server *)

Lemma length_set_present {V : Type} (m : jsmap V) k v :
  is_Some (JsMap.get m k) → length (JsMap.set m k v) = length m.
Proof.
  induction m as [|[k' v'] m IH]; simpl; [by intros [? ?]|].
  destruct (decide (k' = k)); simpl; [done|]. intros Hk. by rewrite IH.
Qed.

Lemma length_credit_fold changes us :
  length (foldl MemoryServer.credit_entry us changes) = length us.
Proof.
  revert us. induction changes as [|entry changes IH]; intros us; cbn [foldl];
    [done|].
  rewrite IH. unfold MemoryServer.credit_entry.
  destruct (JsMap.get us entry.1) eqn:Hget; [|done].
  apply length_set_present. by eexists.
Qed.

Lemma length_assign_m_points us key p :
  length (MemoryOnly.assign_m_points us key p) = length us.
Proof.
  unfold MemoryOnly.assign_m_points.
  destruct (JsMap.get us key) eqn:Hget; [|done].
  apply length_set_present. by eexists.
Qed.

Section memory_bounds.

Variable calculateRPSResult :
  option string → RPSChoice → option string → RPSChoice → Z → GameResult.

Lemma memory_handle_bounds s ev :
  all_values at_most_two (MemoryOnly.m_rooms s) ∧
  JsMap.size (MemoryOnly.users s) ≤ MAX_ONLINE_USERS →
  all_values at_most_two
    (MemoryOnly.m_rooms (MemoryServer.handle calculateRPSResult s ev).1) ∧
  JsMap.size (MemoryOnly.users (MemoryServer.handle calculateRPSResult s ev).1)
  ≤ MAX_ONLINE_USERS.
Proof.
  unfold JsMap.size. intros [Hrs Hsize].
  destruct ev as [sock username password | sock gameType newId
    | sock roomId | sock roomId choice | sock targetUsername amount | sock];
    cbn [MemoryServer.handle MemoryServer.earlier fst].
  - unfold MemoryOnly.login.
    destruct (bool_decide (password ≠ MemoryOnly.COMMON_PASSWORD)); [done|].
    destruct (MemoryOnly.isUsernameTaken s username); [done|].
    destruct (bool_decide (MAX_ONLINE_USERS ≤ JsMap.size (MemoryOnly.users s)))
      eqn:Hfull; [done|].
    apply bool_decide_eq_false_1 in Hfull.
    cbn [fst MemoryOnly.m_rooms MemoryOnly.users].
    split; [done|]. unfold JsMap.size in Hfull.
    pose proof (length_set_le (MemoryOnly.users s) sock
                  (MemoryOnly.mkUser sock username MemoryOnly.INITIAL_POINTS)).
    unfold MAX_ONLINE_USERS in *. lia.
  - unfold MemoryOnly.create_room.
    destruct (JsMap.get (MemoryOnly.users s) sock); [|done].
    cbn [fst MemoryOnly.m_rooms MemoryOnly.users]. split; [|done].
    apply all_values_set; [done|]. unfold at_most_two; simpl; lia.
  - unfold MemoryServer.join_room.
    destruct (JsMap.get (MemoryOnly.users s) sock); [|done].
    destruct (JsMap.get (MemoryOnly.m_rooms s) roomId) as [room|]; [|done].
    repeat case_bool_decide; try done;
      cbn [fst MemoryOnly.m_rooms MemoryOnly.users MemoryServer.set_m_rooms];
      (split; [|done]); (apply all_values_set; [done|]);
      unfold at_most_two in *; simpl in *; rewrite ?length_app in *;
      simpl in *; lia.
  - unfold MemoryServer.rps_choice.
    destruct (JsMap.get (MemoryOnly.m_rooms s) roomId) as [room|] eqn:Hroom;
      [|done].
    assert (Hr : at_most_two room) by (by eapply all_values_get).
    case_bool_decide; [done|]. case_match; [done|].
    repeat case_match;
      cbn [fst MemoryOnly.m_rooms MemoryOnly.users MemoryServer.set_m_rooms
           MemoryServer.set_users];
      rewrite ?length_credit_fold; (split; [|done]);
      repeat (apply all_values_set; [|done]); done.
  - unfold MemoryOnly.transfer_points.
    repeat case_match; try done.
    cbn [fst MemoryOnly.m_rooms MemoryOnly.users].
    by rewrite !length_assign_m_points.
  - unfold MemoryServer.disconnect.
    destruct (JsMap.get (MemoryOnly.users s) sock) as [user|]; [|done].
    pose proof (leave_rooms_at_most_two sock (MemoryOnly.m_username user) _ Hrs)
      as Hleave.
    destruct (leave_rooms _ _ _) as [rs notices].
    cbn [fst MemoryOnly.m_rooms MemoryOnly.users]. split; [done|].
    pose proof (length_delete_le (MemoryOnly.users s) sock). lia.
Qed.

(** X25. In every reachable state of the memory-only server, whatever the
    resolver, no room has more than two players and at most 8 sessions
    exist; [join_room] by a session on a room that has two players is
    refused as full and changes nothing. *)
Theorem memory_server_bounds s :
  MemoryServer.reachable calculateRPSResult s →
  all_values at_most_two (MemoryOnly.m_rooms s) ∧
  JsMap.size (MemoryOnly.users s) ≤ MAX_ONLINE_USERS ∧
  ∀ sock roomId user room,
    JsMap.get (MemoryOnly.users s) sock = Some user →
    JsMap.get (MemoryOnly.m_rooms s) roomId = Some room →
    length (r_players room) = 2%nat →
    MemoryServer.join_room s sock roomId
    = (s, [MemoryServer.SEmit (ToSocket sock) (MemoryServer.s_error RoomFull)]).
Proof.
  intros Hreach.
  assert (Hbounds : all_values at_most_two (MemoryOnly.m_rooms s) ∧
                    JsMap.size (MemoryOnly.users s) ≤ MAX_ONLINE_USERS).
  { induction Hreach as [|s ev Hreach IH].
    - split; [constructor | by vm_compute].
    - by apply memory_handle_bounds. }
  destruct Hbounds as [Hrooms Hsize]. split_and!; [done | done |].
  intros sock roomId user room Huser Hroom Htwo.
  unfold MemoryServer.join_room. rewrite Huser, Hroom.
  by rewrite bool_decide_true by lia.
Qed.

End memory_bounds.

Lemma memory_server_bounds_witness :
  MemoryServer.join_room MemoryServer.two_friends "s1" "r1"
  = (MemoryServer.two_friends,
     [MemoryServer.SEmit (ToSocket "s1") (MemoryServer.s_error RoomFull)]).
Proof.
  destruct (memory_server_bounds MemoryServer.first_wins
              MemoryServer.two_friends) as (_ & _ & Hfull).
  - apply memory_reachable_run. constructor.
  - apply (Hfull "s1"%string "r1"%string (MemoryOnly.mkUser "s1" "alice" 1000)
             (mkRoom "r1" "rps" "s1" ["s1"; "s2"] playing 100 None));
      vm_compute; reflexivity.
Defined.

(** * The ledger's rows *)

Lemma rows_permanent_refl d : rows_permanent d d.
Proof. intros k row Hrow. by exists row. Qed.

Lemma rows_permanent_trans d1 d2 d3 :
  rows_permanent d1 d2 → rows_permanent d2 d3 → rows_permanent d1 d3.
Proof.
  intros H12 H23 k row Hrow.
  destruct (H12 k row Hrow) as (row2 & Hrow2 & He2 & Hu2).
  destruct (H23 k row2 Hrow2) as (row3 & Hrow3 & He3 & Hu3).
  exists row3. split_and!; [done | congruence | congruence].
Qed.

Lemma rows_permanent_update d userId newPoints :
  rows_permanent d (updateUserPoints d userId newPoints).
Proof.
  intros k row Hrow. unfold updateUserPoints. rewrite lookup_alter.
  destruct (decide (userId = k)) as [->|]; [|by exists row].
  rewrite Hrow. by eexists.
Qed.

Lemma rows_permanent_settle ou d changes :
  rows_permanent d (settle ou d changes).1.2.
Proof.
  unfold settle. generalize (∅ : gmap Z Z). revert ou d.
  induction changes as [|entry changes IH]; intros ou d byUserId; cbn [foldl];
    [apply rows_permanent_refl|].
  unfold settle_entry at 2.
  destruct (JsMap.get ou entry.1) as [player|]; [|apply IH].
  eapply rows_permanent_trans; [|apply IH]. apply rows_permanent_update.
Qed.

(** X26. No handler removes a row of the ledger or changes the e-mail or
    the user name of a row; only [rps_choice] and [transfer_points] change
    a balance: every other event, registration included, leaves each
    existing row exactly as it was. *)
Theorem ledger_rows_are_permanent s ev k row :
  db s !! k = Some row →
  ∃ row',
    db (handle s ev).1 !! k = Some row' ∧
    d_email row' = d_email row ∧ d_username row' = d_username row ∧
    (¬ writes_balances ev → row' = row).
Proof.
  intros Hrow.
  assert (Hsame : db (handle s ev).1 = db s →
    ∃ row', db (handle s ev).1 !! k = Some row' ∧
      d_email row' = d_email row ∧ d_username row' = d_username row ∧
      (¬ writes_balances ev → row' = row)).
  { intros ->. by exists row. }
  assert (Hkept : writes_balances ev → rows_permanent (db s) (db (handle s ev).1) →
    ∃ row', db (handle s ev).1 !! k = Some row' ∧
      d_email row' = d_email row ∧ d_username row' = d_username row ∧
      (¬ writes_balances ev → row' = row)).
  { intros Hev Hperm. destruct (Hperm k row Hrow) as (row' & ? & ? & ?).
    exists row'. by split_and!. }
  destruct ev as [sock userId email | sock gameType newId
    | sock roomId | sock roomId choice | sock targetEmail amount | sock
    | email username].
  - apply Hsame. cbn [handle]. unfold login. by repeat case_match.
  - apply Hsame. cbn [handle]. unfold create_room.
    repeat case_match; cbn [fst db set_rooms]; by rewrite ?refresh_points_db.
  - apply Hsame. cbn [handle]. unfold join_room.
    repeat case_match; cbn [fst db set_rooms]; by rewrite ?refresh_points_db.
  - apply Hkept; [done|]. cbn [handle]. unfold rps_choice, resolve_round.
    repeat case_match; cbn [fst db set_rooms]; try apply rows_permanent_refl.
    all: lazymatch goal with
         | H : settle ?ou ?d ?ch = _ |- _ =>
             pose proof (rows_permanent_settle ou d ch) as Hperm;
             rewrite H in Hperm; exact Hperm
         end.
  - apply Hkept; [done|]. cbn [handle]. unfold transfer_points.
    repeat case_match; cbn [fst]; rewrite ?refresh_points_db;
      try apply rows_permanent_refl.
    unfold complete_transfer. cbn [fst db]. rewrite !refresh_points_db.
    eapply rows_permanent_trans; apply rows_permanent_update.
  - apply Hsame. cbn [handle]. unfold disconnect.
    destruct (JsMap.get (onlineUsers s) sock); [|done].
    by destruct (leave_rooms _ _ _).
  - cbn [handle fst db]. exists row. split_and!; try done.
    unfold registerUser. repeat case_bool_decide; cbn [fst]; try done.
    rewrite lookup_insert_ne; [done|].
    intros <-. by rewrite next_rowid_fresh in Hrow.
Qed.

Lemma ledger_rows_are_permanent_witness :
  ∃ row',
    db (handle host_moved (EvRpsChoice "s2" "r1" scissors)).1 !! 2 = Some row' ∧
    d_email row' = "b@x"%string ∧ d_username row' = "bob"%string.
Proof.
  destruct (ledger_rows_are_permanent host_moved
              (EvRpsChoice "s2" "r1" scissors) 2 (mkDbUser "b@x" "bob" 1000))
    as (row' & Hrow' & He & Hu & _).
  - vm_compute; reflexivity.
  - exists row'. split; [exact Hrow'|]. split; [exact He | exact Hu].
Defined.

(** * A new room in the list *)

Lemma jsmap_set_absent {V : Type} (m : jsmap V) k v :
  JsMap.get m k = None → JsMap.set m k v = m ++ [(k, v)].
Proof.
  induction m as [|[k' v'] m IH]; simpl; [done|].
  destruct (decide (k' = k)); [done|]. intros Hget. by rewrite IH.
Qed.

(** X27. [create_room] by a logged-in connection whose ledger balance covers
    the stake, with an id that no room has, appends the new waiting room,
    with the requester as host and only player, after the existing rooms,
    which stay as they are; the list of available rooms sent to the others
    is the previous list followed by the new room. *)
Theorem create_room_appends_room s sock gameType newId user :
  JsMap.get (onlineUsers s) sock = Some user →
  bet_of gameType ≤ getUserPoints (db s) (u_userId user) →
  JsMap.get (rooms s) newId = None →
  let room := mkRoom newId gameType sock [sock] waiting (bet_of gameType) None in
  rooms (create_room s sock gameType newId).1 = rooms s ++ [(newId, room)] ∧
  getAvailableRooms (create_room s sock gameType newId).1
  = getAvailableRooms s ++ [room] ∧
  (create_room s sock gameType newId).2
  = [SocketJoin sock newId;
     Emit (ToSocket sock) (room_created room);
     Emit (Broadcast sock)
       (room_list_updated (getAvailableRooms s ++ [room]))].
Proof.
  intros Huser Hfunds Hfresh. cbv zeta.
  assert (Hlist : ∀ s',
    rooms s' = rooms s ++
      [(newId, mkRoom newId gameType sock [sock] waiting (bet_of gameType) None)] →
    getAvailableRooms s'
    = getAvailableRooms s ++
      [mkRoom newId gameType sock [sock] waiting (bet_of gameType) None]).
  { intros s' Hrooms. unfold getAvailableRooms, JsMap.values.
    rewrite Hrooms, fmap_app, filter_app. f_equal. }
  unfold create_room. rewrite Huser. cbv zeta.
  rewrite (refresh_points_get _ _ _ Huser). cbn [default id set_points u_points].
  rewrite bool_decide_false by lia.
  cbn [fst snd r_id]. rewrite refresh_points_rooms.
  rewrite (jsmap_set_absent _ _ _ Hfresh).
  set (s2 := set_rooms _ _).
  assert (Hrooms : rooms s2 = rooms s ++
    [(newId, mkRoom newId gameType sock [sock] waiting (bet_of gameType) None)])
    by done.
  by rewrite (Hlist s2 Hrooms).
Qed.

Lemma create_room_appends_room_witness :
  getAvailableRooms two_hosts
  = getAvailableRooms
      (run (initial two_accounts)
         [EvLogin "s1" 1 "a@x"; EvLogin "s2" 2 "b@x";
          EvCreateRoom "s1" "rps" "r1"])
    ++ [mkRoom "r2" "rps" "s2" ["s2"] waiting 100 None].
Proof.
  destruct (create_room_appends_room
              (run (initial two_accounts)
                 [EvLogin "s1" 1 "a@x"; EvLogin "s2" 2 "b@x";
                  EvCreateRoom "s1" "rps" "r1"])
              "s2" "rps" "r2" (mkOnlineUser "s2" 2 "b@x" "bob" 1000))
    as (_ & Hlist & _).
  - vm_compute; reflexivity.
  - vm_compute. discriminate.
  - vm_compute; reflexivity.
  - exact Hlist.
Defined.

(** * The admin script and the API *)



(** * The loop of [disconnect], entry by entry *)

Lemma jsmap_get_app_absent {V : Type} (m1 m2 : jsmap V) k :
  k ∉ JsMap.keys m1 → JsMap.get (m1 ++ m2) k = JsMap.get m2 k.
Proof.
  unfold JsMap.keys. induction m1 as [|[k' v'] m1 IH]; csimpl; [done|].
  intros Hk. apply not_elem_of_cons in Hk as [Hne Hk].
  rewrite decide_False by done. by apply IH.
Qed.

Lemma jsmap_set_app_absent {V : Type} (m1 m2 : jsmap V) k v :
  k ∉ JsMap.keys m1 → JsMap.set (m1 ++ m2) k v = m1 ++ JsMap.set m2 k v.
Proof.
  unfold JsMap.keys. induction m1 as [|[k' v'] m1 IH]; csimpl; [done|].
  intros Hk. apply not_elem_of_cons in Hk as [Hne Hk].
  rewrite decide_False by done. by rewrite IH.
Qed.

Lemma jsmap_delete_app_absent {V : Type} (m1 m2 : jsmap V) k :
  k ∉ JsMap.keys m1 → JsMap.delete (m1 ++ m2) k = m1 ++ JsMap.delete m2 k.
Proof.
  unfold JsMap.keys. induction m1 as [|[k' v'] m1 IH]; csimpl; [done|].
  intros Hk. apply not_elem_of_cons in Hk as [Hne Hk].
  rewrite decide_False by done. by rewrite IH.
Qed.

Lemma jsmap_delete_fresh {V : Type} (m : jsmap V) k :
  k ∉ JsMap.keys m → JsMap.delete m k = m.
Proof.
  unfold JsMap.keys. induction m as [|[k' v'] m IH]; csimpl; [done|].
  intros Hk. apply not_elem_of_cons in Hk as [Hne Hk].
  rewrite decide_False by done. by rewrite IH.
Qed.

Lemma leave_rooms_fold_entries sock username (seen rest : jsmap Room) out :
  NoDup (JsMap.keys seen ++ JsMap.keys rest) →
  Forall (λ kv, r_id kv.2 = kv.1) rest →
  foldl (leave_room sock username) (seen ++ rest, out) (JsMap.keys rest)
  = (seen ++ omap (leave_entry sock) rest,
     out ++ omap (leave_notice sock username) rest).
Proof.
  revert seen out. induction rest as [|[k room] rest IH]; intros seen out Hnodup Hids.
  - cbn [JsMap.keys fmap list_fmap foldl omap list_omap]. by rewrite !app_nil_r.
  - apply Forall_cons in Hids as [Hid Hids]. cbn [fst snd] in Hid.
    unfold JsMap.keys in *. csimpl in *.
    apply NoDup_app in Hnodup as (Hseen & Hdisj & Hrest).
    apply NoDup_cons in Hrest as [Hk Hrest].
    assert (Hkseen : k ∉ seen.*1).
    { intros Hin. apply (Hdisj k Hin). left. }
    assert (Hstep : ∀ room',
      NoDup ((seen ++ [(k, room')]).*1 ++ rest.*1)).
    { intros room'. rewrite fmap_app. csimpl. rewrite <- app_assoc. csimpl.
      apply NoDup_app. split_and!; [done | | by apply NoDup_cons].
      intros x Hx. apply Hdisj. done. }
    rewrite (jsmap_get_app_absent seen) by done. csimpl.
    rewrite decide_True by done.
    unfold leave_entry at 1, leave_notice at 1. cbn [fst snd].
    destruct (bool_decide (sock ∈ r_players room)) eqn:Hmem.
    + cbn [set_players r_players r_id]. rewrite Hid.
      destruct (filter (λ id, id ≠ sock) (r_players room)) as [|p l] eqn:Hfilter.
      * rewrite !bool_decide_true by done.
        rewrite jsmap_set_app_absent by done. csimpl.
        rewrite decide_True by done.
        rewrite jsmap_delete_app_absent by done. csimpl.
        rewrite decide_True by done.
        rewrite jsmap_delete_fresh by done.
        apply IH; [|done]. apply NoDup_app. split_and!; [done | | done].
        intros x Hx Hx'. apply (Hdisj x Hx). by right.
      * rewrite !bool_decide_false by done.
        rewrite jsmap_set_app_absent by done. csimpl.
        rewrite decide_True by done.
        replace (seen ++ (k, set_status (set_players room (p :: l)) waiting)
                   :: rest)
          with ((seen ++ [(k, set_status (set_players room (p :: l)) waiting)])
                  ++ rest) by (by rewrite <- app_assoc).
        rewrite IH; [|apply Hstep | done].
        unfold without_player. rewrite Hfilter.
        by rewrite <- !app_assoc.
    + replace (seen ++ (k, room) :: rest) with ((seen ++ [(k, room)]) ++ rest)
        by (by rewrite <- app_assoc).
      rewrite IH; [|apply Hstep | done]. by rewrite <- !app_assoc.
Qed.

(** X29. In a reachable state [disconnect] of a socket that has a session
    is the following function of the state: the session and the index entry
    of its e-mail go; every room, in the order of the map, either stays as
    it is (the socket did not play in it), goes (nobody else played in it),
    or loses the socket and waits; the ledger stays; and the output is one
    [player_left_room] per room of the third kind, in that order, followed
    by [user_left], the roster and the list of available rooms. *)
Theorem disconnect_entry_by_entry s sock user :
  reachable s →
  JsMap.get (onlineUsers s) sock = Some user →
  let s' :=
    mkState (JsMap.delete (onlineUsers s) sock)
      (omap (leave_entry sock) (rooms s))
      (delete (u_email user) (emailToSocketId s)) (db s) in
  disconnect s sock
  = (s',
     omap (leave_notice sock (u_username user)) (rooms s) ++
     [Emit (Broadcast sock) (user_left (u_username user));
      Emit (Broadcast sock) (online_users_updated (getOnlineUsersList s'));
      Emit (Broadcast sock) (room_list_updated (getAvailableRooms s'))]).
Proof.
  intros Hreach Huser. cbv zeta.
  destruct (reachable_well_keyed s Hreach) as [_ [Hnodup Hids]].
  unfold disconnect. rewrite Huser. unfold leave_rooms.
  pose proof (leave_rooms_fold_entries sock (u_username user) [] (rooms s) [])
    as Hloop.
  cbn [app] in Hloop. rewrite Hloop by done. reflexivity.
Qed.

Lemma disconnect_entry_by_entry_witness :
  disconnect full_room "s2"
  = (mkState [("s1"%string, mkOnlineUser "s1" 1 "a@x" "alice" 1000)]
       [("r1"%string, mkRoom "r1" "rps" "s1" ["s1"] waiting 100 None)]
       {["a@x"%string := "s1"%string]} two_accounts,
     [Emit (IoTo "r1")
        (player_left_room (mkRoom "r1" "rps" "s1" ["s1"] playing 100 None) "bob");
      Emit (Broadcast "s2") (user_left "bob");
      Emit (Broadcast "s2")
        (online_users_updated [mkOnlineUser "s1" 1 "a@x" "alice" 1000]);
      Emit (Broadcast "s2")
        (room_list_updated
           [mkRoom "r1" "rps" "s1" ["s1"] waiting 100 None])]).
Proof.
  rewrite (disconnect_entry_by_entry full_room "s2"
             (mkOnlineUser "s2" 2 "b@x" "bob" 1000)).
  - vm_compute. reflexivity.
  - apply reachable_run, reachable_initial.
  - vm_compute; reflexivity.
Defined.

(** * When a transfer is accepted *)

Lemma refresh_points_is_Some s key user k :
  is_Some (JsMap.get (onlineUsers (refresh_points s key user)) k)
  ↔ is_Some (JsMap.get (onlineUsers s) k).
Proof. apply same_sessions_is_Some, same_sessions_refresh. Qed.

Ltac in_list :=
  repeat first [apply list_elem_of_here | apply list_elem_of_further].

(** X30. [transfer_points] has two kinds of outcome.  Either the sender is
    logged in, the amount is positive and covered by the sender's ledger
    balance and the e-mail is indexed to a socket with a session: then the
    output is [transfer_success] to the sender, [points_received] to that
    socket and the roster to everyone, all three for this amount.  Or one
    of these fails: then the output is one [error] to the sender, with one
    of five reasons, and nothing is sent to anybody else. *)
Theorem transfer_points_outcomes s sock targetEmail amount :
  (∃ target name info name' info' roster,
     transfer_accepted s sock targetEmail amount target ∧
     (transfer_points s sock targetEmail amount).2
     = [Emit (ToSocket sock) (transfer_success name amount info);
        Emit (IoTo target) (points_received name' amount info');
        Emit IoAll (online_users_updated roster)]) ∨
  ((∀ target, ¬ transfer_accepted s sock targetEmail amount target) ∧
   ∃ reason,
     reason ∈ transfer_refusals ∧
     (transfer_points s sock targetEmail amount).2
     = [Emit (ToSocket sock) (error reason)]).
Proof.
  assert (Hrefused : ∀ reason out,
    reason ∈ transfer_refusals →
    (∀ target, ¬ transfer_accepted s sock targetEmail amount target) →
    out = [Emit (ToSocket sock) (error reason)] →
    (∃ target name info name' info' roster,
       transfer_accepted s sock targetEmail amount target ∧
       out
       = [Emit (ToSocket sock) (transfer_success name amount info);
          Emit (IoTo target) (points_received name' amount info');
          Emit IoAll (online_users_updated roster)]) ∨
    ((∀ target, ¬ transfer_accepted s sock targetEmail amount target) ∧
     ∃ reason, reason ∈ transfer_refusals ∧
               out = [Emit (ToSocket sock) (error reason)])).
  { intros reason out Hin Hnot ->. right. split; [done|]. by exists reason. }
  unfold transfer_points.
  destruct (JsMap.get (onlineUsers s) sock) as [sender|] eqn:Hsender.
  2: { apply (Hrefused LoginRequired); [in_list | | done].
       intros target (sender & ? & _). congruence. }
  case_bool_decide as Hamount.
  { apply (Hrefused InvalidAmount); [in_list | | done].
    intros target (sender' & _ & ? & _). lia. }
  cbv zeta. rewrite (refresh_points_get _ _ _ Hsender).
  cbn [default id set_points u_points].
  case_bool_decide as Hfunds.
  { apply (Hrefused (InsufficientFunds None)); [in_list | | done].
    intros target (sender' & Hs' & _ & ? & _).
    rewrite Hsender in Hs'. injection Hs' as <-. lia. }
  rewrite refresh_points_index.
  destruct (emailToSocketId s !! targetEmail) as [target|] eqn:Hidx.
  2: { apply (Hrefused TargetNotFound); [in_list | | done].
       intros target (sender' & _ & _ & _ & ? & _). congruence. }
  case_bool_decide as Hempty.
  { apply (Hrefused TargetNotFound); [in_list | | done].
    intros target' (sender' & _ & _ & _ & ? & ? & _). congruence. }
  destruct (JsMap.get (onlineUsers (refresh_points s sock sender)) target)
    as [target0|] eqn:Htarget.
  2: { apply (Hrefused TargetOffline); [in_list | | done].
       intros target' (sender' & _ & _ & _ & Hidx' & _ & Hsome).
       rewrite Hidx in Hidx'. injection Hidx' as <-.
       apply (refresh_points_is_Some s sock sender) in Hsome.
       rewrite Htarget in Hsome. by destruct Hsome. }
  left. unfold complete_transfer. cbn [snd].
  eexists target, _, _, _, _, _. split; [|reflexivity].
  exists sender. split_and!; try done; [lia | lia |].
  apply (refresh_points_is_Some s sock sender). by eexists.
Qed.
